(** * The admin API client of AgentCost: session layer

    A shallow embedding of [src/lib/api.ts] ([getToken], [getRefreshToken],
    [refreshAccessToken], [doRefreshAccessToken], [request], [adminLogin]) and
    of the [login] callback of [src/contexts/AdminAuthContext.tsx].

    The file has three layers:
    - [Js]: the JavaScript values the client handles (parsed JSON bodies,
      property reads, truthiness, string conversion);
    - [Client]: the functions of the client as programs of a state-and-exception
      monad, for one call running on its own against a scripted transport;
    - [Loop]: the same request pipeline as a machine of suspended calls resumed
      one at a time, for the properties that speak about interleaved calls;
      [LoopFacts.alone_agrees] relates it to [Client.request].

    Around the session layer, the code that uses it:
    - [Api]: the endpoint wrappers of [src/lib/api.ts], each a call of
      [request];
    - [Auth]: the provider of [src/contexts/AdminAuthContext.tsx] with its
      React state, its two effects and its callbacks, and the dashboard
      layout that reads it;
    - [LoginPage]: the submit handler of [src/app/login/page.tsx];
    - [Shared]: the pagination bar of [src/components/ui/shared.tsx]. *)

From stdpp Require Import base option numbers list strings gmap.

Local Open Scope string_scope.
Local Open Scope list_scope.
Set Warnings "-register-all".

(** ** JavaScript values *)

Module Js.

(** A JavaScript number, as far as this client can observe one: the client
    never calculates, it only tests a number for truthiness and converts it to
    a string. *)
Record number := { num_truthy : bool; num_string : string }.

(** A JavaScript value: [undefined], or what [JSON.parse] can produce.  An
    object is the list of its own properties, each key once. *)
Inductive JSValue : Type :=
| JUndefined
| JNull
| JBool (b : bool)
| JNum (n : number)
| JStr (s : string)
| JArr (items : list JSValue)
| JObj (props : list (string * JSValue)).

(** [o[key]] on the own properties of an object. *)
Fixpoint own_prop (key : string) (props : list (string * JSValue)) : option JSValue :=
  match props with
  | [] => None
  | (k, v) :: rest => if String.eqb k key then Some v else own_prop key rest
  end.

(** [v.key] for the keys the client reads ([access_token], [refresh_token],
    [detail], [user], [id], ...): none of them is a property of a prototype, so
    only own properties of objects answer; reading a property of [null] or
    [undefined] is a TypeError ([None]). *)
Definition get (v : JSValue) (key : string) : option JSValue :=
  match v with
  | JUndefined | JNull => None
  | JObj props => Some (default JUndefined (own_prop key props))
  | _ => Some JUndefined
  end.

(** ToBoolean. *)
Definition truthy (v : JSValue) : bool :=
  match v with
  | JUndefined | JNull => false
  | JBool b => b
  | JNum n => num_truthy n
  | JStr s => negb (String.eqb s "")
  | JArr _ | JObj _ => true
  end.

(** ToString.  An array joins the strings of its elements with commas, with
    [null] and [undefined] elements as empty strings; a parsed object answers
    [[object Object]] through [Object.prototype.toString], unless it has an own
    [toString] property (which, coming from JSON, is not callable: then
    [valueOf] returns the object itself and the conversion is a TypeError). *)
Fixpoint ToString (v : JSValue) : option string :=
  match v with
  | JUndefined => Some "undefined"
  | JNull => Some "null"
  | JBool b => Some (if b then "true" else "false")
  | JNum n => Some (num_string n)
  | JStr s => Some s
  | JArr items =>
      (fix join (l : list JSValue) : option string :=
         match l with
         | [] => Some ""
         | x :: rest =>
             match (match x with
                    | JUndefined | JNull => Some ""
                    | _ => ToString x
                    end) with
             | None => None
             | Some hd =>
                 match rest with
                 | [] => Some hd
                 | _ :: _ =>
                     match join rest with
                     | None => None
                     | Some tl => Some (hd +:+ "," +:+ tl)
                     end
                 end
             end
         end) items
  | JObj props =>
      match own_prop "toString" props with
      | Some _ => None
      | None => Some "[object Object]"
      end
  end.

(** [a || b] *)
Definition or_else (a b : JSValue) : JSValue := if truthy a then a else b.

(** [a ?? b] *)
Definition nullish_else (a b : JSValue) : JSValue :=
  match a with
  | JUndefined | JNull => b
  | _ => a
  end.

(** A [string | null] as the storage getters return it. *)
Definition of_item (o : option string) : JSValue :=
  match o with
  | Some s => JStr s
  | None => JNull
  end.

End Js.

Import Js.

(** ** The transport and the browser, as the client sees them *)

(** What [fetch] was called with: the URL and the fields of its init object
    that the client sets. *)
Record http_request := {
  url : string;
  method : option string;
  headers : gmap string string;
  body : option string;
}.

(** A [Response]: [json] is what [response.json()] settles with, [None] when
    it rejects (the body is not valid JSON, or cannot be read). *)
Record response := {
  status : Z;
  statusText : string;
  json : option JSValue;
}.

(** [response.ok] *)
Definition ok (r : response) : bool := (200 <=? status r)%Z && (status r <=? 299)%Z.

(** How a [fetch] settles: with a response, whatever its status, or by
    rejecting when the server could not be reached. *)
Inductive fetch_result :=
| Responded (r : response)
| Unreachable.

(** What the client throws, or lets through. *)
Inductive exn :=
| AdminApiError (message : string) (status : Z)
| NetworkError          (* [fetch] rejected *)
| BodyError             (* [response.json()] rejected *)
| TypeError             (* a property of [null]/[undefined], or a failed ToString *)
| ReferenceError.       (* [localStorage] where there is no [window] *)

(** The second argument of [request]: a [RequestInit] with the fields the
    callers of this client set. *)
Record RequestInit := {
  init_method : option string;
  init_headers : gmap string string;
  init_body : option string;
}.

Definition no_options : RequestInit :=
  {| init_method := None; init_headers := ∅; init_body := None |}.

(** What the execution environment fixes: the build-time variable, whether the
    code runs in a browser, [JSON.stringify] on objects, and the transport: the
    [n]-th [fetch] of a run settles with [network n]. *)
Record platform := {
  NEXT_PUBLIC_API_URL : option string;
  window_defined : bool;
  JSON_stringify : JSValue -> string;
  network : nat -> fetch_result;
}.

(** [process.env.NEXT_PUBLIC_API_URL || "http://localhost:8000"] *)
Definition API_BASE (pf : platform) : string :=
  match NEXT_PUBLIC_API_URL pf with
  | Some u => if String.eqb u "" then "http://localhost:8000" else u
  | None => "http://localhost:8000"
  end.

Definition ACCESS_KEY : string := "admin_access_token".
Definition REFRESH_KEY : string := "admin_refresh_token".
Definition USER_KEY : string := "admin_user".

Definition json_headers : gmap string string := {[ "Content-Type" := "application/json" ]}.

(** The headers [request] sends: the default content type, overridden by the
    caller's headers, then the bearer token when there is one. *)
Definition base_headers (options : RequestInit) : gmap string string :=
  init_headers options ∪ json_headers.

Definition with_bearer (tok : string) (h : gmap string string) : gmap string string :=
  <[ "Authorization" := "Bearer " +:+ tok ]> h.

Definition api_call (pf : platform) (path : string) (options : RequestInit)
    (h : gmap string string) : http_request :=
  {| url := API_BASE pf +:+ path;
     method := init_method options;
     headers := h;
     body := init_body options |}.

Definition refresh_call (pf : platform) (refreshToken : string) : http_request :=
  {| url := API_BASE pf +:+ "/v1/auth/refresh";
     method := Some "POST";
     headers := json_headers;
     body := Some (JSON_stringify pf (JObj [("refresh_token", JStr refreshToken)])) |}.

Definition login_call (pf : platform) (email password : string) : http_request :=
  {| url := API_BASE pf +:+ "/v1/auth/login";
     method := Some "POST";
     headers := json_headers;
     body := Some (JSON_stringify pf
                     (JObj [("email", JStr email); ("password", JStr password)])) |}.

Definition verify_call (pf : platform) (tok : string) : http_request :=
  {| url := API_BASE pf +:+ "/v1/admin/auth/verify";
     method := None;
     headers := {[ "Authorization" := "Bearer " +:+ tok ]};
     body := None |}.

(** ** The client, one call at a time *)

Module Client.

(** The user record the auth context keeps in React state. *)
Record AdminUser := {
  user_id : JSValue;
  user_email : JSValue;
  user_name : JSValue;
  user_is_superuser : JSValue;
}.

(** How a call ends. *)
Inductive completion (A : Type) : Type :=
| Returned (a : A)
| Threw (e : exn).
Arguments Returned {A} a.
Arguments Threw {A} e.

(** The mutable state a call can touch: the browser's [localStorage], the
    module variable [refreshPromise] (a promise is kept as what it settles
    with), the calls made to [fetch] so far (oldest first), and for [login] the
    React state [user] and the target of the last [router.replace]. *)
Record state := {
  localStorage : gmap string string;
  refreshPromise : option (completion JSValue);
  calls : list http_request;
  user : option AdminUser;
  location : option string;
}.

Definition set_localStorage (f : gmap string string -> gmap string string) (s : state) : state :=
  {| localStorage := f (localStorage s); refreshPromise := refreshPromise s;
     calls := calls s; user := user s; location := location s |}.

Definition set_refreshPromise (p : option (completion JSValue)) (s : state) : state :=
  {| localStorage := localStorage s; refreshPromise := p;
     calls := calls s; user := user s; location := location s |}.

Definition add_call (rq : http_request) (s : state) : state :=
  {| localStorage := localStorage s; refreshPromise := refreshPromise s;
     calls := calls s ++ [rq]; user := user s; location := location s |}.

Definition set_user (u : option AdminUser) (s : state) : state :=
  {| localStorage := localStorage s; refreshPromise := refreshPromise s;
     calls := calls s; user := u; location := location s |}.

Definition set_location (l : string) (s : state) : state :=
  {| localStorage := localStorage s; refreshPromise := refreshPromise s;
     calls := calls s; user := user s; location := Some l |}.

(** Programs: state passing, with exceptions that keep the state reached. *)
Definition M (A : Type) : Type := state -> completion A * state.

Definition ret {A} (a : A) : M A := fun s => (Returned a, s).
Definition throw {A} (e : exn) : M A := fun s => (Threw e, s).

Definition bind {A B} (m : M A) (k : A -> M B) : M B :=
  fun s =>
    match m s with
    | (Returned a, s') => k a s'
    | (Threw e, s') => (Threw e, s')
    end.

Notation "'let!' x ':=' m 'in' k" := (bind m (fun x => k))
  (at level 10, x name, m at level 100, k at level 200).
Notation "'do!' m 'in' k" := (bind m (fun _ => k))
  (at level 10, m at level 100, k at level 200).

(** [try { m } catch { h }] and [p.catch(h)] *)
Definition try_catch {A} (m : M A) (h : exn -> M A) : M A :=
  fun s =>
    match m s with
    | (Returned a, s') => (Returned a, s')
    | (Threw e, s') => h e s'
    end.

(** [try { m } finally { f }] *)
Definition try_finally {A} (m : M A) (f : M unit) : M A :=
  fun s =>
    match m s with
    | (c, s') =>
        match f s' with
        | (Returned _, s'') => (c, s'')
        | (Threw e, s'') => (Threw e, s'')
        end
    end.

(** Calling an async function gives its promise; with no other call running,
    the promise is what the function settles with. *)
Definition promise_of {A} (m : M A) : M (completion A) :=
  fun s => match m s with (c, s') => (Returned c, s') end.

(** [await p] *)
Definition await {A} (p : completion A) : M A :=
  match p with
  | Returned a => ret a
  | Threw e => throw e
  end.

(** A property read or a string conversion that may be a TypeError. *)
Definition or_TypeError {A} (o : option A) : M A :=
  match o with
  | Some a => ret a
  | None => throw TypeError
  end.

Section WithPlatform.

Variable pf : platform.

(** [localStorage.getItem(key)] *)
Definition getItem (key : string) : M (option string) :=
  fun s =>
    if window_defined pf then (Returned (localStorage s !! key), s)
    else (Threw ReferenceError, s).

(** [localStorage.setItem(key, value)]: the value is converted to a string. *)
Definition setItem (key : string) (value : JSValue) : M unit :=
  fun s =>
    if window_defined pf then
      match ToString value with
      | Some v => (Returned tt, set_localStorage (insert key v) s)
      | None => (Threw TypeError, s)
      end
    else (Threw ReferenceError, s).

(** [await fetch(rq)]: the call is recorded and settles as the transport says. *)
Definition fetch (rq : http_request) : M response :=
  fun s =>
    match network pf (length (calls s)) with
    | Responded r => (Returned r, add_call rq s)
    | Unreachable => (Threw NetworkError, add_call rq s)
    end.

(** [response.json()] *)
Definition response_json (r : response) : M JSValue :=
  match json r with
  | Some v => ret v
  | None => throw BodyError
  end.

(** api.ts, lines 25-28 *)
Definition getToken : M (option string) :=
  if window_defined pf then getItem ACCESS_KEY else ret None.

(** api.ts, lines 30-33 *)
Definition getRefreshToken : M (option string) :=
  if window_defined pf then getItem REFRESH_KEY else ret None.

(** api.ts, lines 51-73 *)
Definition doRefreshAccessToken : M JSValue :=
  let! refreshToken := getRefreshToken in
  match refreshToken with
  | None => ret JNull
  | Some refreshToken =>
      if negb (truthy (JStr refreshToken)) then ret JNull
      else
        try_catch
          (let! response := fetch (refresh_call pf refreshToken) in
           if negb (ok response) then ret JNull
           else
             let! data := response_json response in
             let! access_token := or_TypeError (get data "access_token") in
             do! setItem ACCESS_KEY access_token in
             let! refresh_token := or_TypeError (get data "refresh_token") in
             do! (if truthy refresh_token
                  then setItem REFRESH_KEY refresh_token
                  else ret tt) in
             or_TypeError (get data "access_token"))
          (fun _ => ret JNull)
  end.

(** api.ts, lines 38-49 *)
Definition refreshAccessToken : M JSValue :=
  fun s =>
    match refreshPromise s with
    | Some p => await p s
    | None =>
        (let! p := promise_of doRefreshAccessToken in
         do! (fun s' => (Returned tt, set_refreshPromise (Some p) s')) in
         try_finally (await p)
                     (fun s' => (Returned tt, set_refreshPromise None s'))) s
    end.

(** The error [request] throws for a response that is not ok: api.ts,
    lines 104-109. *)
Definition fail_with (r : response) : M JSValue :=
  let! body := try_catch (response_json r)
                 (fun _ => ret (JObj [("detail", JStr (statusText r))])) in
  let! detail := or_TypeError (get body "detail") in
  let! message := or_TypeError (ToString (or_else detail (JStr "Request failed"))) in
  throw (AdminApiError message (status r)).

(** api.ts, lines 79-102: the response [request] is left with, after the one
    refresh and retry a 401 may trigger. *)
Definition final_response (path : string) (options : RequestInit) : M response :=
  let! token := getToken in
  let headers := base_headers options in
  let headers :=
    match token with
    | Some t => if truthy (JStr t) then with_bearer t headers else headers
    | None => headers
    end in
  let! response := fetch (api_call pf path options headers) in
  if (status response =? 401)%Z && truthy (of_item token) then
    let! newToken := refreshAccessToken in
    if truthy newToken then
      let! bearer := or_TypeError (ToString newToken) in
      fetch (api_call pf path options (with_bearer bearer headers))
    else ret response
  else ret response.

(** api.ts, lines 75-112 *)
Definition request (path : string) (options : RequestInit) : M JSValue :=
  let! response := final_response path options in
  if negb (ok response) then fail_with response
  else response_json response.

(** api.ts, lines 118-170 *)
Definition adminLogin (email password : string) : M JSValue :=
  let! res := fetch (login_call pf email password) in
  if negb (ok res) then
    let! body := try_catch (response_json res)
                   (fun _ => ret (JObj [("detail", JStr "Login failed")])) in
    if (status res =? 401)%Z || (status res =? 400)%Z then
      throw (AdminApiError "Invalid email or password." (status res))
    else if (status res =? 403)%Z then
      throw (AdminApiError
               "This account has been disabled. Contact your administrator." 403)
    else
      let! detail := or_TypeError (get body "detail") in
      let! message :=
        or_TypeError
          (ToString (or_else detail
                       (JStr "Authentication server unavailable. Try again later."))) in
      throw (AdminApiError message (status res))
  else
    let! data := response_json res in
    let! access_token := or_TypeError (get data "access_token") in
    let! bearer := or_TypeError (ToString access_token) in
    let! verifyRes := fetch (verify_call pf bearer) in
    if negb (ok verifyRes) then
      throw (AdminApiError
               "Access denied. This account does not have admin privileges." 403)
    else ret data.

(** [JSON.stringify(v)]: [undefined] for [undefined], a string otherwise. *)
Definition stringify (v : JSValue) : JSValue :=
  match v with
  | JUndefined => JUndefined
  | _ => JStr (JSON_stringify pf v)
  end.

(** AdminAuthContext.tsx, lines 77-95 *)
Definition login (email password : string) : M unit :=
  let! data := adminLogin email password in
  let! access_token := or_TypeError (get data "access_token") in
  do! setItem ACCESS_KEY access_token in
  let! refresh_token := or_TypeError (get data "refresh_token") in
  do! setItem REFRESH_KEY refresh_token in
  let! data_user := or_TypeError (get data "user") in
  do! setItem USER_KEY (stringify data_user) in
  let! id := or_TypeError (get data_user "id") in
  let! email := or_TypeError (get data_user "email") in
  let! name := or_TypeError (get data_user "name") in
  let! is_superuser := or_TypeError (get data_user "is_superuser") in
  do! (fun s =>
         (Returned tt,
          set_user (Some {| user_id := id; user_email := email; user_name := name;
                            user_is_superuser := nullish_else is_superuser (JBool true) |})
                   s)) in
  fun s => (Returned tt, set_location "/" s).

End WithPlatform.

End Client.

(** ** The client under interleaved calls

    JavaScript runs one piece of code at a time, and an async function gives
    way only at an [await].  A state of the machine below holds every call of
    [request] and every call of [doRefreshAccessToken] made so far, each at the
    [await] where it is suspended; an event resumes one of them, which then
    runs to its next [await].  The transport is free: a pending [fetch] may
    settle at any time, with any result.  Only calls of [request] run here:
    nothing else reads or writes [localStorage] or [refreshPromise]. *)

Module Loop.

Import Client.

(** One call of [doRefreshAccessToken]; promise [p] is the [p]-th call. *)
Inductive refresh :=
| Fetching                        (* suspended at line 56, [await fetch] *)
| Reading (r : response)          (* suspended at line 64, [await response.json()] *)
| Settled (v : JSValue).          (* returned: its promise is fulfilled with [v] *)

Definition pending (r : refresh) : bool :=
  match r with
  | Settled _ => false
  | _ => true
  end.

(** Where a call of [request] is suspended. *)
Inductive point :=
| AtFetch                         (* line 90 *)
| AtOwnRefresh (p : nat)          (* line 45, in [refreshAccessToken], which started refresh [p] *)
| AtReturn (v : JSValue)          (* line 97, [refreshAccessToken] has returned [v] after its [finally] *)
| AtSharedRefresh (p : nat)       (* line 97, on the promise line 40 returned *)
| AtRetry                         (* line 100 *)
| AtErrorBody (r : response)      (* line 105 *)
| AtBody (r : response)           (* line 111 *)
| Done (c : completion JSValue).

(** A call of [request] with its local variables. *)
Record call := {
  path : string;
  options : RequestInit;
  token : option string;            (* line 79 *)
  hdrs : gmap string string;        (* lines 81-88, updated at line 99 *)
  resp : option response;           (* [response], once the first fetch has settled *)
  awaited : option nat;             (* the refresh promise [refreshAccessToken()] gave this call *)
  newToken : option JSValue;        (* line 97, once assigned *)
  at_point : point;
}.

(** Who called [fetch]. *)
Inductive origin :=
| ByRequest (i : nat)
| ByRefresh (p : nat).

Record sys := {
  storage : gmap string string;              (* localStorage *)
  slot : option nat;                         (* refreshPromise *)
  refreshes : list refresh;
  sent : list (origin * http_request);       (* calls of [fetch], oldest first *)
  running : list call;
}.

Inductive event :=
| Call (path : string) (options : RequestInit)  (* [request(path, options)] is called *)
| Settle (i : nat) (fr : fetch_result)          (* the pending fetch of call [i] settles *)
| Resume (i : nat)                              (* call [i] resumes from a promise or a body *)
| RefreshSettle (p : nat) (fr : fetch_result)   (* the fetch of refresh [p] settles *)
| RefreshResume (p : nat).                      (* refresh [p] resumes with the body read *)

Definition boot (st : gmap string string) : sys :=
  {| storage := st; slot := None; refreshes := []; sent := []; running := [] |}.

Definition move (c : call) (pt : point) : call :=
  {| path := path c; options := options c; token := token c; hdrs := hdrs c;
     resp := resp c; awaited := awaited c; newToken := newToken c; at_point := pt |}.

Definition set_call (i : nat) (c : call) (s : sys) : sys :=
  {| storage := storage s; slot := slot s; refreshes := refreshes s; sent := sent s;
     running := <[i := c]> (running s) |}.

Definition set_refresh (p : nat) (r : refresh) (st : gmap string string) (s : sys) : sys :=
  {| storage := st; slot := slot s; refreshes := <[p := r]> (refreshes s);
     sent := sent s; running := running s |}.

Definition send (o : origin) (rq : http_request) (s : sys) : sys :=
  {| storage := storage s; slot := slot s; refreshes := refreshes s;
     sent := sent s ++ [(o, rq)]; running := running s |}.

(** Lines 104 and 111: where a call goes with the response it is left with. *)
Definition finish (r : response) : point :=
  if negb (ok r) then AtErrorBody r else AtBody r.

(** Lines 105-108, once the body is read. *)
Definition error_of (r : response) : exn :=
  let body := default (JObj [("detail", JStr (statusText r))]) (json r) in
  match get body "detail" with
  | None => TypeError
  | Some detail =>
      match ToString (or_else detail (JStr "Request failed")) with
      | None => TypeError
      | Some message => AdminApiError message (status r)
      end
  end.

(** Lines 64-72, once the body of the refresh response is read: the value
    returned and the storage left. *)
Definition store_tokens (pf : platform) (r : response) (st : gmap string string)
    : JSValue * gmap string string :=
  match json r with
  | None => (JNull, st)
  | Some data =>
      match get data "access_token" with
      | None => (JNull, st)
      | Some access_token =>
          if negb (window_defined pf) then (JNull, st)
          else
            match ToString access_token with
            | None => (JNull, st)
            | Some a =>
                let st1 := <[ACCESS_KEY := a]> st in
                match get data "refresh_token" with
                | None => (JNull, st1)
                | Some refresh_token =>
                    if truthy refresh_token then
                      match ToString refresh_token with
                      | None => (JNull, st1)
                      | Some r' => (access_token, <[REFRESH_KEY := r']> st1)
                      end
                    else (access_token, st1)
                end
            end
      end
  end.

(** Lines 30-33 and 52-53: the refresh token [doRefreshAccessToken] goes on with. *)
Definition usable_refresh_token (pf : platform) (st : gmap string string) : option string :=
  if window_defined pf then
    match st !! REFRESH_KEY with
    | Some t => if truthy (JStr t) then Some t else None
    | None => None
    end
  else None.

(** Line 43: [doRefreshAccessToken()] runs to its first [await] (lines 52-60)
    and its promise is put in [refreshPromise]. *)
Definition start_refresh (pf : platform) (s : sys) : sys :=
  let p := length (refreshes s) in
  match usable_refresh_token pf (storage s) with
  | Some t =>
      {| storage := storage s; slot := Some p; refreshes := refreshes s ++ [Fetching];
         sent := sent s ++ [(ByRefresh p, refresh_call pf t)]; running := running s |}
  | None =>
      {| storage := storage s; slot := Some p; refreshes := refreshes s ++ [Settled JNull];
         sent := sent s; running := running s |}
  end.

(** Lines 96-97: the first response is in. *)
Definition after_first (pf : platform) (i : nat) (c : call) (r : response) (s : sys) : sys :=
  let c := {| path := path c; options := options c; token := token c; hdrs := hdrs c;
              resp := Some r; awaited := awaited c; newToken := newToken c;
              at_point := at_point c |} in
  if (status r =? 401)%Z && truthy (of_item (token c)) then
    match slot s with
    | Some p =>
        set_call i {| path := path c; options := options c; token := token c;
                      hdrs := hdrs c; resp := resp c; awaited := Some p;
                      newToken := newToken c; at_point := AtSharedRefresh p |} s
    | None =>
        let p := length (refreshes s) in
        set_call i {| path := path c; options := options c; token := token c;
                      hdrs := hdrs c; resp := resp c; awaited := Some p;
                      newToken := newToken c; at_point := AtOwnRefresh p |}
                 (start_refresh pf s)
    end
  else set_call i (move c (finish r)) s.

(** Lines 97-102: [newToken] is assigned. *)
Definition after_refresh (pf : platform) (i : nat) (c : call) (v : JSValue) (s : sys) : sys :=
  let c := {| path := path c; options := options c; token := token c; hdrs := hdrs c;
              resp := resp c; awaited := awaited c; newToken := Some v;
              at_point := at_point c |} in
  if truthy v then
    match ToString v with
    | None => set_call i (move c (Done (Threw TypeError))) s
    | Some bearer =>
        let h := with_bearer bearer (hdrs c) in
        send (ByRequest i) (api_call pf (path c) (options c) h)
          (set_call i {| path := path c; options := options c; token := token c;
                         hdrs := h; resp := resp c; awaited := awaited c;
                         newToken := newToken c; at_point := AtRetry |} s)
    end
  else
    match resp c with
    | Some r => set_call i (move c (finish r)) s
    | None => set_call i c s
    end.

(** One event; [None] when the event cannot happen in this state. *)
Definition step (pf : platform) (e : event) (s : sys) : option sys :=
  match e with
  | Call pth opts =>
      let tok := if window_defined pf then storage s !! ACCESS_KEY else None in
      let h := base_headers opts in
      let h := match tok with
               | Some t => if truthy (JStr t) then with_bearer t h else h
               | None => h
               end in
      let i := length (running s) in
      Some {| storage := storage s; slot := slot s; refreshes := refreshes s;
              sent := sent s ++ [(ByRequest i, api_call pf pth opts h)];
              running := running s ++
                [{| path := pth; options := opts; token := tok; hdrs := h; resp := None;
                    awaited := None; newToken := None; at_point := AtFetch |}] |}
  | Settle i fr =>
      match running s !! i with
      | Some c =>
          match at_point c, fr with
          | AtFetch, Responded r => Some (after_first pf i c r s)
          | AtRetry, Responded r =>
              Some (set_call i {| path := path c; options := options c; token := token c;
                                  hdrs := hdrs c; resp := Some r; awaited := awaited c;
                                  newToken := newToken c; at_point := finish r |} s)
          | AtFetch, Unreachable | AtRetry, Unreachable =>
              Some (set_call i (move c (Done (Threw NetworkError))) s)
          | _, _ => None
          end
      | None => None
      end
  | Resume i =>
      match running s !! i with
      | Some c =>
          match at_point c with
          | AtOwnRefresh p =>
              match refreshes s !! p with
              | Some (Settled v) =>
                  Some {| storage := storage s; slot := None; refreshes := refreshes s;
                          sent := sent s;
                          running := <[i := move c (AtReturn v)]> (running s) |}
              | _ => None
              end
          | AtReturn v => Some (after_refresh pf i c v s)
          | AtSharedRefresh p =>
              match refreshes s !! p with
              | Some (Settled v) => Some (after_refresh pf i c v s)
              | _ => None
              end
          | AtErrorBody r => Some (set_call i (move c (Done (Threw (error_of r)))) s)
          | AtBody r =>
              Some (set_call i (move c (Done (match json r with
                                              | Some b => Returned b
                                              | None => Threw BodyError
                                              end))) s)
          | AtFetch | AtRetry | Done _ => None
          end
      | None => None
      end
  | RefreshSettle p fr =>
      match refreshes s !! p with
      | Some Fetching =>
          match fr with
          | Responded r =>
              Some (set_refresh p (if negb (ok r) then Settled JNull else Reading r)
                      (storage s) s)
          | Unreachable => Some (set_refresh p (Settled JNull) (storage s) s)
          end
      | _ => None
      end
  | RefreshResume p =>
      match refreshes s !! p with
      | Some (Reading r) =>
          let '(v, st) := store_tokens pf r (storage s) in
          Some (set_refresh p (Settled v) st s)
      | _ => None
      end
  end.

(** A sequence of events, from the left. *)
Fixpoint run (pf : platform) (evs : list event) (s : sys) : option sys :=
  match evs with
  | [] => Some s
  | e :: rest =>
      match step pf e s with
      | Some s' => run pf rest s'
      | None => None
      end
  end.

(** The number of refresh operations that have not settled. *)
Definition in_flight (s : sys) : nat := length (List.filter pending (refreshes s)).

(** The number of calls the refresh algorithm made to the refresh endpoint. *)
Definition refresh_sent (s : sys) : nat :=
  length (List.filter (fun '(o, _) => match o with ByRefresh _ => true | _ => false end)
            (sent s)).

Definition awaited_by (s : sys) (i : nat) : option nat :=
  match running s !! i with
  | Some c => awaited c
  | None => None
  end.

Definition observed_by (s : sys) (i : nat) : option JSValue :=
  match running s !! i with
  | Some c => newToken c
  | None => None
  end.

(** The event that empties [refreshPromise]: the call that started a refresh
    resumes from awaiting it and runs the [finally] of line 47. *)
Definition releasing (s : sys) (e : event) : bool :=
  match e with
  | Resume i =>
      match running s !! i with
      | Some c => match at_point c with AtOwnRefresh _ => true | _ => false end
      | None => false
      end
  | _ => false
  end.

(** A sequence of events none of which empties [refreshPromise]. *)
Fixpoint run_held (pf : platform) (evs : list event) (s : sys) : option sys :=
  match evs with
  | [] => Some s
  | e :: rest =>
      if releasing s e then None
      else match step pf e s with
           | Some s' => run_held pf rest s'
           | None => None
           end
  end.

(** One call on its own, against the scripted transport: the event that
    comes next.  A fetch is pending for the call or for the refresh it
    started, never both, and it is the last one sent. *)
Definition next_event (pf : platform) (s : sys) : option event :=
  let settled := network pf (length (sent s) - 1) in
  match running s !! 0 with
  | Some c =>
      match at_point c with
      | AtFetch | AtRetry => Some (Settle 0 settled)
      | AtOwnRefresh p =>
          match refreshes s !! p with
          | Some Fetching => Some (RefreshSettle p settled)
          | Some (Reading _) => Some (RefreshResume p)
          | Some (Settled _) => Some (Resume 0)
          | None => None
          end
      | AtReturn _ | AtSharedRefresh _ | AtErrorBody _ | AtBody _ => Some (Resume 0)
      | Done _ => None
      end
  | None => None
  end.

(** At most [fuel] events of the call on its own. *)
Fixpoint drive (pf : platform) (fuel : nat) (s : sys) : sys :=
  match fuel with
  | 0 => s
  | S fuel' =>
      match next_event pf s with
      | Some e =>
          match step pf e s with
          | Some s' => drive pf fuel' s'
          | None => s
          end
      | None => s
      end
  end.

(** [request(path, options)] called with nothing else running, and run to
    its end. *)
Definition alone (pf : platform) (path : string) (options : RequestInit)
    (st : gmap string string) : sys :=
  match step pf (Call path options) (boot st) with
  | Some s => drive pf 7 s
  | None => boot st
  end.

End Loop.

(** ** What holds in every state of the machine *)

Module LoopInv.

Import Client Loop.

(** What every suspended call satisfies, given [refreshPromise] and the
    refreshes started so far. *)
Record call_ok (sl : option nat) (l : list refresh) (c : call) : Prop := {
  ok_fetch : at_point c = AtFetch -> awaited c = None /\ newToken c = None;
  ok_own : forall p, at_point c = AtOwnRefresh p -> sl = Some p /\ awaited c = Some p;
  ok_shared : forall p, at_point c = AtSharedRefresh p -> awaited c = Some p;
  ok_awaited : forall p, awaited c = Some p -> p < length l;
  ok_return : forall v, at_point c = AtReturn v ->
    exists p, awaited c = Some p /\ l !! p = Some (Settled v);
  ok_observed : forall v, newToken c = Some v ->
    exists p, awaited c = Some p /\ l !! p = Some (Settled v);
}.

Definition is_owner (c : call) : Prop := exists p, at_point c = AtOwnRefresh p.

Record inv (s : sys) : Prop := {
  inv_calls : forall i c, running s !! i = Some c -> call_ok (slot s) (refreshes s) c;
  inv_unique : forall i j ci cj,
    running s !! i = Some ci -> running s !! j = Some cj ->
    is_owner ci -> is_owner cj -> i = j;
  inv_free : slot s = None ->
    forall p r, refreshes s !! p = Some r -> pending r = false;
  inv_held : forall p, slot s = Some p ->
    p < length (refreshes s) /\
    forall q r, q ≠ p -> refreshes s !! q = Some r -> pending r = false;
}.

(** The refreshes only grow, and a settled one stays as it is. *)
Definition extends (l l' : list refresh) : Prop :=
  length l <= length l' /\
  forall p v, l !! p = Some (Settled v) -> l' !! p = Some (Settled v).

(** Where a run that does not empty [refreshPromise] stands, relative to the
    state [base] it began in with [refreshPromise] empty: nothing has been
    started yet, or one refresh has been and every call that asked since
    awaits it. *)
Definition phase (pf : platform) (base cur : sys) : Prop :=
  (slot cur = None /\ length (refreshes cur) = length (refreshes base) /\
   storage cur = storage base /\ refresh_sent cur = refresh_sent base /\
   forall i, awaited_by base i = None -> awaited_by cur i = None)
  \/
  (slot cur = Some (length (refreshes base)) /\
   length (refreshes cur) = S (length (refreshes base)) /\
   refresh_sent cur =
     refresh_sent base + match usable_refresh_token pf (storage base) with
                         | Some _ => 1
                         | None => 0
                         end /\
   forall i, awaited_by base i = None ->
     forall q, awaited_by cur i = Some q -> q = length (refreshes base)).

End LoopInv.

(** ** Concrete transports, stores and bodies *)

Module Scenario.

Import Client.

Definition dquote : string := String (Ascii.ascii_of_nat 34) EmptyString.

(** [JSON.stringify] on JSON values whose strings need no escaping. *)
Fixpoint stringify_plain (v : JSValue) : string :=
  match v with
  | JUndefined | JNull => "null"
  | JBool b => if b then "true" else "false"
  | JNum n => num_string n
  | JStr s => dquote +:+ s +:+ dquote
  | JArr items =>
      "[" +:+
      (fix elems (l : list JSValue) : string :=
         match l with
         | [] => ""
         | [x] => stringify_plain x
         | x :: rest => stringify_plain x +:+ "," +:+ elems rest
         end) items +:+ "]"
  | JObj props =>
      "{" +:+
      (fix members (l : list (string * JSValue)) : string :=
         match l with
         | [] => ""
         | [(k, x)] => dquote +:+ k +:+ dquote +:+ ":" +:+ stringify_plain x
         | (k, x) :: rest =>
             dquote +:+ k +:+ dquote +:+ ":" +:+ stringify_plain x +:+ "," +:+ members rest
         end) props +:+ "}"
  end.

(** A browser whose transport answers the fetches of a run from a script, in
    order, and cannot reach the server once the script is used up. *)
Definition scripted (script : list fetch_result) : platform :=
  {| NEXT_PUBLIC_API_URL := None;
     window_defined := true;
     JSON_stringify := stringify_plain;
     network := fun n => default Unreachable (script !! n) |}.

(** No call has been made and no refresh is running. *)
Definition idle (st : gmap string string) : state :=
  {| localStorage := st; refreshPromise := None; calls := []; user := None;
     location := None |}.

Definition signed_in : gmap string string :=
  <[ACCESS_KEY := "old-access"]> (<[REFRESH_KEY := "old-refresh"]> ∅).

Definition access_only : gmap string string := {[ ACCESS_KEY := "old-access" ]}.

Definition reply (code : Z) (text : string) (b : option JSValue) : fetch_result :=
  Responded {| status := code; statusText := text; json := b |}.

Definition zero : number := {| num_truthy := false; num_string := "0" |}.

Definition users_page : JSValue := JObj [("items", JArr []); ("total", JNum zero)].

Definition refreshed : JSValue := JObj [("access_token", JStr "new-access")].

Definition detail (s : string) : JSValue := JObj [("detail", JStr s)].

Definition session : JSValue :=
  JObj [("access_token", JStr "new-access"); ("refresh_token", JStr "new-refresh");
        ("user", JObj [("id", JStr "u1"); ("email", JStr "a@b.com"); ("name", JNull)])].

Definition two_calls : list Loop.event :=
  [Loop.Call "/v1/admin/users" no_options; Loop.Call "/v1/admin/projects" no_options].

Definition expired : fetch_result := reply 401 "Unauthorized" (Some (detail "Token expired")).

End Scenario.

(** ** Three sentences of the specification, as they are written *)

Module AsStated.

Import Client Loop.

(** The message of a failed [request] is the [detail] of the body when the
    body is valid JSON containing one, and the status text otherwise. *)
Definition error_body_fallback_as_stated : Prop :=
  forall pf path options s r s',
    final_response pf path options s = (Returned r, s') ->
    ok r = false ->
    exists message,
      request pf path options s = (Threw (AdminApiError message (status r)), s') /\
      match json r with
      | Some (JObj props) =>
          match own_prop "detail" props with
          | Some d => ToString d = Some message
          | None => message = statusText r
          end
      | _ => message = statusText r
      end.

(** The message of a failed credential check is determined by the status. *)
Definition login_status_mapping_as_stated : Prop :=
  forall pf email password s res,
    network pf (length (calls s)) = Responded res ->
    ok res = false ->
    adminLogin pf email password s =
      (Threw (AdminApiError
                (if (status res =? 401)%Z || (status res =? 400)%Z
                 then "Invalid email or password."
                 else if (status res =? 403)%Z
                 then "This account has been disabled. Contact your administrator."
                 else "Authentication server unavailable. Try again later.")
                (status res)),
       add_call (login_call pf email password) s).

(** Calls that receive a 401 with a token attached, from a state where
    [refreshPromise] is empty and before it is emptied again, cause exactly
    one call to the refresh endpoint. *)
Definition single_flight_as_stated : Prop :=
  forall pf st evs s,
    run pf evs (boot st) = Some s ->
    slot s = None ->
    forall evs' s',
      run_held pf evs' s = Some s' ->
      (exists i, awaited_by s i = None /\ is_Some (awaited_by s' i)) ->
      refresh_sent s' = refresh_sent s + 1.

End AsStated.

(** ** The endpoint wrappers of api.ts *)

Module Api.

Import Client.

(** A [URLSearchParams]: its name-value pairs, in order. *)
Fixpoint without_name (name : string) (qs : list (string * string)) : list (string * string) :=
  match qs with
  | [] => []
  | (n, v) :: rest =>
      if String.eqb n name then without_name name rest
      else (n, v) :: without_name name rest
  end.

(** [qs.set(name, value)]: the first pair of that name takes the value and
    the other pairs of that name go; with no such pair, one is appended. *)
Fixpoint qs_set (name value : string) (qs : list (string * string)) : list (string * string) :=
  match qs with
  | [] => [(name, value)]
  | (n, v) :: rest =>
      if String.eqb n name then (name, value) :: without_name name rest
      else (n, v) :: qs_set name value rest
  end.

(** [if (params.x) qs.set(name, params.x)] for an optional string. *)
Definition set_text (name : string) (x : option string) (qs : list (string * string))
    : list (string * string) :=
  match x with
  | Some v => if truthy (JStr v) then qs_set name v qs else qs
  | None => qs
  end.

(** [if (params.x !== undefined) qs.set(name, String(params.x))] for an
    optional boolean. *)
Definition set_flag (name : string) (x : option bool) (qs : list (string * string))
    : list (string * string) :=
  match x with
  | Some b => qs_set name (if b then "true" else "false") qs
  | None => qs
  end.

(** [if (params.x) qs.set(name, String(params.x))] for an optional number. *)
Definition set_count (name : string) (x : option number) (qs : list (string * string))
    : list (string * string) :=
  match x with
  | Some n => if num_truthy n then qs_set name (num_string n) qs else qs
  | None => qs
  end.

(** The parameter objects of the list endpoints; [None] is a property that
    is missing or [undefined]. *)
Record UserListParams := {
  ul_search : option string;
  ul_is_active : option bool;
  ul_is_superuser : option bool;
  ul_limit : option number;
  ul_offset : option number;
  ul_sort : option string;
  ul_order : option string;
}.

Record ProjectListParams := {
  pl_search : option string;
  pl_is_active : option bool;
  pl_limit : option number;
  pl_offset : option number;
}.

Record PricingListParams := {
  pr_search : option string;
  pr_provider : option string;
  pr_source : option string;
  pr_limit : option number;
  pr_offset : option number;
}.

Record SyncHistoryParams := {
  sh_source : option string;
  sh_limit : option number;
  sh_offset : option number;
}.

Record FailedEventsParams := {
  fe_limit : option number;
  fe_offset : option number;
  fe_project_id : option string;
}.

Record FeedbackIncidentsParams := {
  fi_status : option string;
  fi_priority : option string;
  fi_type : option string;
  fi_limit : option number;
  fi_offset : option number;
}.

Record AuditLogParams := {
  al_limit : option number;
  al_offset : option number;
}.

Record FeedbackListParams := {
  fl_status : option string;
  fl_priority : option string;
  fl_type : option string;
  fl_search : option string;
  fl_limit : option number;
  fl_offset : option number;
}.

Record AdminAuditLogParams := {
  aa_action_type : option string;
  aa_target_type : option string;
  aa_admin_id : option string;
  aa_limit : option number;
  aa_offset : option number;
}.

(** The number 20, the default [limit] of the analytics endpoints. *)
Definition twenty : number := {| num_truthy := true; num_string := "20" |}.

(** The init object [{ method }] and [{ method, body }]. *)
Definition with_method (m : string) : RequestInit :=
  {| init_method := Some m; init_headers := ∅; init_body := None |}.

Definition with_method_body (m : string) (b : option string) : RequestInit :=
  {| init_method := Some m; init_headers := ∅; init_body := b |}.

Section Wrappers.

Variable pf : platform.

(** [URLSearchParams.prototype.toString], the form encoding of the browser. *)
Variable qs_toString : list (string * string) -> string.

(** [JSON.stringify(data)] as a request body: nothing for [undefined]. *)
Definition json_body (data : JSValue) : option string :=
  match data with
  | JUndefined => None
  | _ => Some (JSON_stringify pf data)
  end.

(** lines 172-179 *)
Definition verifyAdmin : M JSValue := request pf "/v1/admin/auth/verify" no_options.

(** lines 196-198 *)
Definition getPlatformStats : M JSValue := request pf "/v1/admin/overview/stats" no_options.

(** lines 207-211 *)
Definition getPlatformTimeseries (range : option string) : M JSValue :=
  request pf ("/v1/admin/overview/timeseries?range=" +:+ default "30d" range) no_options.

(** lines 237-257 *)
Definition listUsers (params : UserListParams) : M JSValue :=
  let qs := [] in
  let qs := set_text "search" (ul_search params) qs in
  let qs := set_flag "is_active" (ul_is_active params) qs in
  let qs := set_flag "is_superuser" (ul_is_superuser params) qs in
  let qs := set_count "limit" (ul_limit params) qs in
  let qs := set_count "offset" (ul_offset params) qs in
  let qs := set_text "sort" (ul_sort params) qs in
  let qs := set_text "order" (ul_order params) qs in
  request pf ("/v1/admin/users?" +:+ qs_toString qs) no_options.

(** lines 290-292 *)
Definition getUserDetail (userId : string) : M JSValue :=
  request pf ("/v1/admin/users/" +:+ userId) no_options.

(** lines 294-308 *)
Definition updateUser (userId : string) (data : JSValue) : M JSValue :=
  request pf ("/v1/admin/users/" +:+ userId)
    (with_method_body "PATCH" (json_body data)).

(** lines 310-316 *)
Definition revokeUserSessions (userId : string) : M JSValue :=
  request pf ("/v1/admin/users/" +:+ userId +:+ "/revoke-sessions") (with_method "POST").

(** lines 318-322 *)
Definition deleteUser (userId : string) : M JSValue :=
  request pf ("/v1/admin/users/" +:+ userId) (with_method "DELETE").

(** lines 324-332 *)
Definition setAdminNotes (userId notes : string) : M JSValue :=
  request pf ("/v1/admin/users/" +:+ userId +:+ "/notes")
    (with_method_body "PUT" (json_body (JObj [("notes", JStr notes)]))).

(** lines 334-343 *)
Definition sendEmailToUser (userId subject body : string) : M JSValue :=
  request pf ("/v1/admin/users/" +:+ userId +:+ "/send-email")
    (with_method_body "POST"
       (json_body (JObj [("subject", JStr subject); ("body", JStr body)]))).

(** lines 369-382 *)
Definition listProjects (params : ProjectListParams) : M JSValue :=
  let qs := [] in
  let qs := set_text "search" (pl_search params) qs in
  let qs := set_flag "is_active" (pl_is_active params) qs in
  let qs := set_count "limit" (pl_limit params) qs in
  let qs := set_count "offset" (pl_offset params) qs in
  request pf ("/v1/admin/projects?" +:+ qs_toString qs) no_options.

(** lines 407-411 *)
Definition getProjectDetail (projectId : string) : M JSValue :=
  request pf ("/v1/admin/projects/" +:+ projectId) no_options.

(** lines 413-421 *)
Definition updateProject (projectId : string) (data : JSValue) : M JSValue :=
  request pf ("/v1/admin/projects/" +:+ projectId)
    (with_method_body "PATCH" (json_body data)).

(** lines 423-429 *)
Definition rotateProjectKey (projectId : string) : M JSValue :=
  request pf ("/v1/admin/projects/" +:+ projectId +:+ "/rotate-key") (with_method "POST").

(** lines 431-437 *)
Definition revokeProjectKey (projectId : string) : M JSValue :=
  request pf ("/v1/admin/projects/" +:+ projectId +:+ "/revoke-key") (with_method "POST").

(** lines 465-479 *)
Definition listPricingModels (params : PricingListParams) : M JSValue :=
  let qs := [] in
  let qs := set_text "search" (pr_search params) qs in
  let qs := set_text "provider" (pr_provider params) qs in
  let qs := set_text "source" (pr_source params) qs in
  let qs := set_count "limit" (pr_limit params) qs in
  let qs := set_count "offset" (pr_offset params) qs in
  request pf ("/v1/admin/pricing/models?" +:+ qs_toString qs) no_options.

(** lines 488-490 *)
Definition listPricingProviders : M JSValue :=
  request pf "/v1/admin/pricing/providers" no_options.

(** lines 492-510 *)
Definition updateModelPricing (modelId : number) (data : JSValue) : M JSValue :=
  request pf ("/v1/admin/pricing/models/" +:+ num_string modelId)
    (with_method_body "PATCH" (json_body data)).

(** lines 512-514 *)
Definition syncLitellmPricing : M JSValue :=
  request pf "/v1/admin/pricing/sync/litellm" (with_method "POST").

(** lines 516-520 *)
Definition syncOpenrouterPricing : M JSValue :=
  request pf "/v1/admin/pricing/sync/openrouter" (with_method "POST").

(** lines 549-559 *)
Definition getPricingSyncHistory (params : SyncHistoryParams) : M JSValue :=
  let qs := [] in
  let qs := set_text "source" (sh_source params) qs in
  let qs := set_count "limit" (sh_limit params) qs in
  let qs := set_count "offset" (sh_offset params) qs in
  request pf ("/v1/admin/pricing/sync-history?" +:+ qs_toString qs) no_options.

(** lines 584-586 *)
Definition getSystemHealth : M JSValue := request pf "/v1/admin/system/health" no_options.

(** lines 595-599 *)
Definition getIngestionStats (range : option string) : M JSValue :=
  request pf ("/v1/admin/system/ingestion-stats?range=" +:+ default "24h" range) no_options.

(** lines 613-620 *)
Definition getTopModels (range : option string) (limit : option number) : M JSValue :=
  request pf ("/v1/admin/analytics/top-models?range=" +:+ default "30d" range
              +:+ "&limit=" +:+ num_string (default twenty limit)) no_options.

(** lines 631-638 *)
Definition getTopSpenders (range : option string) (limit : option number) : M JSValue :=
  request pf ("/v1/admin/analytics/top-spenders?range=" +:+ default "30d" range
              +:+ "&limit=" +:+ num_string (default twenty limit)) no_options.

(** lines 647-651 *)
Definition getProviderGrowth (range : option string) : M JSValue :=
  request pf ("/v1/admin/analytics/provider-growth?range=" +:+ default "30d" range)
    no_options.

(** lines 659-661 *)
Definition getCostPerUser (range : option string) : M JSValue :=
  request pf ("/v1/admin/analytics/cost-per-user?range=" +:+ default "30d" range) no_options.

(** lines 684-694 *)
Definition getFailedEvents (params : FailedEventsParams) : M JSValue :=
  let qs := [] in
  let qs := set_count "limit" (fe_limit params) qs in
  let qs := set_count "offset" (fe_offset params) qs in
  let qs := set_text "project_id" (fe_project_id params) qs in
  request pf ("/v1/admin/incidents/events?" +:+ qs_toString qs) no_options.

(** lines 715-729 *)
Definition getFeedbackIncidents (params : FeedbackIncidentsParams) : M JSValue :=
  let qs := [] in
  let qs := set_text "status" (fi_status params) qs in
  let qs := set_text "priority" (fi_priority params) qs in
  let qs := set_text "type" (fi_type params) qs in
  let qs := set_count "limit" (fi_limit params) qs in
  let qs := set_count "offset" (fi_offset params) qs in
  request pf ("/v1/admin/incidents/feedback?" +:+ qs_toString qs) no_options.

(** lines 752-760 *)
Definition getAuditLog (params : AuditLogParams) : M JSValue :=
  let qs := [] in
  let qs := set_count "limit" (al_limit params) qs in
  let qs := set_count "offset" (al_offset params) qs in
  request pf ("/v1/admin/audit-log?" +:+ qs_toString qs) no_options.

(** lines 792-808 *)
Definition listFeedback (params : FeedbackListParams) : M JSValue :=
  let qs := [] in
  let qs := set_text "status" (fl_status params) qs in
  let qs := set_text "priority" (fl_priority params) qs in
  let qs := set_text "type" (fl_type params) qs in
  let qs := set_text "search" (fl_search params) qs in
  let qs := set_count "limit" (fl_limit params) qs in
  let qs := set_count "offset" (fl_offset params) qs in
  request pf ("/v1/admin/feedback?" +:+ qs_toString qs) no_options.

(** lines 833-837 *)
Definition getFeedbackDetail (feedbackId : string) : M JSValue :=
  request pf ("/v1/admin/feedback/" +:+ feedbackId) no_options.

(** lines 839-857 *)
Definition updateFeedback (feedbackId : string) (data : JSValue) : M JSValue :=
  request pf ("/v1/admin/feedback/" +:+ feedbackId)
    (with_method_body "PATCH" (json_body data)).

(** lines 883-897 *)
Definition getAdminAuditLog (params : AdminAuditLogParams) : M JSValue :=
  let qs := [] in
  let qs := set_text "action_type" (aa_action_type params) qs in
  let qs := set_text "target_type" (aa_target_type params) qs in
  let qs := set_text "admin_id" (aa_admin_id params) qs in
  let qs := set_count "limit" (aa_limit params) qs in
  let qs := set_count "offset" (aa_offset params) qs in
  request pf ("/v1/admin/audit-log?" +:+ qs_toString qs) no_options.

End Wrappers.

(** The pairs a query ends up with for one optional parameter: none when the
    parameter is missing, and for a string or a number also when it is falsy. *)
Definition sent_text (name : string) (x : option string) : list (string * string) :=
  match x with
  | Some v => if String.eqb v "" then [] else [(name, v)]
  | None => []
  end.

Definition sent_flag (name : string) (x : option bool) : list (string * string) :=
  match x with
  | Some true => [(name, "true")]
  | Some false => [(name, "false")]
  | None => []
  end.

Definition sent_count (name : string) (x : option number) : list (string * string) :=
  match x with
  | Some n => if num_truthy n then [(name, num_string n)] else []
  | None => []
  end.

(** A call of one of the wrappers that go through [request]. *)
Inductive wrapper_call :=
| VerifyAdmin
| GetPlatformStats
| GetPlatformTimeseries (range : option string)
| ListUsers (params : UserListParams)
| GetUserDetail (userId : string)
| UpdateUser (userId : string) (data : JSValue)
| RevokeUserSessions (userId : string)
| DeleteUser (userId : string)
| SetAdminNotes (userId notes : string)
| SendEmailToUser (userId subject body : string)
| ListProjects (params : ProjectListParams)
| GetProjectDetail (projectId : string)
| UpdateProject (projectId : string) (data : JSValue)
| RotateProjectKey (projectId : string)
| RevokeProjectKey (projectId : string)
| ListPricingModels (params : PricingListParams)
| ListPricingProviders
| UpdateModelPricing (modelId : number) (data : JSValue)
| SyncLitellmPricing
| SyncOpenrouterPricing
| GetPricingSyncHistory (params : SyncHistoryParams)
| GetSystemHealth
| GetIngestionStats (range : option string)
| GetTopModels (range : option string) (limit : option number)
| GetTopSpenders (range : option string) (limit : option number)
| GetProviderGrowth (range : option string)
| GetCostPerUser (range : option string)
| GetFailedEvents (params : FailedEventsParams)
| GetFeedbackIncidents (params : FeedbackIncidentsParams)
| GetAuditLog (params : AuditLogParams)
| ListFeedback (params : FeedbackListParams)
| GetFeedbackDetail (feedbackId : string)
| UpdateFeedback (feedbackId : string) (data : JSValue)
| GetAdminAuditLog (params : AdminAuditLogParams).

Definition invoke (pf : platform) (qs_toString : list (string * string) -> string)
    (c : wrapper_call) : M JSValue :=
  match c with
  | VerifyAdmin => verifyAdmin pf
  | GetPlatformStats => getPlatformStats pf
  | GetPlatformTimeseries range => getPlatformTimeseries pf range
  | ListUsers params => listUsers pf qs_toString params
  | GetUserDetail userId => getUserDetail pf userId
  | UpdateUser userId data => updateUser pf userId data
  | RevokeUserSessions userId => revokeUserSessions pf userId
  | DeleteUser userId => deleteUser pf userId
  | SetAdminNotes userId notes => setAdminNotes pf userId notes
  | SendEmailToUser userId subject body => sendEmailToUser pf userId subject body
  | ListProjects params => listProjects pf qs_toString params
  | GetProjectDetail projectId => getProjectDetail pf projectId
  | UpdateProject projectId data => updateProject pf projectId data
  | RotateProjectKey projectId => rotateProjectKey pf projectId
  | RevokeProjectKey projectId => revokeProjectKey pf projectId
  | ListPricingModels params => listPricingModels pf qs_toString params
  | ListPricingProviders => listPricingProviders pf
  | UpdateModelPricing modelId data => updateModelPricing pf modelId data
  | SyncLitellmPricing => syncLitellmPricing pf
  | SyncOpenrouterPricing => syncOpenrouterPricing pf
  | GetPricingSyncHistory params => getPricingSyncHistory pf qs_toString params
  | GetSystemHealth => getSystemHealth pf
  | GetIngestionStats range => getIngestionStats pf range
  | GetTopModels range limit => getTopModels pf range limit
  | GetTopSpenders range limit => getTopSpenders pf range limit
  | GetProviderGrowth range => getProviderGrowth pf range
  | GetCostPerUser range => getCostPerUser pf range
  | GetFailedEvents params => getFailedEvents pf qs_toString params
  | GetFeedbackIncidents params => getFeedbackIncidents pf qs_toString params
  | GetAuditLog params => getAuditLog pf qs_toString params
  | ListFeedback params => listFeedback pf qs_toString params
  | GetFeedbackDetail feedbackId => getFeedbackDetail pf feedbackId
  | UpdateFeedback feedbackId data => updateFeedback pf feedbackId data
  | GetAdminAuditLog params => getAdminAuditLog pf qs_toString params
  end.

End Api.

(** ** The auth provider: AdminAuthContext.tsx *)

Module Auth.

Import Client.

(** The provider: the browser it runs in and its two pieces of React state,
    [user] ([null] at first) and [isLoading] ([true] at first).  The browser
    is the state of [Client]; its [Client.user] field plays no part here. *)
Record provider := {
  browser : state;
  user : JSValue;
  isLoading : bool;
}.

Definition mounted (s : state) : provider :=
  {| browser := s; user := JNull; isLoading := true |}.

(** Programs of the provider. *)
Definition P (A : Type) : Type := provider -> completion A * provider.

(** A program of the client, run in the browser of the provider. *)
Definition lift {A} (m : M A) : P A :=
  fun w =>
    match m (browser w) with
    | (c, s) => (c, {| browser := s; user := user w; isLoading := isLoading w |})
    end.

Definition then_ {A B} (m : P A) (k : A -> P B) : P B :=
  fun w =>
    match m w with
    | (Returned a, w') => k a w'
    | (Threw e, w') => (Threw e, w')
    end.

Notation "'let?' x ':=' m 'in' k" := (then_ m (fun x => k))
  (at level 10, x name, m at level 100, k at level 200).
Notation "'do?' m 'in' k" := (then_ m (fun _ => k))
  (at level 10, m at level 100, k at level 200).

(** [try { m } catch { h }] *)
Definition catching {A} (m : P A) (h : exn -> P A) : P A :=
  fun w =>
    match m w with
    | (Returned a, w') => (Returned a, w')
    | (Threw e, w') => h e w'
    end.

(** [try { m } finally { f }] *)
Definition finally {A} (m : P A) (f : P unit) : P A :=
  fun w =>
    match m w with
    | (c, w') =>
        match f w' with
        | (Returned _, w'') => (c, w'')
        | (Threw e, w'') => (Threw e, w'')
        end
    end.

Definition setUser (u : JSValue) : P unit :=
  fun w => (Returned tt, {| browser := browser w; user := u; isLoading := isLoading w |}).

Definition setIsLoading (b : bool) : P unit :=
  fun w => (Returned tt, {| browser := browser w; user := user w; isLoading := b |}).

(** [isAuthenticated: !!user], line 110 *)
Definition isAuthenticated (w : provider) : bool := truthy (user w).

Section WithPlatform.

Variable pf : platform.

(** [localStorage.removeItem(key)] *)
Definition removeItem (key : string) : M unit :=
  fun s =>
    if window_defined pf then (Returned tt, set_localStorage (delete key) s)
    else (Threw ReferenceError, s).

(** [router.replace(target)] *)
Definition router_replace (target : string) : M unit :=
  fun s => (Returned tt, set_location target s).

(** The three [removeItem] calls of lines 53-55 and 98-100. *)
Definition clear_credentials : P unit :=
  do? lift (removeItem ACCESS_KEY) in
  do? lift (removeItem REFRESH_KEY) in
  lift (removeItem USER_KEY).

(** lines 40-59: the effect that runs once when the provider mounts.  The
    early [return] of line 45 still goes through the [finally]. *)
Definition init : P unit :=
  finally
    (catching
       (let? token := lift (getItem pf ACCESS_KEY) in
        if negb (truthy (of_item token)) then setIsLoading false
        else
          let? admin := lift (Api.verifyAdmin pf) in
          setUser admin)
       (fun _ => clear_credentials))
    (setIsLoading false).

(** lines 65-75: where the route protection effect sends the browser, if
    anywhere, when it runs with this state on this pathname. *)
Definition route_protection (w : provider) (pathname : string) : option string :=
  if isLoading w then None
  else
    let isLoginPage := String.eqb pathname "/login" in
    if negb (truthy (user w)) && negb isLoginPage then Some "/login"
    else if truthy (user w) && isLoginPage then Some "/"
    else None.

(** lines 77-95, with the whole React state *)
Definition login (email password : string) : P unit :=
  let? data := lift (adminLogin pf email password) in
  let? access_token := lift (or_TypeError (get data "access_token")) in
  do? lift (setItem pf ACCESS_KEY access_token) in
  let? refresh_token := lift (or_TypeError (get data "refresh_token")) in
  do? lift (setItem pf REFRESH_KEY refresh_token) in
  let? data_user := lift (or_TypeError (get data "user")) in
  do? lift (setItem pf USER_KEY (stringify pf data_user)) in
  let? id := lift (or_TypeError (get data_user "id")) in
  let? email := lift (or_TypeError (get data_user "email")) in
  let? name := lift (or_TypeError (get data_user "name")) in
  let? is_superuser := lift (or_TypeError (get data_user "is_superuser")) in
  do? setUser (JObj [("id", id); ("email", email); ("name", name);
                     ("is_superuser", nullish_else is_superuser (JBool true))]) in
  lift (router_replace "/").

(** lines 97-103 *)
Definition logout : P unit :=
  do? clear_credentials in
  do? setUser JNull in
  lift (router_replace "/login").

End WithPlatform.

(** [localStorage] after the three [removeItem] calls. *)
Definition cleared (m : gmap string string) : gmap string string :=
  delete USER_KEY (delete REFRESH_KEY (delete ACCESS_KEY m)).

(** What the dashboard layout shows: app/(dashboard)/layout.tsx. *)
Inductive screen :=
| LoadingScreen
| Nothing
| Shell.

Definition DashboardLayout (w : provider) : screen :=
  if isLoading w then LoadingScreen
  else if negb (isAuthenticated w) then Nothing
  else Shell.

(** The user record [Client.login] keeps, as the object [login] passes to
    [setUser]. *)
Definition as_object (u : AdminUser) : JSValue :=
  JObj [("id", user_id u); ("email", user_email u); ("name", user_name u);
        ("is_superuser", user_is_superuser u)].

End Auth.

(** ** The login form: app/login/page.tsx *)

Module LoginPage.

Import Client.

(** The page: the provider it uses and its own React state. *)
Record page := {
  app : Auth.provider;
  error : option string;
  submitting : bool;
}.

Section WithPlatform.

Variable pf : platform.

(** The [message] of the errors the JavaScript engine and the browser make. *)
Variable engine_message : exn -> string.

(** [err.message]; every [exn] is an [Error], so line 22 never falls back. *)
Definition message_of (e : exn) : string :=
  match e with
  | AdminApiError message _ => message
  | _ => engine_message e
  end.

(** lines 14-27, for the email and password typed in the form *)
Definition handleSubmit (email password : string) (p : page) : page :=
  let p := {| app := app p; error := None; submitting := submitting p |} in
  let p := {| app := app p; error := error p; submitting := true |} in
  match Auth.login pf email password (app p) with
  | (Returned _, w) => {| app := w; error := error p; submitting := false |}
  | (Threw e, w) => {| app := w; error := Some (message_of e); submitting := false |}
  end.

End WithPlatform.

End LoginPage.

(** ** The pagination bar: components/ui/shared.tsx *)

Module Shared.

(** What the pagination bar shows and what its two buttons do.  A button
    that is disabled does nothing; otherwise it calls [onPageChange] with the
    offset given here. *)
Record PaginationBar := {
  showing_from : Z;
  showing_to : Z;
  currentPage : Z;
  totalPages : Z;
  previous_disabled : bool;
  previous_offset : Z;
  next_disabled : bool;
  next_offset : Z;
}.

(** [Math.ceil(a / b)] on integers, [b] not zero. *)
Definition ceil_div (a b : Z) : Z := (- ((- a) / b))%Z.

(** [Number.MAX_SAFE_INTEGER], 2^53 - 1. *)
Definition MAX_SAFE_INTEGER : Z := 9007199254740991.

(** The numbers this model covers.  The code computes on doubles.  When
    [total], [limit] and [offset] are integers with [limit] positive, the
    other two not negative, and [total] and [offset + limit] at most
    [MAX_SAFE_INTEGER], every sum, difference and comparison of lines 305-328
    is exact, and the two quotients, of integers below 2^53, are rounded by
    less than their distance to the next integer, so that [Math.floor] and
    [Math.ceil] give the integer quotient rounded down and up.  Outside this
    range the doubles round, or divide by zero, and the model says nothing. *)
Definition safe_counts (total limit offset : Z) : bool :=
  (0 <? limit)%Z && (0 <=? offset)%Z && (0 <=? total)%Z &&
  (total <=? MAX_SAFE_INTEGER)%Z && (offset + limit <=? MAX_SAFE_INTEGER)%Z.

(** What the component returns: the [null] of line 308, or the bar. *)
Inductive rendered :=
| Hidden
| Bar (bar : PaginationBar).

(** lines 299-336, on the numbers of [safe_counts]; [None] for other
    numbers, which the model does not cover. *)
Definition Pagination (total limit offset : Z) : option rendered :=
  if negb (safe_counts total limit offset) then None
  else
    let currentPage := (offset / limit + 1)%Z in
    let totalPages := ceil_div total limit in
    if (totalPages <=? 1)%Z then Some Hidden
    else
      Some (Bar {| showing_from := (offset + 1)%Z;
                   showing_to := Z.min (offset + limit) total;
                   currentPage := currentPage;
                   totalPages := totalPages;
                   previous_disabled := (offset =? 0)%Z;
                   previous_offset := Z.max 0 (offset - limit);
                   next_disabled := (total <=? offset + limit)%Z;
                   next_offset := (offset + limit)%Z |}).

End Shared.

(** ** More about the machine of interleaved calls *)

Module LoopLife.

Import Client Loop.

(** [refreshPromise] holds a promise only while the call that started that
    refresh has not yet resumed from awaiting it. *)
Definition held_by_starter (s : sys) : Prop :=
  forall p, slot s = Some p ->
    exists i c, running s !! i = Some c /\ at_point c = AtOwnRefresh p.

(** The events that let refresh [p], started by call [i] and now in state
    [r], run to its end when its fetch settles with [fr], and then let call
    [i] resume through the [finally] of line 47. *)
Definition release_events (p i : nat) (r : refresh) (fr : fetch_result) : list event :=
  match r with
  | Fetching =>
      RefreshSettle p fr ::
        match fr with
        | Responded rr => if negb (ok rr) then [Resume i] else [RefreshResume p; Resume i]
        | Unreachable => [Resume i]
        end
  | Reading _ => [RefreshResume p; Resume i]
  | Settled _ => [Resume i]
  end.

End LoopLife.

(** ** What the calls running in the machine have sent *)

Module LoopSends.

Import Client Loop.

(** Whether two calls of [fetch] were made by the same caller. *)
Definition same_origin (a b : origin) : bool :=
  match a, b with
  | ByRequest i, ByRequest j => Nat.eqb i j
  | ByRefresh p, ByRefresh q => Nat.eqb p q
  | _, _ => false
  end.

(** The number of calls of [fetch] made so far by one call of [request], or
    by one refresh. *)
Definition sent_from (o : origin) (s : sys) : nat :=
  length (List.filter (fun x => same_origin (fst x) o) (sent s)).

(** The points of [request] before line 100, where the retry is sent. *)
Definition before_retry (pt : point) : bool :=
  match pt with
  | AtFetch | AtOwnRefresh _ | AtReturn _ | AtSharedRefresh _ => true
  | _ => false
  end.

(** What the calls of [fetch] made so far satisfy. *)
Record sends_ok (pf : platform) (s : sys) : Prop := {
  sends_request : forall i,
    match running s !! i with
    | Some c =>
        1 <= sent_from (ByRequest i) s <= 2 /\
        (before_retry (at_point c) = true -> sent_from (ByRequest i) s = 1)
    | None => sent_from (ByRequest i) s = 0
    end;
  sends_refresh : forall p,
    sent_from (ByRefresh p) s <= 1 /\
    (length (refreshes s) <= p -> sent_from (ByRefresh p) s = 0);
  sends_where : forall i rq,
    (ByRequest i, rq) ∈ sent s ->
    exists c, running s !! i = Some c /\
      url rq = API_BASE pf +:+ path c /\
      method rq = init_method (options c) /\
      body rq = init_body (options c);
}.

End LoopSends.

(** ** More concrete inputs *)

Module Inputs.

Import Client Scenario.

(** [URLSearchParams.prototype.toString] on names and values that need no
    escaping. *)
Fixpoint plain_query (qs : list (string * string)) : string :=
  match qs with
  | [] => ""
  | [(n, v)] => n +:+ "=" +:+ v
  | (n, v) :: rest => n +:+ "=" +:+ v +:+ "&" +:+ plain_query rest
  end.

Definition profile : JSValue :=
  JObj [("id", JStr "u1"); ("email", JStr "a@b.com"); ("name", JNull);
        ("is_superuser", JBool true)].

(** A login response without [user]. *)
Definition tokens_only : JSValue :=
  JObj [("access_token", JStr "new-access"); ("refresh_token", JStr "new-refresh")].

Definition fifty : number := {| num_truthy := true; num_string := "50" |}.

End Inputs.

(** * Properties of a call running on its own *)

Module ClientFacts.

Import Client.

Ltac unfold_client :=
  unfold request, final_response, fail_with, refreshAccessToken, doRefreshAccessToken,
    adminLogin, login, getToken, getRefreshToken, getItem, setItem, fetch, response_json,
    or_TypeError, promise_of, await, try_catch, try_finally, bind, ret, throw in *.

Lemma truthy_JStr s : truthy (JStr s) = true <-> s ≠ "".
Proof.
  simpl. destruct (String.eqb_spec s ""); simpl; split; intros; congruence.
Qed.

Lemma length_calls_add_call rq s : length (calls (add_call rq s)) = S (length (calls s)).
Proof. simpl. rewrite length_app. simpl. lia. Qed.

Section Facts.

Variable pf : platform.

Lemma fetch_responded rq s r :
  network pf (length (calls s)) = Responded r ->
  fetch pf rq s = (Returned r, add_call rq s).
Proof. intros H. unfold fetch. by rewrite H. Qed.

(** [doRefreshAccessToken] never throws. *)
Lemma doRefreshAccessToken_returns s :
  exists v s', doRefreshAccessToken pf s = (Returned v, s').
Proof. unfold_client. repeat case_match; simplify_eq; eauto. Qed.

(** With [refreshPromise] empty, [refreshAccessToken] is [doRefreshAccessToken]
    and leaves [refreshPromise] empty. *)
Lemma refreshAccessToken_free s :
  refreshPromise s = None ->
  refreshAccessToken pf s =
    (fst (doRefreshAccessToken pf s),
     set_refreshPromise None (snd (doRefreshAccessToken pf s))).
Proof.
  intros Hs. unfold refreshAccessToken. rewrite Hs.
  unfold bind, promise_of, try_finally, await.
  destruct (doRefreshAccessToken pf s) as [[v|e] s']; reflexivity.
Qed.

(** A refresh that succeeds: what it returns and what it leaves. *)
Lemma doRefreshAccessToken_success s rtok rr data access a :
  window_defined pf = true ->
  localStorage s !! REFRESH_KEY = Some rtok -> rtok ≠ "" ->
  network pf (length (calls s)) = Responded rr -> ok rr = true ->
  json rr = Some data ->
  get data "access_token" = Some access ->
  ToString access = Some a ->
  (forall v, get data "refresh_token" = Some v -> truthy v = true -> is_Some (ToString v)) ->
  exists s', doRefreshAccessToken pf s = (Returned access, s') /\
    localStorage s' !! ACCESS_KEY = Some a /\
    calls s' = (calls s ++ [refresh_call pf rtok])%list /\
    refreshPromise s' = refreshPromise s.
Proof.
  intros Hw Href Hrtok Hnet Hok Hdata Hat Ha Hrot.
  apply truthy_JStr in Hrtok.
  unfold doRefreshAccessToken, bind, getRefreshToken, getItem.
  rewrite Hw, Href. cbn [negb]. rewrite Hrtok. cbn [negb].
  unfold try_catch, bind. rewrite (fetch_responded _ _ _ Hnet). rewrite Hok. cbn [negb].
  unfold response_json. rewrite Hdata. unfold ret at 1. unfold or_TypeError. rewrite Hat.
  unfold ret at 1. unfold setItem at 1. rewrite Hw, Ha.
  destruct (get data "refresh_token") as [rt|] eqn:Hrt.
  2:{ destruct data; discriminate. }
  unfold ret at 1.
  destruct (truthy rt) eqn:Htr.
  - destruct (Hrot rt eq_refl Htr) as [x Hx]. unfold setItem. rewrite Hw, Hx.
    unfold ret. eexists; split; [reflexivity|]. simpl. split; [|done].
    rewrite lookup_insert_ne by done. by rewrite lookup_insert_eq.
  - unfold ret. eexists; split; [reflexivity|]. simpl. split; [|done].
    by rewrite lookup_insert_eq.
Qed.

(** [request] after a 401 on a call that carried a token: lines 96-112. *)
Lemma request_after_401 path options s tok r1 :
  window_defined pf = true ->
  localStorage s !! ACCESS_KEY = Some tok -> tok ≠ "" ->
  network pf (length (calls s)) = Responded r1 -> status r1 = 401%Z ->
  let h := with_bearer tok (base_headers options) in
  request pf path options s =
    match refreshAccessToken pf (add_call (api_call pf path options h) s) with
    | (Returned newToken, s2) =>
        if truthy newToken then
          match ToString newToken with
          | Some bearer =>
              match network pf (length (calls s2)) with
              | Responded r2 =>
                  let s3 := add_call (api_call pf path options (with_bearer bearer h)) s2 in
                  if negb (ok r2) then fail_with r2 s3 else response_json r2 s3
              | Unreachable =>
                  (Threw NetworkError,
                   add_call (api_call pf path options (with_bearer bearer h)) s2)
              end
          | None => (Threw TypeError, s2)
          end
        else fail_with r1 s2
    | (Threw e, s2) => (Threw e, s2)
    end.
Proof.
  intros Hw Hacc Htok Hnet H401 h. apply truthy_JStr in Htok.
  unfold request, final_response, bind at 1 2 3, getToken, getItem.
  rewrite Hw, Hacc. rewrite Htok. fold h.
  rewrite (fetch_responded _ _ _ Hnet). rewrite H401. cbn [of_item Z.eqb Pos.eqb andb].
  rewrite Htok. unfold bind at 1.
  destruct (refreshAccessToken pf _) as [[newToken|e] s2]; [|done].
  destruct (truthy newToken).
  - unfold bind, or_TypeError. destruct (ToString newToken) as [bearer|]; [|done].
    unfold ret at 1. unfold fetch.
    destruct (network pf (length (calls s2))) as [r2|]; [|done].
    by destruct (negb (ok r2)).
  - unfold ret at 1. unfold ok. rewrite H401. reflexivity.
Qed.

(** What [fail_with] throws; it leaves the state alone. *)
Lemma fail_with_throws r s : exists e, fail_with r s = (Threw e, s).
Proof. unfold_client. repeat case_match; simplify_eq; eauto. Qed.

Lemma fail_with_AdminApiError r s message :
  (match json r with
   | Some b => exists d, get b "detail" = Some d /\
                         if truthy d then ToString d = Some message
                         else message = "Request failed"
   | None => message = if String.eqb (statusText r) "" then "Request failed"
                       else statusText r
   end) ->
  fail_with r s = (Threw (AdminApiError message (status r)), s).
Proof.
  unfold_client. intros H.
  destruct (json r) as [b|].
  - destruct H as (d & Hd & H). rewrite Hd. unfold or_else.
    destruct (truthy d); simpl; [by rewrite H | by subst].
  - subst message. simpl. unfold or_else. simpl.
    destruct (String.eqb (statusText r) ""); simpl; reflexivity.
Qed.

(** [login] stops where [adminLogin] throws. *)
Lemma login_rethrows email password s e s' :
  adminLogin pf email password s = (Threw e, s') ->
  login pf email password s = (Threw e, s').
Proof. intros H. unfold login, bind at 1. by rewrite H. Qed.

End Facts.

End ClientFacts.

(** * The claims about one call *)

Module ClientClaims.

Import Client ClientFacts Scenario.

(** C9. Refresh and retry, the success scenario: [request("/v1/admin/users")]
    is called with an access token and a refresh token stored and no refresh
    running; the first call returns 401, the refresh endpoint returns a 2xx
    whose body has a non-empty string as [access_token] (and a [refresh_token]
    that, when present, can be stored), and the retry returns 200 with a JSON
    body.  Then the call resolves to that body, and the access token in
    [localStorage] is the refreshed one. *)
Theorem refresh_retry_success pf s tok rtok newtok r1 rr data r2 b :
  window_defined pf = true ->
  refreshPromise s = None ->
  localStorage s !! ACCESS_KEY = Some tok -> tok ≠ "" ->
  localStorage s !! REFRESH_KEY = Some rtok -> rtok ≠ "" ->
  network pf (length (calls s)) = Responded r1 -> status r1 = 401%Z ->
  network pf (S (length (calls s))) = Responded rr -> ok rr = true ->
  json rr = Some data ->
  get data "access_token" = Some (JStr newtok) -> newtok ≠ "" ->
  (forall v, get data "refresh_token" = Some v -> truthy v = true -> is_Some (ToString v)) ->
  network pf (S (S (length (calls s)))) = Responded r2 -> status r2 = 200%Z ->
  json r2 = Some b ->
  exists s',
    request pf "/v1/admin/users" no_options s = (Returned b, s') /\
    localStorage s' !! ACCESS_KEY = Some newtok.
Proof.
  intros Hw Hslot Hacc Htok Href Hrtok H1 H401 H2 Hok Hdata Hat Hnew Hrot H3 H200 Hb.
  rewrite (request_after_401 pf _ _ s tok r1) by done.
  set (s1 := add_call _ s).
  rewrite (refreshAccessToken_free pf s1) by done.
  destruct (doRefreshAccessToken_success pf s1 rtok rr data (JStr newtok) newtok)
    as (s2 & Hrun & Hstore & Hcalls & _); try done.
  { subst s1. by rewrite length_calls_add_call. }
  rewrite Hrun. cbn [fst snd ToString].
  apply truthy_JStr in Hnew. rewrite Hnew.
  replace (length (calls (set_refreshPromise None s2))) with (S (S (length (calls s)))).
  2:{ cbn [set_refreshPromise calls]. rewrite Hcalls, length_app.
      subst s1. rewrite length_calls_add_call. simpl. lia. }
  rewrite H3. unfold ok. rewrite H200. cbn [Z.leb Z.compare Pos.compare Pos.compare_cont andb negb].
  unfold response_json. rewrite Hb. eexists. split; [reflexivity|]. exact Hstore.
Qed.

Lemma refresh_retry_success_witness :
  exists s',
    request (scripted [reply 401 "Unauthorized" (Some (detail "Token expired"));
                       reply 200 "OK" (Some refreshed);
                       reply 200 "OK" (Some users_page)])
      "/v1/admin/users" no_options (idle signed_in) = (Returned users_page, s') /\
    localStorage s' !! ACCESS_KEY = Some "new-access".
Proof.
  eapply (refresh_retry_success _ (idle signed_in) "old-access" "old-refresh" "new-access"
            {| status := 401; statusText := "Unauthorized";
               json := Some (detail "Token expired") |}
            {| status := 200; statusText := "OK"; json := Some refreshed |}
            refreshed
            {| status := 200; statusText := "OK"; json := Some users_page |});
    try reflexivity; try discriminate.
  intros v Hv. vm_compute in Hv. injection Hv as <-. discriminate.
Defined.

(** [doRefreshAccessToken] and [request] only add to [localStorage]. *)
Lemma doRefreshAccessToken_keeps_keys pf s :
  dom (localStorage s) ⊆ dom (localStorage (snd (doRefreshAccessToken pf s))).
Proof.
  unfold_client. repeat case_match; simplify_eq; cbn [snd set_localStorage localStorage add_call];
    rewrite ?dom_insert_L; set_solver.
Qed.

Lemma refreshAccessToken_keeps_keys pf s :
  dom (localStorage s) ⊆ dom (localStorage (snd (refreshAccessToken pf s))).
Proof.
  destruct (refreshPromise s) as [p|] eqn:Hp.
  - unfold refreshAccessToken. rewrite Hp. by destruct p.
  - rewrite refreshAccessToken_free by done. cbn [snd set_refreshPromise localStorage].
    apply doRefreshAccessToken_keeps_keys.
Qed.

Lemma request_keeps_keys pf path options s :
  dom (localStorage s) ⊆ dom (localStorage (snd (request pf path options s))).
Proof.
  unfold request, final_response, bind at 1 2 3.
  destruct (getToken pf s) as [[token|e] s0] eqn:Hget.
  2:{ unfold getToken, getItem in Hget. repeat case_match; simplify_eq. }
  assert (s0 = s) as ->.
  { unfold getToken, getItem, ret in Hget. repeat case_match; simplify_eq; done. }
  set (h := match token with Some t => _ | None => _ end).
  unfold fetch at 1.
  destruct (network pf (length (calls s))) as [r1|]; [|done].
  destruct ((status r1 =? 401)%Z && truthy (of_item token)).
  - unfold bind at 1.
    pose proof (refreshAccessToken_keeps_keys pf (add_call (api_call pf path options h) s))
      as Hk.
    destruct (refreshAccessToken pf _) as [[newToken|e] s2]; [|exact Hk].
    cbn [snd] in Hk. cbn [add_call localStorage] in Hk.
    destruct (truthy newToken).
    + unfold bind, or_TypeError. destruct (ToString newToken) as [bearer|]; [|exact Hk].
      unfold ret at 1. unfold fetch.
      destruct (network pf (length (calls s2))) as [r2|]; [|exact Hk].
      destruct (negb (ok r2)).
      * destruct (fail_with_throws r2
                    (add_call (api_call pf path options (with_bearer bearer h)) s2))
          as [e ->]. exact Hk.
      * unfold response_json, ret, throw. by destruct (json r2).
    + unfold ret at 1. destruct (negb (ok r1)).
      * destruct (fail_with_throws r1 s2) as [e ->]. exact Hk.
      * unfold response_json, ret, throw. by destruct (json r1).
  - unfold ret at 1. destruct (negb (ok r1)).
    + by destruct (fail_with_throws r1 (add_call (api_call pf path options h) s)) as [e ->].
    + unfold response_json, ret, throw. by destruct (json r1).
Qed.

(** What a refresh writes: nothing, or the access token of the response of
    the refresh endpoint, or that and its refresh token; it removes nothing. *)
Lemma refreshAccessToken_writes pf s :
  let st := localStorage s in
  let st' := localStorage (snd (refreshAccessToken pf s)) in
  st' = st \/
  exists rr data a ta,
    network pf (length (calls s)) = Responded rr /\ ok rr = true /\
    json rr = Some data /\
    get data "access_token" = Some a /\ ToString a = Some ta /\
    (st' = <[ACCESS_KEY := ta]> st \/
     exists r tr,
       get data "refresh_token" = Some r /\ truthy r = true /\ ToString r = Some tr /\
       st' = <[REFRESH_KEY := tr]> (<[ACCESS_KEY := ta]> st)).
Proof.
  cbv zeta. destruct (refreshPromise s) as [p|] eqn:Hp.
  { left. unfold refreshAccessToken. rewrite Hp. by destruct p. }
  rewrite refreshAccessToken_free by done. cbn [snd set_refreshPromise localStorage].
  unfold_client.
  repeat case_match; simplify_eq; cbn [snd localStorage set_localStorage add_call];
    try (by left).
  all: repeat match goal with H : negb _ = false |- _ => apply negb_false_iff in H end.
  all: right; do 4 eexists; repeat (split; [eassumption || reflexivity|]).
  all: first [ by left
             | right; do 2 eexists; repeat (split; [eassumption|]); reflexivity ].
Qed.

(** [request] writes nothing itself: [localStorage] is afterwards as its
    refresh left it, when it ran one, and as it was before otherwise. *)
Lemma request_store pf path options s :
  let token := if window_defined pf then localStorage s !! ACCESS_KEY else None in
  let h := match token with
           | Some t => if truthy (JStr t) then with_bearer t (base_headers options)
                       else base_headers options
           | None => base_headers options
           end in
  localStorage (snd (request pf path options s)) =
    match network pf (length (calls s)) with
    | Responded first =>
        if (status first =? 401)%Z && truthy (of_item token) then
          localStorage (snd (refreshAccessToken pf (add_call (api_call pf path options h) s)))
        else localStorage s
    | Unreachable => localStorage s
    end.
Proof.
  intros token h. unfold request, final_response, bind at 1 2 3.
  assert (getToken pf s = (Returned token, s)) as ->.
  { unfold getToken, getItem, ret. subst token. by destruct (window_defined pf). }
  fold h. unfold fetch at 1.
  destruct (network pf (length (calls s))) as [r1|]; [|done].
  destruct ((status r1 =? 401)%Z && truthy (of_item token)).
  - unfold bind at 1.
    destruct (refreshAccessToken pf (add_call (api_call pf path options h) s))
      as [[newToken|e] s2]; [|done].
    cbn [snd]. destruct (truthy newToken).
    + unfold bind, or_TypeError. destruct (ToString newToken) as [bearer|]; [|done].
      unfold ret at 1. unfold fetch.
      destruct (network pf (length (calls s2))) as [r2|]; [|done].
      destruct (negb (ok r2)).
      * by destruct (fail_with_throws r2
                       (add_call (api_call pf path options (with_bearer bearer h)) s2))
          as [e ->].
      * unfold response_json, ret, throw. by destruct (json r2).
    + unfold ret at 1. destruct (negb (ok r1)).
      * by destruct (fail_with_throws r1 s2) as [e ->].
      * unfold response_json, ret, throw. by destruct (json r1).
  - unfold ret at 1. destruct (negb (ok r1)).
    + by destruct (fail_with_throws r1 (add_call (api_call pf path options h) s)) as [e ->].
    + unfold response_json, ret, throw. by destruct (json r1).
Qed.

(** C10. No rollback: a [request] that carried a token receives a 401, its
    refresh gives a new token (truthy, and written to [localStorage]), and the
    retry comes back with a status that is not a success.  Then the call
    throws, and [localStorage] is as the refresh left it: it holds the new
    access token; and so it is however the retry ends, also when the server
    cannot be reached.  On every path of [request], [localStorage] is
    afterwards exactly as the refresh left it, when one ran, and exactly as it
    was before otherwise; and a refresh only writes the tokens of the
    response of the refresh endpoint.  So no key is removed and no value
    written back. *)
Theorem no_rollback pf path options s tok r1 newToken s2 bearer r2 :
  window_defined pf = true ->
  localStorage s !! ACCESS_KEY = Some tok -> tok ≠ "" ->
  network pf (length (calls s)) = Responded r1 -> status r1 = 401%Z ->
  refreshAccessToken pf
    (add_call (api_call pf path options (with_bearer tok (base_headers options))) s)
    = (Returned newToken, s2) ->
  truthy newToken = true -> ToString newToken = Some bearer ->
  localStorage s2 !! ACCESS_KEY = Some bearer ->
  network pf (length (calls s2)) = Responded r2 -> ok r2 = false ->
  (exists e s',
     request pf path options s = (Threw e, s') /\
     localStorage s' = localStorage s2 /\
     localStorage s' !! ACCESS_KEY = Some bearer) /\
  (forall path' options' s0,
     dom (localStorage s0) ⊆ dom (localStorage (snd (request pf path' options' s0)))) /\
  (forall path' options' s0,
     let token := if window_defined pf then localStorage s0 !! ACCESS_KEY else None in
     let h := match token with
              | Some t => if truthy (JStr t) then with_bearer t (base_headers options')
                          else base_headers options'
              | None => base_headers options'
              end in
     localStorage (snd (request pf path' options' s0)) =
       match network pf (length (calls s0)) with
       | Responded first =>
           if (status first =? 401)%Z && truthy (of_item token) then
             localStorage
               (snd (refreshAccessToken pf (add_call (api_call pf path' options' h) s0)))
           else localStorage s0
       | Unreachable => localStorage s0
       end) /\
  (forall s0,
     let st := localStorage s0 in
     let st' := localStorage (snd (refreshAccessToken pf s0)) in
     st' = st \/
     exists rr data a ta,
       network pf (length (calls s0)) = Responded rr /\ ok rr = true /\
       json rr = Some data /\
       get data "access_token" = Some a /\ ToString a = Some ta /\
       (st' = <[ACCESS_KEY := ta]> st \/
        exists r tr,
          get data "refresh_token" = Some r /\ truthy r = true /\ ToString r = Some tr /\
          st' = <[REFRESH_KEY := tr]> (<[ACCESS_KEY := ta]> st))).
Proof.
  intros Hw Hacc Htok H1 H401 Href Htruthy Hstr Hstored H2 Hfail.
  split; [|split; [apply request_keeps_keys|split;
                   [intros; apply request_store | intros; apply refreshAccessToken_writes]]].
  rewrite (request_after_401 pf _ _ s tok r1) by done.
  rewrite Href, Htruthy, Hstr, H2, Hfail. cbn [negb].
  destruct (fail_with_throws r2
              (add_call (api_call pf path options
                           (with_bearer bearer (with_bearer tok (base_headers options)))) s2))
    as [e He].
  rewrite He. by exists e, (add_call
    (api_call pf path options (with_bearer bearer (with_bearer tok (base_headers options)))) s2).
Qed.

Lemma no_rollback_witness :
  let pf := scripted [reply 401 "Unauthorized" (Some (detail "Token expired"));
                      reply 200 "OK" (Some refreshed);
                      reply 403 "Forbidden" (Some (detail "Not allowed"))] in
  (exists e s',
     request pf "/v1/admin/users" no_options (idle signed_in) = (Threw e, s') /\
     localStorage s' =
       localStorage (snd (refreshAccessToken pf
         (add_call (api_call pf "/v1/admin/users" no_options
                      (with_bearer "old-access" (base_headers no_options)))
                   (idle signed_in)))) /\
     localStorage s' !! ACCESS_KEY = Some "new-access") /\
  (forall path' options' s0,
     dom (localStorage s0) ⊆ dom (localStorage (snd (request pf path' options' s0)))) /\
  (forall path' options' s0,
     let token := if window_defined pf then localStorage s0 !! ACCESS_KEY else None in
     let h := match token with
              | Some t => if truthy (JStr t) then with_bearer t (base_headers options')
                          else base_headers options'
              | None => base_headers options'
              end in
     localStorage (snd (request pf path' options' s0)) =
       match network pf (length (calls s0)) with
       | Responded first =>
           if (status first =? 401)%Z && truthy (of_item token) then
             localStorage
               (snd (refreshAccessToken pf (add_call (api_call pf path' options' h) s0)))
           else localStorage s0
       | Unreachable => localStorage s0
       end) /\
  (forall s0,
     let st := localStorage s0 in
     let st' := localStorage (snd (refreshAccessToken pf s0)) in
     st' = st \/
     exists rr data a ta,
       network pf (length (calls s0)) = Responded rr /\ ok rr = true /\
       json rr = Some data /\
       get data "access_token" = Some a /\ ToString a = Some ta /\
       (st' = <[ACCESS_KEY := ta]> st \/
        exists r tr,
          get data "refresh_token" = Some r /\ truthy r = true /\ ToString r = Some tr /\
          st' = <[REFRESH_KEY := tr]> (<[ACCESS_KEY := ta]> st))).
Proof.
  intros pf.
  apply (no_rollback pf "/v1/admin/users" no_options (idle signed_in) "old-access"
           {| status := 401; statusText := "Unauthorized";
              json := Some (detail "Token expired") |}
           (JStr "new-access")
           (snd (refreshAccessToken pf
              (add_call (api_call pf "/v1/admin/users" no_options
                           (with_bearer "old-access" (base_headers no_options)))
                        (idle signed_in))))
           "new-access"
           {| status := 403; statusText := "Forbidden";
              json := Some (detail "Not allowed") |});
    try reflexivity; try discriminate.
Defined.

(** [adminLogin] once the credential check has returned a 2xx: lines 155-169. *)
Lemma adminLogin_checked pf email password s res :
  network pf (length (calls s)) = Responded res -> ok res = true ->
  adminLogin pf email password s =
    let s1 := add_call (login_call pf email password) s in
    match json res with
    | None => (Threw BodyError, s1)
    | Some data =>
        match get data "access_token" with
        | None => (Threw TypeError, s1)
        | Some access =>
            match ToString access with
            | None => (Threw TypeError, s1)
            | Some b =>
                match network pf (S (length (calls s))) with
                | Responded vr =>
                    if negb (ok vr) then
                      (Threw (AdminApiError
                                "Access denied. This account does not have admin privileges."
                                403),
                       add_call (verify_call pf b) s1)
                    else (Returned data, add_call (verify_call pf b) s1)
                | Unreachable => (Threw NetworkError, add_call (verify_call pf b) s1)
                end
            end
        end
    end.
Proof.
  intros Hres Hok. unfold adminLogin, bind at 1.
  rewrite (fetch_responded pf _ _ _ Hres), Hok. cbn [negb].
  unfold bind, response_json, or_TypeError, ret, throw.
  destruct (json res) as [data|]; [|done].
  destruct (get data "access_token") as [access|]; [|done].
  destruct (ToString access) as [b|]; [|done].
  unfold fetch. rewrite length_calls_add_call.
  destruct (network pf (S (length (calls s)))) as [vr|]; [|done].
  by destruct (negb (ok vr)).
Qed.

(** C6. Login privilege gate: the credential check returns a 2xx whose body
    is JSON with an access token that has a string, and the verify endpoint,
    called with that token, returns a status that is not a 2xx.  Then
    [adminLogin], and [login] with it, throws [AdminApiError] with status 403
    and the access-denied message, which is not the invalid-credentials
    message, after exactly the two calls, and [localStorage] is untouched. *)
Theorem login_privilege_gate pf email password s res data access bearer vr :
  network pf (length (calls s)) = Responded res -> ok res = true ->
  json res = Some data ->
  get data "access_token" = Some access -> ToString access = Some bearer ->
  network pf (S (length (calls s))) = Responded vr -> ok vr = false ->
  let denied := "Access denied. This account does not have admin privileges." in
  let s' := add_call (verify_call pf bearer) (add_call (login_call pf email password) s) in
  adminLogin pf email password s = (Threw (AdminApiError denied 403), s') /\
  login pf email password s = (Threw (AdminApiError denied 403), s') /\
  calls s' = (calls s ++ [login_call pf email password; verify_call pf bearer])%list /\
  localStorage s' = localStorage s /\
  denied ≠ "Invalid email or password.".
Proof.
  intros Hres Hok Hjson Hget Hstr Hvr Hnot denied s'.
  assert (adminLogin pf email password s = (Threw (AdminApiError denied 403), s')) as Hrun.
  { rewrite (adminLogin_checked pf email password s res) by done. cbv zeta.
    by rewrite Hjson, Hget, Hstr, Hvr, Hnot. }
  split; [exact Hrun|]. split; [by apply login_rethrows|].
  split; [subst s'; cbn [add_call calls]; by rewrite <- app_assoc|].
  split; [reflexivity|]. discriminate.
Qed.

Lemma login_privilege_gate_witness :
  let pf := scripted [reply 200 "OK" (Some session);
                      reply 403 "Forbidden" (Some (detail "Superuser required"))] in
  let denied := "Access denied. This account does not have admin privileges." in
  let s' := add_call (verify_call pf "new-access")
              (add_call (login_call pf "a@b.com" "x") (idle ∅)) in
  adminLogin pf "a@b.com" "x" (idle ∅) = (Threw (AdminApiError denied 403), s') /\
  login pf "a@b.com" "x" (idle ∅) = (Threw (AdminApiError denied 403), s') /\
  calls s' =
    (calls (idle ∅) ++ [login_call pf "a@b.com" "x"; verify_call pf "new-access"])%list /\
  localStorage s' = localStorage (idle ∅) /\
  denied ≠ "Invalid email or password.".
Proof.
  intros pf.
  apply (login_privilege_gate pf "a@b.com" "x" (idle ∅)
           {| status := 200; statusText := "OK"; json := Some session |}
           session (JStr "new-access") "new-access"
           {| status := 403; statusText := "Forbidden";
              json := Some (detail "Superuser required") |});
    reflexivity.
Defined.

(** C7, as amended.  Login status mapping: when the credential check returns a
    status that is not a 2xx, [adminLogin], and [login] with it, throws
    [AdminApiError] with that status; the message is the invalid-credentials
    message for 401 and 400 and the account-disabled message for 403; for any
    other status, provided the parsed body is not [null] and a truthy [detail]
    converts to a string, it is the [detail] of the body when the body is JSON
    with a truthy [detail], the text [Login failed] when the body is not valid
    JSON, and the server-unavailable message when the body is JSON whose
    [detail] is missing or falsy. *)
Theorem login_status_mapping pf email password s res :
  network pf (length (calls s)) = Responded res -> ok res = false ->
  let s' := add_call (login_call pf email password) s in
  let thrown (message : string) (code : Z) :=
    adminLogin pf email password s = (Threw (AdminApiError message code), s') /\
    login pf email password s = (Threw (AdminApiError message code), s') in
  (status res = 401%Z \/ status res = 400%Z ->
   thrown "Invalid email or password." (status res)) /\
  (status res = 403%Z ->
   thrown "This account has been disabled. Contact your administrator." 403%Z) /\
  (status res ≠ 401%Z -> status res ≠ 400%Z -> status res ≠ 403%Z ->
   forall message,
     match json res with
     | Some b =>
         exists d, get b "detail" = Some d /\
           if truthy d then ToString d = Some message
           else message = "Authentication server unavailable. Try again later."
     | None => message = "Login failed"
     end ->
     thrown message (status res)).
Proof.
  intros Hres Hok s' thrown.
  assert (forall message code,
            adminLogin pf email password s = (Threw (AdminApiError message code), s') ->
            thrown message code) as Hboth.
  { intros message code H. split; [exact H | by apply login_rethrows]. }
  split; [|split].
  - intros Hcode. apply Hboth. unfold adminLogin, bind at 1.
    rewrite (fetch_responded pf _ _ _ Hres), Hok. cbn [negb].
    unfold bind, try_catch, response_json, ret, throw.
    destruct Hcode as [-> | ->]; by destruct (json res).
  - intros Hcode. apply Hboth. unfold adminLogin, bind at 1.
    rewrite (fetch_responded pf _ _ _ Hres), Hok. cbn [negb].
    unfold bind, try_catch, response_json, ret, throw.
    rewrite Hcode. by destruct (json res).
  - intros H401 H400 H403 message Hmsg. apply Hboth. unfold adminLogin, bind at 1.
    rewrite (fetch_responded pf _ _ _ Hres), Hok. cbn [negb].
    apply Z.eqb_neq in H401, H400, H403. rewrite H401, H400, H403. cbn [orb].
    unfold bind, try_catch, response_json, or_TypeError, ret, throw.
    destruct (json res) as [b|].
    + destruct Hmsg as (d & -> & Hd). unfold or_else.
      destruct (truthy d); [by rewrite Hd | by subst message].
    + by subst message.
Qed.

Lemma login_status_mapping_witness :
  let pf := scripted [reply 401 "Unauthorized" (Some (detail "Bad credentials"))] in
  login pf "a@b.com" "x" (idle ∅) =
    (Threw (AdminApiError "Invalid email or password." 401),
     add_call (login_call pf "a@b.com" "x") (idle ∅)).
Proof.
  intros pf.
  refine (proj2 (proj1 (login_status_mapping pf "a@b.com" "x" (idle ∅)
                          {| status := 401; statusText := "Unauthorized";
                             json := Some (detail "Bad credentials") |}
                          eq_refl eq_refl) _)).
  left. reflexivity.
Defined.

(** C7, as it is written, fails: a 500 whose body carries a [detail] is
    reported with that detail, not with the server-unavailable message. *)
Lemma login_status_mapping_counterexample : ~ AsStated.login_status_mapping_as_stated.
Proof.
  intros H.
  specialize (H (scripted [reply 500 "Internal Server Error" (Some (detail "boom"))])
                "a@b.com" "x" (idle ∅)
                {| status := 500; statusText := "Internal Server Error";
                   json := Some (detail "boom") |} eq_refl eq_refl).
  vm_compute in H. discriminate H.
Qed.

(** C8, as amended.  Error body: when the response [request] is left with has
    a status that is not a success, its parsed body is not [null] and a truthy
    [detail] converts to a string,
    the call throws [AdminApiError] with the status of that response; the
    message is the [detail] of the body, as a string, when the body is JSON
    with a truthy [detail]; it is [Request failed] when the body is JSON whose
    [detail] is missing or falsy; and when the body is not valid JSON it is
    the status text, or [Request failed] if the status text is empty.  A body
    that is not valid JSON never makes the call throw anything else. *)
Theorem error_body_fallback pf path options s r s' message :
  final_response pf path options s = (Returned r, s') ->
  ok r = false ->
  match json r with
  | Some b =>
      exists d, get b "detail" = Some d /\
        if truthy d then ToString d = Some message
        else message = "Request failed"
  | None =>
      message = if String.eqb (statusText r) "" then "Request failed" else statusText r
  end ->
  request pf path options s = (Threw (AdminApiError message (status r)), s').
Proof.
  intros Hfinal Hfail Hmsg. unfold request, bind. rewrite Hfinal, Hfail. cbn [negb].
  by apply fail_with_AdminApiError.
Qed.

Lemma error_body_fallback_witness :
  let pf := scripted [reply 502 "Bad Gateway" None] in
  request pf "/v1/admin/users" no_options (idle ∅) =
    (Threw (AdminApiError "Bad Gateway" 502),
     add_call (api_call pf "/v1/admin/users" no_options (base_headers no_options))
       (idle ∅)).
Proof.
  intros pf.
  apply (error_body_fallback pf "/v1/admin/users" no_options (idle ∅)
           {| status := 502; statusText := "Bad Gateway"; json := None |});
    reflexivity.
Defined.

(** C8, as it is written, fails: a 404 whose body is the JSON object with no
    properties is reported as [Request failed], not with the status text. *)
Lemma error_body_fallback_counterexample : ~ AsStated.error_body_fallback_as_stated.
Proof.
  intros H.
  destruct (H (scripted [reply 404 "Not Found" (Some (JObj []))])
              "/v1/admin/users" no_options (idle ∅)
              {| status := 404; statusText := "Not Found"; json := Some (JObj []) |}
              _ eq_refl eq_refl) as (message & Hrun & Hmsg).
  cbn in Hmsg. subst message. vm_compute in Hrun. discriminate Hrun.
Qed.

(** With nothing usable as a token, [request] makes its call with the caller's
    headers over the default content type and nothing else, and makes no
    other call: lines 79-93 and 96. *)
Lemma anonymous_request pf path options s :
  (window_defined pf = false \/
   localStorage s !! ACCESS_KEY = None \/ localStorage s !! ACCESS_KEY = Some "") ->
  let rq := api_call pf path options (base_headers options) in
  calls (snd (request pf path options s)) = (calls s ++ [rq])%list /\
  headers rq !! "Authorization" = init_headers options !! "Authorization" /\
  localStorage (snd (request pf path options s)) = localStorage s /\
  forall r, network pf (length (calls s)) = Responded r -> ok r = false ->
    request pf path options s = fail_with r (add_call rq s).
Proof.
  intros Hanon rq.
  assert (exists token, getToken pf s = (Returned token, s) /\ truthy (of_item token) = false)
    as (token & Hget & Hfalsy).
  { unfold getToken, getItem. destruct (window_defined pf); [|by exists None].
    destruct Hanon as [? | [-> | ->]]; [done | by exists None | by exists (Some "")]. }
  assert (request pf path options s =
            match network pf (length (calls s)) with
            | Responded r =>
                if negb (ok r) then fail_with r (add_call rq s)
                else response_json r (add_call rq s)
            | Unreachable => (Threw NetworkError, add_call rq s)
            end) as Hrun.
  { unfold request, final_response, bind at 1 2 3. rewrite Hget.
    assert (match token with
            | Some t => if truthy (JStr t) then with_bearer t (base_headers options)
                        else base_headers options
            | None => base_headers options
            end = base_headers options) as ->.
    { destruct token as [t|]; [|done]. cbn [of_item] in Hfalsy. by rewrite Hfalsy. }
    unfold fetch. fold rq. destruct (network pf (length (calls s))) as [r|]; [|done].
    rewrite Hfalsy, andb_false_r. unfold ret at 1. by destruct (negb (ok r)). }
  assert (exists c, request pf path options s = (c, add_call rq s)) as [c Hc].
  { rewrite Hrun. destruct (network pf (length (calls s))) as [r|]; [|by eexists].
    destruct (negb (ok r)).
    - destruct (fail_with_throws r (add_call rq s)) as [e ->]. by eexists.
    - unfold response_json, ret, throw. destruct (json r); by eexists. }
  split; [by rewrite Hc|]. split.
  { subst rq. cbn [headers api_call]. unfold base_headers, json_headers.
    rewrite lookup_union. rewrite lookup_singleton_ne by done.
    by destruct (init_headers options !! "Authorization"). }
  split; [by rewrite Hc|].
  intros r Hr Hfail. by rewrite Hrun, Hr, Hfail.
Qed.

(** C4. No-token passthrough: with no access token stored, no Authorization
    header is attached, and a 401 starts no refresh and is surfaced as
    [AdminApiError].  The code departs from the last part on a 401 whose body
    is the JSON value [null]: one call is made, anonymous, no refresh follows,
    but what the call throws is a TypeError, from reading [detail] of [null]
    at line 108. *)
Theorem anonymous_401_with_null_body :
  let pf := scripted [reply 401 "Unauthorized" (Some JNull)] in
  let rq := api_call pf "/v1/admin/users" no_options (base_headers no_options) in
  request pf "/v1/admin/users" no_options (idle ∅) = (Threw TypeError, add_call rq (idle ∅)) /\
  headers rq !! "Authorization" = None.
Proof. split; reflexivity. Qed.

(** A 401 on the retry ends the call: no refresh and no retry follow, and the
    call throws what lines 104-109 make of the retried response. *)
Lemma retry_401_is_final pf path options s tok r1 newToken s2 bearer r2 :
  window_defined pf = true ->
  localStorage s !! ACCESS_KEY = Some tok -> tok ≠ "" ->
  network pf (length (calls s)) = Responded r1 -> status r1 = 401%Z ->
  refreshAccessToken pf
    (add_call (api_call pf path options (with_bearer tok (base_headers options))) s)
    = (Returned newToken, s2) ->
  truthy newToken = true -> ToString newToken = Some bearer ->
  network pf (length (calls s2)) = Responded r2 -> status r2 = 401%Z ->
  let retry := api_call pf path options
                 (with_bearer bearer (with_bearer tok (base_headers options))) in
  request pf path options s = fail_with r2 (add_call retry s2) /\
  calls (snd (request pf path options s)) = (calls s2 ++ [retry])%list.
Proof.
  intros Hw Hacc Htok H1 H401 Href Htruthy Hstr H2 H401' retry.
  rewrite (request_after_401 pf _ _ s tok r1) by done.
  rewrite Href, Htruthy, Hstr, H2. fold retry.
  unfold ok. rewrite H401'. cbn [Z.leb Z.compare Pos.compare Pos.compare_cont andb negb].
  split; [done|]. by destruct (fail_with_throws r2 (add_call retry s2)) as [e ->].
Qed.

(** C2. At most one retry: a 401, a successful refresh and a 401 on the retry
    end in [AdminApiError] with status 401, with no second refresh or retry.
    The code departs from the first part when the body of the retried 401 is
    the JSON value [null]: three calls are made and no more, but what the
    call throws is a TypeError, from reading [detail] of [null] at line 108. *)
Theorem retry_401_with_null_body :
  let pf := scripted [reply 401 "Unauthorized" (Some (detail "Token expired"));
                      reply 200 "OK" (Some refreshed);
                      reply 401 "Unauthorized" (Some JNull)] in
  let final := request pf "/v1/admin/users" no_options (idle signed_in) in
  fst final = Threw TypeError /\
  url <$> calls (snd final) =
    ["http://localhost:8000/v1/admin/users"; "http://localhost:8000/v1/auth/refresh";
     "http://localhost:8000/v1/admin/users"].
Proof. split; vm_compute; reflexivity. Qed.

(** A refresh that fails resolves to [null], and [localStorage] is as it was:
    no usable refresh token, a server out of reach, a status that is not a
    2xx, a body that is not valid JSON. *)
Lemma doRefreshAccessToken_absent pf s :
  (window_defined pf = false \/ localStorage s !! REFRESH_KEY = None \/
   localStorage s !! REFRESH_KEY = Some "" \/
   network pf (length (calls s)) = Unreachable \/
   exists r, network pf (length (calls s)) = Responded r /\
             (ok r = false \/ json r = None)) ->
  exists s', doRefreshAccessToken pf s = (Returned JNull, s') /\
             localStorage s' = localStorage s.
Proof.
  intros Hcase.
  unfold doRefreshAccessToken, getRefreshToken, getItem, bind at 1, ret.
  destruct (window_defined pf) eqn:Hw; [|by eexists].
  destruct (localStorage s !! REFRESH_KEY) as [rtok|] eqn:Hr; [|by eexists].
  destruct (truthy (JStr rtok)) eqn:Ht; cbn [negb]; [|by eexists].
  destruct Hcase as [? | [? | [? | Hcase]]]; [done | done | |].
  { by simplify_eq. }
  unfold try_catch, bind at 1, fetch.
  destruct Hcase as [-> | (r & -> & Hr')]; [by eexists|].
  destruct (ok r) eqn:Hok; cbn [negb]; [|by eexists].
  destruct Hr' as [? | Hjson]; [done|].
  unfold bind, response_json. rewrite Hjson. by eexists.
Qed.

Lemma refreshAccessToken_absent pf s :
  refreshPromise s = None ->
  (window_defined pf = false \/ localStorage s !! REFRESH_KEY = None \/
   localStorage s !! REFRESH_KEY = Some "" \/
   network pf (length (calls s)) = Unreachable \/
   exists r, network pf (length (calls s)) = Responded r /\
             (ok r = false \/ json r = None)) ->
  exists s', refreshAccessToken pf s = (Returned JNull, s') /\
             localStorage s' = localStorage s.
Proof.
  intros Hslot Hcase. rewrite refreshAccessToken_free by done.
  destruct (doRefreshAccessToken_absent pf s Hcase) as (s' & -> & Hs').
  by eexists.
Qed.

Lemma refreshAccessToken_returns pf s :
  refreshPromise s = None ->
  exists v s', refreshAccessToken pf s = (Returned v, s').
Proof.
  intros Hslot. rewrite refreshAccessToken_free by done.
  destruct (doRefreshAccessToken_returns pf s) as (v & s' & ->). by eexists _, _.
Qed.

(** After a refresh that fails, [request] throws what lines 104-109 make of
    the first response, the 401, and [localStorage] is as it was. *)
Lemma failed_refresh_keeps_first_401 pf path options s tok r1 :
  window_defined pf = true ->
  refreshPromise s = None ->
  localStorage s !! ACCESS_KEY = Some tok -> tok ≠ "" ->
  network pf (length (calls s)) = Responded r1 -> status r1 = 401%Z ->
  (localStorage s !! REFRESH_KEY = None \/
   localStorage s !! REFRESH_KEY = Some "" \/
   network pf (S (length (calls s))) = Unreachable \/
   exists r, network pf (S (length (calls s))) = Responded r /\
             (ok r = false \/ json r = None)) ->
  exists s2,
    request pf path options s = fail_with r1 s2 /\
    localStorage s2 = localStorage s.
Proof.
  intros Hw Hslot Hacc Htok H1 H401 Hcase.
  rewrite (request_after_401 pf _ _ s tok r1) by done.
  set (s1 := add_call _ s).
  destruct (refreshAccessToken_absent pf s1) as (s2 & -> & Hs2); [done | |].
  { subst s1. rewrite length_calls_add_call. cbn [add_call localStorage]. tauto. }
  exists s2. by split.
Qed.

(** C3. Refresh failure degrades silently: a failed refresh resolves to
    [null], and [request] then throws the original 401 as [AdminApiError].
    The code departs from the last part when the body of the original 401 is
    the JSON value [null]: with no refresh token stored the refresh resolves
    to [null] without a call, and [request] throws a TypeError, from reading
    [detail] of [null] at line 108. *)
Theorem failed_refresh_401_with_null_body :
  let pf := scripted [reply 401 "Unauthorized" (Some JNull)] in
  let first := add_call (api_call pf "/v1/admin/users" no_options
                           (with_bearer "old-access" (base_headers no_options)))
                 (idle access_only) in
  refreshAccessToken pf first = (Returned JNull, first) /\
  request pf "/v1/admin/users" no_options (idle access_only) = (Threw TypeError, first).
Proof. split; vm_compute; reflexivity. Qed.

(** C5. Store-write condition: the refresh writes the tokens only for a 2xx
    whose body contains an access token, and leaves [localStorage] unchanged
    otherwise.  The code departs from it on a 2xx whose body is a JSON object
    with no [access_token]: line 65 stores the string [undefined] as the
    access token (line 66 guards the refresh token, nothing guards the access
    token), and the refresh resolves to [undefined]. *)
Theorem refresh_without_access_token_is_stored :
  let pf := scripted [reply 200 "OK" (Some (JObj []))] in
  let final := doRefreshAccessToken pf (idle signed_in) in
  fst final = Returned JUndefined /\
  localStorage (idle signed_in) !! ACCESS_KEY = Some "old-access" /\
  localStorage (snd final) !! ACCESS_KEY = Some "undefined".
Proof. repeat split; vm_compute; reflexivity. Qed.

End ClientClaims.

(** * Properties of interleaved calls *)

Module LoopFacts.

Import Client Loop LoopInv Scenario.

(** ** The machine and the client agree on a call that runs alone *)

Lemma fail_with_error_of r s : fail_with r s = (Threw (error_of r), s).
Proof.
  unfold fail_with, error_of, try_catch, bind, response_json, or_TypeError, ret, throw.
  destruct (json r) as [b|]; simpl.
  - destruct (get b "detail") as [d|]; [|done].
    by destruct (ToString (or_else d (JStr "Request failed"))).
  - by destruct (ToString _).
Qed.

(** The conditions a run of one call branches on. *)
Ltac stuck_term t :=
  lazymatch t with
  | network _ _ => idtac
  | window_defined _ => idtac
  | Z.eqb (status _) _ => idtac
  | ok _ => idtac
  | json _ => idtac
  | truthy _ => idtac
  | String.eqb _ _ => idtac
  | ToString _ => idtac
  | get _ _ => idtac
  | @lookup _ _ (gmap _ _) _ _ _ => idtac
  end.

Ltac split_one :=
  match goal with
  | |- context [match ?t with _ => _ end] => stuck_term t; destruct t eqn:?
  | |- context [negb ?t] => stuck_term t; destruct t eqn:?
  | |- context [andb ?t _] => stuck_term t; destruct t eqn:?
  end.

(** One call of [request] with nothing else running ends, in the machine, as
    [Client.request] says: same completion, same [localStorage], same calls
    in the same order, and [refreshPromise] empty again. *)
Lemma alone_agrees pf path options st :
  let final := request pf path options (idle st) in
  let s := alone pf path options st in
  (at_point <$> running s) = [Done (fst final)] /\
  storage s = localStorage (snd final) /\
  (snd <$> sent s) = calls (snd final) /\
  slot s = None.
Proof.
  intros final s. subst final s. unfold alone.
  unfold request, final_response, refreshAccessToken, doRefreshAccessToken,
    getToken, getRefreshToken, getItem, setItem, fetch, response_json,
    or_TypeError, promise_of, await, try_catch, try_finally, bind, ret, throw, idle.
  repeat (cbv delta [after_first after_refresh start_refresh usable_refresh_token
                       store_tokens finish move set_call set_refresh send];
          simpl; rewrite ?fail_with_error_of; split_one; simplify_eq).
  all: cbv delta [after_first after_refresh start_refresh usable_refresh_token
                       store_tokens finish move set_call set_refresh send];
    simpl; rewrite ?fail_with_error_of; simpl.
  all: try done.
Qed.

(** ** The invariant *)

Lemma extends_refl l : extends l l.
Proof. split; [lia | auto]. Qed.

Lemma extends_snoc l r : extends l (l ++ [r]).
Proof.
  split; [rewrite length_app; lia|]. intros p v H.
  rewrite lookup_app_l; [done|]. by eapply lookup_lt_Some.
Qed.

Lemma extends_insert l p r r' :
  l !! p = Some r -> pending r = true -> extends l (<[p := r']> l).
Proof.
  intros Hp Hr. split; [by rewrite length_insert|]. intros q v Hq.
  destruct (decide (p = q)) as [->|Hne].
  - rewrite Hp in Hq. by simplify_eq.
  - by rewrite list_lookup_insert_ne.
Qed.

Lemma call_ok_extends sl sl' l l' c :
  extends l l' -> (~ is_owner c \/ sl' = sl) ->
  call_ok sl l c -> call_ok sl' l' c.
Proof.
  intros [Hlen Hext] Hsl [H1 H2 H3 H4 H5 H6]. split; try done.
  - intros p Hp. destruct Hsl as [Hno | ->]; [|by apply H2].
    destruct Hno. by exists p.
  - intros p Hp. specialize (H4 p Hp). lia.
  - intros v Hv. destruct (H5 v Hv) as (p & ? & ?). exists p. auto.
  - intros v Hv. destruct (H6 v Hv) as (p & ? & ?). exists p. auto.
Qed.

Lemma inv_boot st : inv (boot st).
Proof. split; simpl; intros; try done; simplify_eq. Qed.

Lemma inv_set_call s i c c' :
  inv s -> running s !! i = Some c ->
  call_ok (slot s) (refreshes s) c' -> (is_owner c' -> is_owner c) ->
  inv (set_call i c' s).
Proof.
  intros [Hc Hu Hf Hh] Hi Hok Hown. split; cbn [set_call slot refreshes running]; try done.
  - intros j cj Hj. apply list_lookup_insert_Some in Hj as [(-> & -> & _) | [_ Hj]]; eauto.
  - intros j k cj ck Hj Hk Hoj Hok'.
    apply list_lookup_insert_Some in Hj as [(-> & -> & _) | [? Hj]];
      apply list_lookup_insert_Some in Hk as [(-> & -> & _) | [? Hk]]; try done.
    + apply (Hu j k c ck); auto.
    + apply (Hu j k cj c); auto.
    + apply (Hu j k cj ck); auto.
Qed.

Lemma inv_send s o rq : inv s -> inv (send o rq s).
Proof. intros [Hc Hu Hf Hh]. by split. Qed.

Lemma inv_set_refresh s p r0 r st :
  inv s -> refreshes s !! p = Some r0 -> pending r0 = true ->
  inv (set_refresh p r st s).
Proof.
  intros [Hc Hu Hf Hh] Hp Hr. split; cbn [set_refresh slot refreshes running]; try done.
  - intros i c Hi. eapply call_ok_extends; [by eapply extends_insert | by right | eauto].
  - intros Hs. specialize (Hf Hs p r0 Hp). congruence.
  - intros q Hs. destruct (Hh q Hs) as [Hlt Hrest]. split; [by rewrite length_insert|].
    intros q' r' Hne Hq'.
    destruct (decide (p = q')) as [->|Hpq].
    + specialize (Hrest q' r0 Hne Hp). congruence.
    + rewrite list_lookup_insert_ne in Hq' by done. eauto.
Qed.

Lemma inv_after_refresh pf s i c v :
  inv s -> running s !! i = Some c ->
  at_point c ≠ AtFetch -> ~ is_owner c ->
  (exists p, awaited c = Some p /\ refreshes s !! p = Some (Settled v)) ->
  inv (after_refresh pf i c v s).
Proof.
  intros Hinv Hi Hnf Hno Hv. pose proof (inv_calls s Hinv i c Hi) as Hok.
  unfold after_refresh. cbn [path options token hdrs resp awaited newToken at_point].
  assert (forall pt,
            pt ≠ AtFetch -> (forall p, pt ≠ AtOwnRefresh p) ->
            (forall p, pt = AtSharedRefresh p -> at_point c = AtSharedRefresh p) ->
            (forall w, pt = AtReturn w -> at_point c = AtReturn w) ->
            forall h,
            inv (set_call i {| path := path c; options := options c; token := token c;
                               hdrs := h; resp := resp c; awaited := awaited c;
                               newToken := Some v; at_point := pt |} s)) as Hset.
  { intros pt H1 H2 H3 H4 h. eapply inv_set_call; [done | done | | ].
    - split; cbn; try done.
      + intros p Hp. by destruct (H2 p).
      + intros p Hp. apply (ok_shared _ _ _ Hok). auto.
      + apply (ok_awaited _ _ _ Hok).
      + intros w Hw. apply (ok_return _ _ _ Hok). auto.
      + intros w [=<-]. done.
    - intros [p Hp]. cbn in Hp. by destruct (H2 p). }
  destruct (truthy v).
  - destruct (ToString v) as [bearer|].
    + apply inv_send. by apply Hset.
    + by apply Hset.
  - destruct (resp c) as [r|].
    + apply Hset; unfold finish; by destruct (negb (ok r)).
    + apply Hset; try done. intros p Hp. apply Hno. by exists p.
Qed.

(** Every event keeps the invariant. *)
Lemma step_inv pf e s s' : inv s -> step pf e s = Some s' -> inv s'.
Proof.
  intros Hinv Hstep. destruct e as [pth opts | i fr | i | p fr | p]; cbn [step] in Hstep.
  - (* Call *)
    simplify_eq. destruct Hinv as [Hc Hu Hf Hh]. split; cbn [slot refreshes running]; try done.
    + intros j c Hj. apply lookup_snoc_Some in Hj as [[_ Hj] | [_ <-]]; [eauto|].
      split; cbn; try done.
    + intros j k cj ck Hj Hk Hoj Hok.
      apply lookup_snoc_Some in Hj as [[_ Hj] | [_ <-]];
        apply lookup_snoc_Some in Hk as [[_ Hk] | [_ <-]];
        try (by destruct Hoj); try (by destruct Hok). eauto.
  - (* Settle *)
    destruct (running s !! i) as [c|] eqn:Hi; [|done].
    pose proof (inv_calls s Hinv i c Hi) as Hok.
    destruct (at_point c) eqn:Hat; try done; destruct fr as [r|]; simplify_eq.
    + (* the first response *)
      unfold after_first. cbn [token path options hdrs resp awaited newToken at_point].
      destruct ((status r =? 401)%Z && truthy (of_item (token c))).
      * destruct (slot s) as [p|] eqn:Hs.
        -- eapply inv_set_call; [done | done | | ].
           ++ destruct (inv_held s Hinv p Hs) as [Hlt _].
              split; cbn; try done; intros; simplify_eq; auto.
              all: destruct (ok_fetch _ _ _ Hok Hat); congruence.
           ++ intros [q Hq]. cbn in Hq. done.
        -- (* this call starts the refresh *)
           destruct Hinv as [Hc Hu Hf Hh].
           assert (forall j cj, running s !! j = Some cj -> ~ is_owner cj) as Hnone.
           { intros j cj Hj [q Hq]. destruct (ok_own _ _ _ (Hc j cj Hj) q Hq). congruence. }
           assert (slot (start_refresh pf s) = Some (length (refreshes s)) /\
                   running (start_refresh pf s) = running s /\
                   exists x, refreshes (start_refresh pf s) = refreshes s ++ [x])
             as (Hs' & Hr' & x & Hl').
           { unfold start_refresh. destruct (usable_refresh_token pf (storage s)); cbn; eauto. }
           split; cbn [set_call slot refreshes running]; rewrite ?Hs', ?Hr', ?Hl'; try done.
           ++ intros j cj Hj.
              apply list_lookup_insert_Some in Hj as [(-> & <- & _) | [_ Hj]].
              ** split; cbn; try done; intros; simplify_eq; auto.
                 --- rewrite length_app. simpl. lia.
                 --- destruct (ok_fetch _ _ _ Hok Hat); congruence.
              ** eapply call_ok_extends; [apply extends_snoc | left; eauto | eauto].
           ++ intros j k cj ck Hj Hk Hoj Hok'.
              apply list_lookup_insert_Some in Hj as [(-> & <- & _) | [? Hj]];
                apply list_lookup_insert_Some in Hk as [(-> & <- & _) | [? Hk]]; try done.
              ** by destruct (Hnone k ck Hk).
              ** by destruct (Hnone j cj Hj).
              ** by destruct (Hnone j cj Hj).
           ++ intros q [=<-]. split; [rewrite length_app; simpl; lia|].
              intros q r' Hne Hq. apply lookup_snoc_Some in Hq as [[_ Hq] | [? _]]; [|done].
              eauto.
      * eapply inv_set_call; [done | done | | ].
        -- unfold move, finish. split; cbn; try done.
           all: try (destruct (negb (ok r)); done).
           ++ apply (ok_awaited _ _ _ Hok).
           ++ apply (ok_observed _ _ _ Hok).
        -- intros [q Hq]. cbn in Hq. unfold finish in Hq. by destruct (negb (ok r)).
    + eapply inv_set_call; [done | done | | ].
      * split; cbn; try done.
        -- apply (ok_awaited _ _ _ Hok).
        -- apply (ok_observed _ _ _ Hok).
      * intros [q Hq]. done.
    + eapply inv_set_call; [done | done | | ].
      * unfold finish. split; cbn; try done.
        all: try (destruct (negb (ok r)); done).
        -- apply (ok_awaited _ _ _ Hok).
        -- apply (ok_observed _ _ _ Hok).
      * intros [q Hq]. cbn in Hq. unfold finish in Hq. by destruct (negb (ok r)).
    + eapply inv_set_call; [done | done | | ].
      * split; cbn; try done.
        -- apply (ok_awaited _ _ _ Hok).
        -- apply (ok_observed _ _ _ Hok).
      * intros [q Hq]. done.
  - (* Resume *)
    destruct (running s !! i) as [c|] eqn:Hi; [|done].
    pose proof (inv_calls s Hinv i c Hi) as Hok.
    destruct (at_point c) eqn:Hat; try done.
    + (* the owner runs its finally *)
      destruct (refreshes s !! p) as [[| |v]|] eqn:Hp; try done. simplify_eq.
      destruct (ok_own _ _ _ Hok p Hat) as [Hs Haw].
      assert (forall j cj, running s !! j = Some cj -> j ≠ i -> ~ is_owner cj) as Hothers.
      { intros j cj Hj Hne Hown. apply Hne.
        apply (inv_unique s Hinv j i cj c); [done | done | done | by exists p]. }
      split; cbn [slot refreshes running]; try done.
      * intros j cj Hj. apply list_lookup_insert_Some in Hj as [(-> & <- & _) | [? Hj]].
        -- split; cbn; try done.
           ++ apply (ok_awaited _ _ _ Hok).
           ++ intros w [=<-]. eauto.
           ++ apply (ok_observed _ _ _ Hok).
        -- eapply call_ok_extends;
             [apply extends_refl | left; eauto | apply (inv_calls s Hinv j cj Hj)].
      * intros j k cj ck Hj Hk Hoj Hok'.
        apply list_lookup_insert_Some in Hj as [(-> & <- & _) | [? Hj]].
        { by destruct Hoj. }
        by destruct (Hothers j cj Hj).
      * intros _ q r Hq. destruct (decide (q = p)) as [->|Hne]; [by simplify_eq|].
        destruct (inv_held s Hinv p Hs) as [_ Hrest]. eauto.
    + simplify_eq. apply inv_after_refresh; try done.
      * congruence.
      * intros [q Hq]. congruence.
      * apply (ok_return _ _ _ Hok). done.
    + destruct (refreshes s !! p) as [[| |v]|] eqn:Hp; try done. simplify_eq.
      apply inv_after_refresh; try done.
      * congruence.
      * intros [q Hq]. congruence.
      * exists p. split; [by apply (ok_shared _ _ _ Hok) | done].
    + simplify_eq. eapply inv_set_call; [done | done | | ].
      * split; cbn; try done.
        -- apply (ok_awaited _ _ _ Hok).
        -- apply (ok_observed _ _ _ Hok).
      * intros [q Hq]. done.
    + simplify_eq. eapply inv_set_call; [done | done | | ].
      * split; cbn; try done.
        -- apply (ok_awaited _ _ _ Hok).
        -- apply (ok_observed _ _ _ Hok).
      * intros [q Hq]. done.
  - (* RefreshSettle *)
    destruct (refreshes s !! p) as [[| |]|] eqn:Hp; try done.
    destruct fr as [r|]; simplify_eq; by eapply inv_set_refresh.
  - (* RefreshResume *)
    destruct (refreshes s !! p) as [[| |]|] eqn:Hp; try done.
    destruct (store_tokens pf r (storage s)) as [v st]. simplify_eq.
    by eapply inv_set_refresh.
Qed.

Lemma run_inv pf evs s s' : inv s -> run pf evs s = Some s' -> inv s'.
Proof.
  revert s. induction evs as [|e evs IH]; intros s Hinv Hrun; cbn [run] in Hrun.
  - by simplify_eq.
  - destruct (step pf e s) as [s1|] eqn:Hstep; [|done].
    eapply IH; [|done]. by eapply step_inv.
Qed.

Lemma run_held_run pf evs s s' : run_held pf evs s = Some s' -> run pf evs s = Some s'.
Proof.
  revert s. induction evs as [|e evs IH]; intros s Hrun; cbn [run run_held] in *; [done|].
  destruct (releasing s e); [done|].
  destruct (step pf e s) as [s1|]; [|done]. auto.
Qed.

(** At most one entry that is not settled, when all but one index are settled. *)
Lemma pending_at_most_one (l : list refresh) (p : nat) :
  (forall q r, q ≠ p -> l !! q = Some r -> pending r = false) ->
  length (List.filter pending l) <= 1.
Proof.
  revert p. induction l as [|x l IH]; intros p Hall; [simpl; lia|].
  destruct p as [|p].
  - assert (List.filter pending l = []) as Hnil.
    { clear IH. induction l as [|y l IHl]; [done|]. simpl.
      rewrite (Hall 1 y) by done. apply IHl. intros q r Hq Hr.
      destruct q as [|q]; [done|]. apply (Hall (S (S q)) r); [lia | done]. }
    simpl. rewrite Hnil. destruct (pending x); simpl; lia.
  - simpl. rewrite (Hall 0 x) by done. apply (IH p). intros q r Hq Hr.
    apply (Hall (S q) r); [lia | done].
Qed.

Lemma inv_in_flight s : inv s -> in_flight s <= 1.
Proof.
  intros Hinv. unfold in_flight. destruct (slot s) as [p|] eqn:Hs.
  - apply (pending_at_most_one _ p). apply (inv_held s Hinv p Hs).
  - apply (pending_at_most_one _ 0). intros q r _. apply (inv_free s Hinv Hs).
Qed.

Lemma refresh_sent_send_request s i rq :
  refresh_sent (send (ByRequest i) rq s) = refresh_sent s.
Proof.
  unfold refresh_sent, send. cbn [sent]. rewrite List.filter_app, length_app. simpl. lia.
Qed.

Lemma awaited_by_set_call s j c c' i :
  running s !! j = Some c ->
  awaited_by (set_call j c' s) i = if decide (i = j) then awaited c' else awaited_by s i.
Proof.
  intros Hj. unfold awaited_by, set_call. cbn [running].
  destruct (decide (i = j)) as [->|Hne].
  - rewrite list_lookup_insert_eq; [done|]. by eapply lookup_lt_Some.
  - by rewrite list_lookup_insert_ne.
Qed.

(** What one event that does not empty [refreshPromise] does to it, to the
    refreshes and to what each call awaits: nothing, or a call joins the
    refresh in [refreshPromise], or a call starts a refresh. *)
Lemma step_effect pf e s s' :
  inv s -> releasing s e = false -> step pf e s = Some s' ->
  (slot s' = slot s /\ length (refreshes s') = length (refreshes s) /\
   refresh_sent s' = refresh_sent s /\
   (forall i, awaited_by s' i = awaited_by s i) /\
   (slot s = None -> storage s' = storage s))
  \/
  (exists i p, slot s = Some p /\ slot s' = Some p /\
     length (refreshes s') = length (refreshes s) /\
     refresh_sent s' = refresh_sent s /\
     awaited_by s i = None /\ awaited_by s' i = Some p /\
     forall j, j ≠ i -> awaited_by s' j = awaited_by s j)
  \/
  (exists i, slot s = None /\ slot s' = Some (length (refreshes s)) /\
     length (refreshes s') = S (length (refreshes s)) /\
     refresh_sent s' =
       refresh_sent s + match usable_refresh_token pf (storage s) with
                        | Some _ => 1
                        | None => 0
                        end /\
     awaited_by s i = None /\ awaited_by s' i = Some (length (refreshes s)) /\
     forall j, j ≠ i -> awaited_by s' j = awaited_by s j).
Proof.
  intros Hinv Hrel Hstep.
  assert (forall j c c', running s !! j = Some c -> awaited c' = awaited c ->
            forall i, awaited_by (set_call j c' s) i = awaited_by s i) as Hsame.
  { intros j c c' Hj Heq i. rewrite (awaited_by_set_call s j c) by done.
    case_decide; [|done]. subst. unfold awaited_by. by rewrite Hj. }
  destruct e as [pth opts | i fr | i | p fr | p]; cbn [step] in Hstep.
  - simplify_eq. left. cbn [slot refreshes storage]. repeat split; try done.
    + unfold refresh_sent. cbn [sent]. rewrite List.filter_app, length_app. simpl. lia.
    + intros i. unfold awaited_by. cbn [running].
      destruct (decide (i < length (running s))) as [Hlt|Hge].
      * by rewrite lookup_app_l.
      * rewrite (lookup_ge_None_2 (running s)) by lia.
        destruct (decide (i = length (running s))) as [->|Hne].
        -- rewrite lookup_app_r by lia. by rewrite Nat.sub_diag.
        -- rewrite lookup_ge_None_2; [done|]. rewrite length_app. simpl. lia.
  - destruct (running s !! i) as [c|] eqn:Hi; [|done].
    pose proof (inv_calls s Hinv i c Hi) as Hok.
    destruct (at_point c) eqn:Hat; try done; destruct fr as [r|]; simplify_eq;
      try (left; cbn [set_call slot refreshes storage sent]; repeat split; try done;
           by apply (Hsame i c)).
    unfold after_first. cbn [token path options hdrs resp awaited newToken at_point].
    destruct (ok_fetch _ _ _ Hok Hat) as [Hnone _].
    assert (awaited_by s i = None) as Hnone' by (unfold awaited_by; by rewrite Hi).
    destruct ((status r =? 401)%Z && truthy (of_item (token c))).
    + destruct (slot s) as [p|] eqn:Hs.
      * right. left. exists i, p. cbn [set_call slot refreshes storage sent].
        repeat split; try done.
        -- rewrite (awaited_by_set_call s i c) by done. by rewrite decide_True.
        -- intros j Hne. rewrite (awaited_by_set_call s i c) by done. by rewrite decide_False.
      * right. right. exists i.
        assert (running (start_refresh pf s) = running s) as Hrun.
        { unfold start_refresh. by destruct (usable_refresh_token pf (storage s)). }
        split; [done|]. split.
        { unfold start_refresh. by destruct (usable_refresh_token pf (storage s)). }
        split.
        { unfold start_refresh. destruct (usable_refresh_token pf (storage s));
            cbn [set_call refreshes]; rewrite length_app; simpl; lia. }
        split.
        { unfold start_refresh, refresh_sent.
          destruct (usable_refresh_token pf (storage s)); cbn [set_call sent]; [|lia].
          rewrite List.filter_app, length_app. simpl. lia. }
        split; [done|]. unfold awaited_by. cbn [set_call running]. rewrite Hrun. split.
        -- rewrite list_lookup_insert_eq; [done | by eapply lookup_lt_Some].
        -- intros j Hne. by rewrite list_lookup_insert_ne.
    + left. cbn [set_call slot refreshes storage sent]. repeat split; try done.
      by apply (Hsame i c).
  - destruct (running s !! i) as [c|] eqn:Hi; [|done].
    cbn [releasing] in Hrel. rewrite Hi in Hrel.
    assert (forall v, 
      slot (after_refresh pf i c v s) = slot s /\
      refreshes (after_refresh pf i c v s) = refreshes s /\
      refresh_sent (after_refresh pf i c v s) = refresh_sent s /\
      (forall j, awaited_by (after_refresh pf i c v s) j = awaited_by s j) /\
      storage (after_refresh pf i c v s) = storage s) as Hafter.
    { intros v. unfold after_refresh.
      cbn [path options token hdrs resp awaited newToken at_point].
      destruct (truthy v); [destruct (ToString v)|destruct (resp c)];
        rewrite ?refresh_sent_send_request;
        cbn [send set_call slot refreshes storage sent]; repeat split; try done.
      all: unfold awaited_by; cbn [running send set_call]; intros j;
        (destruct (decide (j = i)) as [->|Hne];
         [rewrite list_lookup_insert_eq by (by eapply lookup_lt_Some); by rewrite Hi
         | by rewrite list_lookup_insert_ne]). }
    destruct (at_point c) eqn:Hat; try done.
    + simplify_eq. left. destruct (Hafter v) as (-> & -> & -> & ? & ->). done.
    + destruct (refreshes s !! p) as [[| |v]|] eqn:Hp; try done. simplify_eq.
      left. destruct (Hafter v) as (-> & -> & -> & ? & ->). done.
    + simplify_eq. left. cbn [set_call slot refreshes storage sent]. repeat split; try done.
      by apply (Hsame i c).
    + simplify_eq. left. cbn [set_call slot refreshes storage sent]. repeat split; try done.
      by apply (Hsame i c).
  - destruct (refreshes s !! p) as [[| |]|] eqn:Hp; try done.
    left. destruct fr as [r|]; simplify_eq; cbn [set_refresh slot refreshes storage sent];
      repeat split; try done; by rewrite ?length_insert.
  - destruct (refreshes s !! p) as [[|r|]|] eqn:Hp; try done.
    destruct (store_tokens pf r (storage s)) as [v st] eqn:Hst. simplify_eq.
    left. cbn [set_refresh slot refreshes storage sent]. repeat split; try done.
    + by rewrite length_insert.
    + intros Hs. by pose proof (inv_free s Hinv Hs p _ Hp).
Qed.

(** What a call awaits, once set, stays. *)
Lemma step_awaited pf e s s' i q :
  inv s -> step pf e s = Some s' ->
  awaited_by s i = Some q -> awaited_by s' i = Some q.
Proof.
  intros Hinv Hstep Hi. destruct (releasing s e) eqn:Hrel.
  - destruct e as [| |j| |]; try done. cbn [releasing step] in *.
    destruct (running s !! j) as [c|] eqn:Hj; [|done].
    destruct (at_point c); try done.
    destruct (refreshes s !! p) as [[| |v]|]; try done. simplify_eq.
    unfold awaited_by in *. cbn [running].
    destruct (decide (i = j)) as [->|Hne].
    + rewrite list_lookup_insert_eq by (by eapply lookup_lt_Some). by rewrite Hj in Hi.
    + by rewrite list_lookup_insert_ne.
  - destruct (step_effect pf e s s' Hinv Hrel Hstep)
      as [(_ & _ & _ & Hsame & _) | [(j & p & _ & _ & _ & _ & Hj & Hj' & Hrest)
                                   | (j & _ & _ & _ & _ & Hj & Hj' & Hrest)]].
    + by rewrite Hsame.
    + destruct (decide (i = j)) as [->|Hne]; [congruence|]. by rewrite Hrest.
    + destruct (decide (i = j)) as [->|Hne]; [congruence|]. by rewrite Hrest.
Qed.

Lemma run_awaited pf evs s s' i q :
  inv s -> run pf evs s = Some s' ->
  awaited_by s i = Some q -> awaited_by s' i = Some q.
Proof.
  revert s. induction evs as [|e evs IH]; intros s Hinv Hrun Hi; cbn [run] in Hrun.
  - by simplify_eq.
  - destruct (step pf e s) as [s1|] eqn:Hstep; [|done].
    eapply (IH s1); [by eapply step_inv | done | by eapply step_awaited].
Qed.

(** What a call has observed is what the refresh it awaited settled with. *)
Lemma inv_observed s i v :
  inv s -> observed_by s i = Some v ->
  exists p, awaited_by s i = Some p /\ refreshes s !! p = Some (Settled v).
Proof.
  intros Hinv Hv. unfold observed_by, awaited_by in *.
  destruct (running s !! i) as [c|] eqn:Hi; [|done].
  apply (ok_observed _ _ _ (inv_calls s Hinv i c Hi)). done.
Qed.

(** A call is given a refresh promise by one event only: its first fetch
    settles with a 401 and it had sent a token. *)
Lemma step_asks pf e s s' i q :
  step pf e s = Some s' ->
  awaited_by s i = None -> awaited_by s' i = Some q ->
  exists c r,
    running s !! i = Some c /\ at_point c = AtFetch /\
    e = Settle i (Responded r) /\ status r = 401%Z /\
    truthy (of_item (token c)) = true /\
    q = default (length (refreshes s)) (slot s).
Proof.
  intros Hstep Hnone Hsome.
  assert (forall j c c', running s !! j = Some c -> awaited c' = awaited c ->
            awaited_by (set_call j c' s) i = Some q -> False) as Hsame.
  { intros j c c' Hj Heq. rewrite (awaited_by_set_call s j c) by done.
    case_decide; [|congruence]. subst. unfold awaited_by in Hnone.
    rewrite Hj in Hnone. congruence. }
  destruct e as [pth opts | j fr | j | p fr | p]; cbn [step] in Hstep.
  - simplify_eq. exfalso. unfold awaited_by in *. cbn [running] in Hsome.
    destruct (running s !! i) as [c|] eqn:Hi.
    + rewrite lookup_app_l in Hsome by (by eapply lookup_lt_Some).
      rewrite Hi in Hsome. congruence.
    + apply lookup_ge_None in Hi.
      destruct (decide (i = length (running s))) as [->|Hne].
      * rewrite lookup_app_r, Nat.sub_diag in Hsome by lia. done.
      * rewrite lookup_ge_None_2 in Hsome; [done|]. rewrite length_app. simpl. lia.
  - destruct (running s !! j) as [c|] eqn:Hj; [|done].
    destruct (at_point c) eqn:Hat; try done; destruct fr as [r|]; simplify_eq;
      try (exfalso; (eapply (Hsame j c _ Hj); [|exact Hsome]; reflexivity)).
    unfold after_first in Hsome.
    cbn [token path options hdrs resp awaited newToken at_point] in Hsome.
    destruct ((status r =? 401)%Z && truthy (of_item (token c))) eqn:Hcond.
    2:{ exfalso. (eapply (Hsame j c _ Hj); [|exact Hsome]; reflexivity). }
    apply andb_true_iff in Hcond as [H401 Htok].
    assert (i = j) as ->.
    { destruct (decide (i = j)) as [|Hne]; [done|]. exfalso.
      unfold awaited_by in *. destruct (slot s); cbn [set_call running] in Hsome.
      - rewrite list_lookup_insert_ne in Hsome by done. congruence.
      - unfold start_refresh in Hsome.
        destruct (usable_refresh_token pf (storage s)); cbn [running] in Hsome;
          rewrite list_lookup_insert_ne in Hsome by done; congruence. }
    exists c, r. apply Z.eqb_eq in H401. repeat split; try done.
    unfold awaited_by in Hsome. destruct (slot s) as [p|]; cbn [set_call running] in Hsome.
    + rewrite list_lookup_insert_eq in Hsome by (by eapply lookup_lt_Some).
      simpl in *. congruence.
    + unfold start_refresh in Hsome.
      destruct (usable_refresh_token pf (storage s)); cbn [running] in Hsome;
        rewrite list_lookup_insert_eq in Hsome by (by eapply lookup_lt_Some);
        simpl in *; congruence.
  - exfalso. destruct (running s !! j) as [c|] eqn:Hj; [|done].
    assert (forall v, awaited_by (after_refresh pf j c v s) i = Some q -> False) as Hafter.
    { intros v. unfold after_refresh.
      cbn [path options token hdrs resp awaited newToken at_point].
      destruct (truthy v); [destruct (ToString v)|destruct (resp c)];
        try (intros H; eapply (Hsame j c _ Hj); [|exact H]; reflexivity). }
    destruct (at_point c) eqn:Hat; try done.
    + destruct (refreshes s !! p) as [[| |v]|]; try done. simplify_eq.
      apply (Hsame j c (move c (AtReturn v)) Hj eq_refl). exact Hsome.
    + simplify_eq. by eapply Hafter.
    + destruct (refreshes s !! p) as [[| |v]|]; try done. simplify_eq. by eapply Hafter.
    + simplify_eq. (eapply (Hsame j c _ Hj); [|exact Hsome]; reflexivity).
    + simplify_eq. (eapply (Hsame j c _ Hj); [|exact Hsome]; reflexivity).
  - exfalso. destruct (refreshes s !! p) as [[| |]|]; try done.
    destruct fr; simplify_eq; unfold awaited_by in *; cbn [set_refresh running] in Hsome;
      congruence.
  - exfalso. destruct (refreshes s !! p) as [[|r|]|]; try done.
    destruct (store_tokens pf r (storage s)). simplify_eq.
    unfold awaited_by in *. cbn [set_refresh running] in Hsome. congruence.
Qed.

Lemma step_phase pf e base cur nxt :
  inv cur -> releasing cur e = false -> step pf e cur = Some nxt ->
  phase pf base cur -> phase pf base nxt.
Proof.
  intros Hinv Hrel Hstep Hphase.
  destruct (step_effect pf e cur nxt Hinv Hrel Hstep)
    as [(Hs & Hl & Hn & Hsame & Hst)
       | [(j & p & Hs & Hs' & Hl & Hn & Hj & Hj' & Hrest)
         | (j & Hs & Hs' & Hl & Hn & Hj & Hj' & Hrest)]].
  - destruct Hphase as [(Hfree & Hlen & Hsto & Hcnt & Haw) | (Hheld & Hlen & Hcnt & Haw)].
    + left. rewrite Hs, Hl, Hn, (Hst Hfree). repeat split; try done.
      intros i Hi. rewrite Hsame. auto.
    + right. rewrite Hs, Hl, Hn. repeat split; try done.
      intros i Hi q. rewrite Hsame. by apply Haw.
  - destruct Hphase as [(Hfree & _) | (Hheld & Hlen & Hcnt & Haw)]; [congruence|].
    right. rewrite Hs', Hl, Hn. rewrite <- Hs, Hheld. repeat split; try done.
    intros i Hi q. destruct (decide (i = j)) as [->|Hne].
    + rewrite Hj'. rewrite Hs in Hheld. by intros [=<-]; simplify_eq.
    + rewrite Hrest by done. by apply Haw.
  - destruct Hphase as [(Hfree & Hlen & Hsto & Hcnt & Haw) | (Hheld & _)]; [|congruence].
    right. rewrite Hs', Hl, Hn, Hlen, Hsto, Hcnt. repeat split; try done.
    intros i Hi q. destruct (decide (i = j)) as [->|Hne].
    + rewrite Hj'. by intros [=<-].
    + rewrite Hrest by done. rewrite (Haw i Hi). done.
Qed.

Lemma run_held_phase pf evs base cur s' :
  inv cur -> phase pf base cur -> run_held pf evs cur = Some s' -> phase pf base s'.
Proof.
  revert cur. induction evs as [|e evs IH]; intros cur Hinv Hphase Hrun;
    cbn [run_held] in Hrun.
  - by simplify_eq.
  - destruct (releasing cur e) eqn:Hrel; [done|].
    destruct (step pf e cur) as [nxt|] eqn:Hstep; [|done].
    eapply (IH nxt); [by eapply step_inv | by eapply step_phase | done].
Qed.

End LoopFacts.

(** * The claim about interleaved calls *)

Module LoopClaims.

Import Client Loop LoopInv LoopFacts Scenario.

(** C1, as amended.  Single flight.  In every state the client can reach:
    - at most one refresh operation is in flight;
    - a call that receives a 401 with a token attached while [refreshPromise]
      holds a promise is given that promise: no refresh is started and nothing
      is sent;
    - if [refreshPromise] is empty, then over any further events that do not
      empty it again (the call that starts a refresh does not yet resume from
      awaiting it), all calls that receive a 401 with a token attached are
      given the same promise, at most one call to the refresh endpoint is
      made, exactly one if a non-empty refresh token is stored and none
      otherwise, and whatever happens afterwards any two of those calls that
      have resumed observed the same value. *)
Theorem single_flight pf st evs s :
  run pf evs (boot st) = Some s ->
  in_flight s <= 1 /\
  (forall i c p r,
     slot s = Some p -> running s !! i = Some c -> at_point c = AtFetch ->
     truthy (of_item (token c)) = true -> status r = 401%Z ->
     exists s', step pf (Settle i (Responded r)) s = Some s' /\
       slot s' = Some p /\ refreshes s' = refreshes s /\ sent s' = sent s /\
       awaited_by s' i = Some p) /\
  (slot s = None ->
   forall evs' s', run_held pf evs' s = Some s' ->
     let asked i := awaited_by s i = None /\ is_Some (awaited_by s' i) in
     (forall i, asked i -> awaited_by s' i = Some (length (refreshes s))) /\
     refresh_sent s' <= refresh_sent s + 1 /\
     ((exists i, asked i) ->
      refresh_sent s' =
        refresh_sent s + match usable_refresh_token pf (storage s) with
                         | Some _ => 1
                         | None => 0
                         end) /\
     (forall evs'' s'', run pf evs'' s' = Some s'' ->
        forall i j v w, asked i -> asked j ->
          observed_by s'' i = Some v -> observed_by s'' j = Some w -> v = w)).
Proof.
  intros Hrun. pose proof (run_inv pf evs _ s (inv_boot st) Hrun) as Hinv.
  split; [by apply inv_in_flight|]. split.
  - intros i c p r Hs Hi Hat Htok H401. eexists. split.
    { cbn [step]. rewrite Hi, Hat. reflexivity. }
    unfold after_first. cbn [token path options hdrs resp awaited newToken at_point].
    rewrite H401, Htok, Hs. cbn [Z.eqb Pos.eqb andb set_call slot refreshes sent].
    repeat split; try done.
    rewrite (awaited_by_set_call s i c) by done. by rewrite decide_True.
  - intros Hs evs' s' Hheld asked.
    assert (phase pf s s') as Hphase.
    { eapply (run_held_phase pf evs' s s); [done | | done]. left. by repeat split. }
    assert (forall i, asked i -> awaited_by s' i = Some (length (refreshes s))) as Hsame.
    { intros i [Hi [q Hq]]. rewrite Hq. f_equal.
      destruct Hphase as [(_ & _ & _ & _ & Haw) | (_ & _ & _ & Haw)].
      - rewrite (Haw i Hi) in Hq. done.
      - by apply (Haw i Hi). }
    split; [exact Hsame|]. split; [|split].
    + destruct Hphase as [(_ & _ & _ & -> & _) | (_ & _ & -> & _)]; [lia|].
      destruct (usable_refresh_token pf (storage s)); lia.
    + intros [i [Hi [q Hq]]].
      destruct Hphase as [(_ & _ & _ & _ & Haw) | (_ & _ & -> & _)]; [|done].
      rewrite (Haw i Hi) in Hq. done.
    + intros evs'' s'' Hrun' i j v w Hi Hj Hv Hw.
      pose proof (run_inv pf evs' s s' Hinv (run_held_run _ _ _ _ Hheld)) as Hinv'.
      pose proof (run_inv pf evs'' s' s'' Hinv' Hrun') as Hinv''.
      pose proof (run_awaited pf evs'' s' s'' i _ Hinv' Hrun' (Hsame i Hi)) as Hi'.
      pose proof (run_awaited pf evs'' s' s'' j _ Hinv' Hrun' (Hsame j Hj)) as Hj'.
      destruct (inv_observed s'' i v Hinv'' Hv) as (p & Hp & Hpv).
      destruct (inv_observed s'' j w Hinv'' Hw) as (q & Hq & Hqw).
      congruence.
Qed.

Lemma single_flight_witness :
  exists s s',
    run (scripted []) two_calls (boot signed_in) = Some s /\
    run_held (scripted []) [Settle 0 expired; Settle 1 expired] s = Some s' /\
    in_flight s <= 1 /\
    awaited_by s' 0 = Some 0 /\ awaited_by s' 1 = Some 0 /\
    refresh_sent s' = 1.
Proof.
  eexists _, _. split; [reflexivity|]. split; [reflexivity|].
  destruct (single_flight (scripted []) signed_in two_calls _ eq_refl)
    as (Hone & _ & Hburst).
  split; [exact Hone|].
  destruct (Hburst eq_refl [Settle 0 expired; Settle 1 expired] _ eq_refl)
    as (Hsame & _ & Hcount & _).
  split; [apply Hsame; split; [reflexivity | by eexists]|].
  split; [apply Hsame; split; [reflexivity | by eexists]|].
  apply Hcount. exists 0. split; [reflexivity | by eexists].
Defined.

(** C1, as it is written, fails: with no refresh token stored, two calls get
    their 401 and no call to the refresh endpoint is made. *)
Lemma single_flight_counterexample : ~ AsStated.single_flight_as_stated.
Proof.
  intros H.
  specialize (H (scripted []) access_only two_calls _ eq_refl eq_refl
                [Settle 0 expired; Settle 1 expired] _ eq_refl).
  assert (0 = 1) as Habs; [|done].
  apply H. exists 0. split; [reflexivity | by eexists].
Qed.

End LoopClaims.

(** * More about [request] on its own *)

Module RequestFacts.

Import Client ClientFacts.

(** [getToken] reads and changes nothing. *)
Lemma getToken_reads pf s :
  getToken pf s =
    (Returned (if window_defined pf then localStorage s !! ACCESS_KEY else None), s).
Proof. unfold getToken, getItem, ret. by destruct (window_defined pf). Qed.

(** What [doRefreshAccessToken] and [refreshAccessToken] send and leave. *)
Lemma doRefreshAccessToken_calls pf s :
  let s' := snd (doRefreshAccessToken pf s) in
  refreshPromise s' = refreshPromise s /\
  (calls s' = calls s \/ exists rt, calls s' = calls s ++ [refresh_call pf rt]).
Proof.
  unfold_client. repeat case_match; simplify_eq; cbn; eauto.
Qed.

Lemma refreshAccessToken_calls pf s :
  let s' := snd (refreshAccessToken pf s) in
  refreshPromise s' = refreshPromise s /\
  (calls s' = calls s \/ exists rt, calls s' = calls s ++ [refresh_call pf rt]).
Proof.
  destruct (refreshPromise s) as [p|] eqn:Hp.
  - unfold refreshAccessToken. rewrite Hp. destruct p; cbn; auto.
  - rewrite refreshAccessToken_free by done. cbn [snd set_refreshPromise refreshPromise calls].
    destruct (doRefreshAccessToken_calls pf s) as [_ Hc]. split; [done | exact Hc].
Qed.

(** [request], step by step. *)
Lemma request_unfold pf path options s :
  exists c,
    getToken pf s = (Returned c, s) /\
    let h := match c with
             | Some t => if truthy (JStr t) then with_bearer t (base_headers options)
                         else base_headers options
             | None => base_headers options
             end in
    let rq := api_call pf path options h in
    request pf path options s =
      match network pf (length (calls s)) with
      | Unreachable => (Threw NetworkError, add_call rq s)
      | Responded r1 =>
          if (status r1 =? 401)%Z && truthy (of_item c) then
            match refreshAccessToken pf (add_call rq s) with
            | (Returned newToken, s2) =>
                if truthy newToken then
                  match ToString newToken with
                  | Some bearer =>
                      let retry := api_call pf path options (with_bearer bearer h) in
                      match network pf (length (calls s2)) with
                      | Responded r2 =>
                          if negb (ok r2) then fail_with r2 (add_call retry s2)
                          else response_json r2 (add_call retry s2)
                      | Unreachable => (Threw NetworkError, add_call retry s2)
                      end
                  | None => (Threw TypeError, s2)
                  end
                else if negb (ok r1) then fail_with r1 s2 else response_json r1 s2
            | (Threw e, s2) => (Threw e, s2)
            end
          else if negb (ok r1) then fail_with r1 (add_call rq s)
               else response_json r1 (add_call rq s)
      end.
Proof.
  pose proof (getToken_reads pf s) as Hget.
  set (c := if window_defined pf then localStorage s !! ACCESS_KEY else None) in Hget.
  exists c. split; [done|]. intros h rq.
  unfold request, final_response, bind at 1 2 3. rewrite Hget. fold h. fold rq.
  unfold fetch at 1. destruct (network pf (length (calls s))) as [r1|]; [|done].
  destruct ((status r1 =? 401)%Z && truthy (of_item c)).
  2:{ unfold ret at 1. by destruct (negb (ok r1)). }
  unfold bind at 1. destruct (refreshAccessToken pf (add_call rq s)) as [[newToken|e] s2]; [|done].
  destruct (truthy newToken).
  2:{ unfold ret at 1. by destruct (negb (ok r1)). }
  unfold bind, or_TypeError. destruct (ToString newToken) as [bearer|]; [|done].
  unfold ret at 1. unfold fetch.
  destruct (network pf (length (calls s2))) as [r2|]; [|done].
  by destruct (negb (ok r2)).
Qed.

(** How the last step of [request] leaves the state. *)
Lemma last_step_state r s :
  snd (if negb (ok r) then fail_with r s else response_json r s) = s.
Proof.
  destruct (negb (ok r)).
  - by destruct (fail_with_throws r s) as [e ->].
  - unfold response_json, ret, throw. by destruct (json r).
Qed.

End RequestFacts.

Module RequestProps.

Import Client ClientFacts RequestFacts Scenario.

(** What [request] sends.  A call of [request] makes one call to its endpoint
    with the method and body it was given, then at most one call to the
    refresh endpoint, then at most one retry; the retry is the first call
    again with only the Authorization header replaced. *)
Theorem request_calls_shape pf path options s :
  exists rq mid last,
    calls (snd (request pf path options s)) = calls s ++ [rq] ++ mid ++ last /\
    url rq = API_BASE pf +:+ path /\
    method rq = init_method options /\
    body rq = init_body options /\
    (mid = [] \/ exists rt, mid = [refresh_call pf rt]) /\
    (last = [] \/
     exists bearer,
       last = [{| url := url rq; method := method rq;
                  headers := with_bearer bearer (headers rq); body := body rq |}]).
Proof.
  destruct (request_unfold pf path options s) as (c & _ & Hrun). cbv zeta in Hrun.
  set (h := match c with Some _ => _ | None => _ end) in Hrun.
  set (rq := api_call pf path options h) in Hrun.
  exists rq. rewrite Hrun. clear Hrun.
  destruct (network pf (length (calls s))) as [r1|].
  2:{ exists [], []. cbn. rewrite ?app_nil_r. auto 10. }
  destruct ((status r1 =? 401)%Z && truthy (of_item c)).
  2:{ exists [], []. rewrite last_step_state. cbn. rewrite ?app_nil_r. auto 10. }
  destruct (refreshAccessToken_calls pf (add_call rq s)) as [_ Hmid].
  destruct (refreshAccessToken pf (add_call rq s)) as [[newToken|e] s2]; cbn [snd] in Hmid.
  2:{ cbn [snd]. destruct Hmid as [-> | [rt ->]].
      - exists [], []. cbn. rewrite ?app_nil_r. auto 10.
      - exists [refresh_call pf rt], []. cbn. rewrite <- ?app_assoc. cbn. eauto 10. }
  assert (exists mid, calls s2 = calls s ++ [rq] ++ mid /\
                      (mid = [] \/ exists rt, mid = [refresh_call pf rt])) as (mid & Hs2 & Hm).
  { destruct Hmid as [-> | [rt ->]].
    - exists []. cbn. rewrite ?app_nil_r. auto.
    - exists [refresh_call pf rt]. cbn. rewrite <- ?app_assoc. cbn. eauto. }
  exists mid.
  destruct (truthy newToken).
  2:{ exists []. rewrite last_step_state, Hs2, ?app_nil_r. auto 10. }
  destruct (ToString newToken) as [bearer|].
  2:{ exists []. cbn [snd]. rewrite Hs2, ?app_nil_r. auto 10. }
  exists [api_call pf path options (with_bearer bearer h)].
  assert (calls (add_call (api_call pf path options (with_bearer bearer h)) s2) =
          calls s ++ [rq] ++ mid ++ [api_call pf path options (with_bearer bearer h)]) as Hc.
  { cbn [add_call calls]. rewrite Hs2. by rewrite <- !app_assoc. }
  destruct (network pf (length (calls s2))) as [r2|]; rewrite ?last_step_state; cbn [snd];
    rewrite Hc; (split; [done|]); repeat (split; [done|]); right; by exists bearer.
Qed.

(** [refreshPromise] on the way out.  Whatever happens in it, a call of
    [request] leaves [refreshPromise] as it found it: empty if it started the
    refresh itself, also when the refresh failed. *)
Theorem request_restores_refreshPromise pf path options s :
  refreshPromise (snd (request pf path options s)) = refreshPromise s /\
  refreshPromise (snd (refreshAccessToken pf s)) = refreshPromise s.
Proof.
  split; [|apply refreshAccessToken_calls].
  destruct (request_unfold pf path options s) as (c & _ & Hrun). cbv zeta in Hrun.
  rewrite Hrun. clear Hrun.
  destruct (network pf (length (calls s))) as [r1|]; [|done].
  destruct ((status r1 =? 401)%Z && truthy (of_item c)).
  2:{ by rewrite last_step_state. }
  match goal with |- context [refreshAccessToken pf ?x] =>
    destruct (refreshAccessToken_calls pf x) as [Hp _];
    destruct (refreshAccessToken pf x) as [[newToken|e] s2] end; cbn [snd] in Hp; [|done].
  destruct (truthy newToken); [|by rewrite last_step_state].
  destruct (ToString newToken) as [bearer|]; [|done].
  destruct (network pf (length (calls s2))) as [r2|]; rewrite ?last_step_state; done.
Qed.

(** Only a 401 starts a refresh.  If the first response is not a 401, or the
    server cannot be reached, [request] makes its one call and no other, and
    leaves [localStorage] and [refreshPromise] alone, also when a token is
    stored; an unreachable server makes it throw the network error. *)
Theorem no_refresh_without_401 pf path options s :
  (forall r, network pf (length (calls s)) = Responded r -> status r ≠ 401%Z) ->
  let final := request pf path options s in
  exists rq,
    calls (snd final) = calls s ++ [rq] /\
    url rq = API_BASE pf +:+ path /\
    localStorage (snd final) = localStorage s /\
    refreshPromise (snd final) = refreshPromise s /\
    (network pf (length (calls s)) = Unreachable -> fst final = Threw NetworkError).
Proof.
  intros Hnot final. subst final.
  destruct (request_unfold pf path options s) as (c & _ & Hrun). cbv zeta in Hrun.
  rewrite Hrun. clear Hrun. eexists.
  destruct (network pf (length (calls s))) as [r1|] eqn:H1.
  - specialize (Hnot r1 eq_refl). apply Z.eqb_neq in Hnot. rewrite Hnot. cbn [andb].
    rewrite last_step_state. cbn. repeat split; try done.
  - cbn. repeat split; done.
Qed.

Lemma no_refresh_without_401_witness :
  let pf := scripted [reply 500 "Internal Server Error" None] in
  let final := request pf "/v1/admin/users" no_options (idle signed_in) in
  exists rq,
    calls (snd final) = calls (idle signed_in) ++ [rq] /\
    url rq = API_BASE pf +:+ "/v1/admin/users" /\
    localStorage (snd final) = localStorage (idle signed_in) /\
    refreshPromise (snd final) = refreshPromise (idle signed_in) /\
    (network pf (length (calls (idle signed_in))) = Unreachable ->
     fst final = Threw NetworkError).
Proof.
  intros pf.
  apply (no_refresh_without_401 pf "/v1/admin/users" no_options (idle signed_in)).
  intros r [= <-]. discriminate.
Defined.

(** A success needs a JSON body.  When the first response is a 2xx,
    [request] returns its parsed body and makes no other call; if the body is
    empty or not JSON, as with a 204, the call throws although the status is
    a success. *)
Theorem success_needs_json_body pf path options s r :
  network pf (length (calls s)) = Responded r -> ok r = true ->
  let final := request pf path options s in
  fst final = match json r with
              | Some b => Returned b
              | None => Threw BodyError
              end /\
  length (calls (snd final)) = S (length (calls s)).
Proof.
  intros H1 Hok final. subst final.
  destruct (request_unfold pf path options s) as (c & _ & Hrun). cbv zeta in Hrun.
  rewrite Hrun, H1. clear Hrun.
  assert ((status r =? 401)%Z = false) as ->.
  { apply Z.eqb_neq. intros H401. unfold ok in Hok. rewrite H401 in Hok. done. }
  cbn [andb]. rewrite Hok. cbn [negb]. unfold response_json, ret, throw.
  destruct (json r); cbn; rewrite length_app; cbn; split; try done; lia.
Qed.

Lemma success_needs_json_body_witness :
  let pf := scripted [reply 204 "No Content" None] in
  let final := request pf "/v1/admin/users/u1"
                 {| init_method := Some "DELETE"; init_headers := ∅; init_body := None |}
                 (idle signed_in) in
  fst final = Threw BodyError /\
  length (calls (snd final)) = 1.
Proof.
  intros pf.
  apply (success_needs_json_body pf "/v1/admin/users/u1"
           {| init_method := Some "DELETE"; init_headers := ∅; init_body := None |}
           (idle signed_in)
           {| status := 204; statusText := "No Content"; json := None |});
    reflexivity.
Defined.

End RequestProps.

(** * The provider: mounting, signing in and signing out *)

Module AuthFacts.

Import Client ClientFacts RequestFacts Auth.

Lemma clear_credentials_runs pf w :
  window_defined pf = true ->
  clear_credentials pf w =
    (Returned tt,
     {| browser := set_localStorage cleared (browser w); user := user w;
        isLoading := isLoading w |}).
Proof.
  intros H. unfold clear_credentials, then_, lift, removeItem. rewrite H. reflexivity.
Qed.

Lemma cleared_lookup m k :
  cleared m !! k =
    if decide (k = ACCESS_KEY \/ k = REFRESH_KEY \/ k = USER_KEY) then None else m !! k.
Proof.
  unfold cleared. case_decide as H.
  - destruct H as [-> | [-> | ->]].
    + rewrite lookup_delete_ne by done. rewrite lookup_delete_ne by done.
      apply lookup_delete_eq.
    + rewrite lookup_delete_ne by done. apply lookup_delete_eq.
    + apply lookup_delete_eq.
  - rewrite !lookup_delete_ne by naive_solver. done.
Qed.

(** [init], case by case. *)
Lemma init_cases pf w :
  window_defined pf = true ->
  init pf w =
    if negb (truthy (of_item (localStorage (browser w) !! ACCESS_KEY))) then
      (Returned tt, {| browser := browser w; user := user w; isLoading := false |})
    else
      match Api.verifyAdmin pf (browser w) with
      | (Returned admin, s1) =>
          (Returned tt, {| browser := s1; user := admin; isLoading := false |})
      | (Threw _, s1) =>
          (Returned tt,
           {| browser := set_localStorage cleared s1; user := user w; isLoading := false |})
      end.
Proof.
  intros H. unfold init, finally, catching, then_ at 1, lift at 1, getItem. rewrite H.
  cbn [browser user isLoading].
  destruct (negb (truthy (of_item (localStorage (browser w) !! ACCESS_KEY)))); [done|].
  unfold then_, lift at 1. cbn [browser user isLoading].
  destruct (Api.verifyAdmin pf (browser w)) as [[admin|e] s1]; [done|].
  rewrite clear_credentials_runs by done. reflexivity.
Qed.

(** [adminLogin] only adds calls. *)
Lemma adminLogin_frame pf email password s :
  let s' := snd (adminLogin pf email password s) in
  localStorage s' = localStorage s /\ location s' = location s /\
  Client.user s' = Client.user s /\ refreshPromise s' = refreshPromise s.
Proof. unfold_client. repeat case_match; simplify_eq; cbn; auto. Qed.

(** When [adminLogin] has returned, [login] goes on like this. *)
Lemma login_returned pf email password w data s1 :
  window_defined pf = true ->
  adminLogin pf email password (browser w) = (Returned data, s1) ->
  login pf email password w =
    let at_ s := {| browser := s; user := user w; isLoading := isLoading w |} in
    match get data "access_token" with
    | None => (Threw TypeError, at_ s1)
    | Some a =>
        match ToString a with
        | None => (Threw TypeError, at_ s1)
        | Some ta =>
            let s2 := set_localStorage (insert ACCESS_KEY ta) s1 in
            match get data "refresh_token" with
            | None => (Threw TypeError, at_ s2)
            | Some r =>
                match ToString r with
                | None => (Threw TypeError, at_ s2)
                | Some tr =>
                    let s3 := set_localStorage (insert REFRESH_KEY tr) s2 in
                    match get data "user" with
                    | None => (Threw TypeError, at_ s3)
                    | Some u =>
                        match ToString (stringify pf u) with
                        | None => (Threw TypeError, at_ s3)
                        | Some tu =>
                            let s4 := set_localStorage (insert USER_KEY tu) s3 in
                            match get u "id", get u "email", get u "name",
                                  get u "is_superuser" with
                            | Some id, Some em, Some name, Some su =>
                                (Returned tt,
                                 {| browser := set_location "/" s4;
                                    user := JObj [("id", id); ("email", em);
                                                  ("name", name);
                                                  ("is_superuser",
                                                   nullish_else su (JBool true))];
                                    isLoading := isLoading w |})
                            | _, _, _, _ => (Threw TypeError, at_ s4)
                            end
                        end
                    end
                end
            end
        end
    end.
Proof.
  intros Hwin H. unfold login, then_ at 1, lift at 1. rewrite H.
  unfold then_, lift, or_TypeError, setItem, ret, throw, setUser, router_replace.
  rewrite Hwin. cbn [browser user isLoading].
  destruct (get data "access_token") as [a|]; [|done].
  destruct (ToString a) as [ta|]; [|done]. cbn [browser user isLoading].
  destruct (get data "refresh_token") as [r|]; [|done].
  destruct (ToString r) as [tr|]; [|done]. cbn [browser user isLoading].
  destruct (get data "user") as [u|]; [|done].
  destruct (ToString (stringify pf u)) as [tu|]; [|done]. cbn [browser user isLoading].
  destruct (get u "id") as [id|]; [|done].
  destruct (get u "email") as [em|]; [|done].
  destruct (get u "name") as [name|]; [|done].
  destruct (get u "is_superuser") as [su|]; done.
Qed.

Lemma login_thrown pf email password w e s1 :
  adminLogin pf email password (browser w) = (Threw e, s1) ->
  login pf email password w =
    (Threw e, {| browser := s1; user := user w; isLoading := isLoading w |}).
Proof. intros H. unfold login, then_ at 1, lift at 1. by rewrite H. Qed.

(** [adminLogin] returns only data whose access token has a string. *)
Lemma adminLogin_returned pf email password s data s1 :
  adminLogin pf email password s = (Returned data, s1) ->
  exists a ta, get data "access_token" = Some a /\ ToString a = Some ta.
Proof.
  unfold_client. intros H. repeat case_match; simplify_eq; eauto.
Qed.

(** A failed [login] leaves the user and the location alone. *)
Lemma login_failed_frame pf email password w e w' :
  login pf email password w = (Threw e, w') ->
  user w' = user w /\ isLoading w' = isLoading w /\
  location (browser w') = location (browser w).
Proof.
  destruct (adminLogin_frame pf email password (browser w)) as (_ & Hloc & _).
  destruct (adminLogin pf email password (browser w)) as [[data|e1] s1] eqn:Hlogin.
  2:{ rewrite (login_thrown _ _ _ _ _ _ Hlogin). intros [= <- <-]. by cbn in *. }
  cbn [snd] in Hloc. unfold login, then_ at 1, lift at 1. rewrite Hlogin.
  unfold then_, lift, or_TypeError, setItem, ret, throw, setUser, router_replace.
  cbn [browser user isLoading].
  intros H. repeat (case_match; simplify_eq; cbn [browser user isLoading] in * ); done.
Qed.

(** The first call of [request]. *)
Lemma request_calls_first pf path options s :
  exists rest,
    let h := match fst (getToken pf s) with
             | Returned (Some t) =>
                 if truthy (JStr t) then with_bearer t (base_headers options)
                 else base_headers options
             | _ => base_headers options
             end in
    calls (snd (request pf path options s)) =
      calls s ++ api_call pf path options h :: rest.
Proof.
  destruct (request_unfold pf path options s) as (c & Hget & Hrun). cbv zeta in Hrun.
  rewrite Hget. cbn [fst].
  set (h := match c with Some _ => _ | None => _ end) in *.
  set (rq := api_call pf path options h) in *.
  rewrite Hrun. clear Hrun.
  destruct (network pf (length (calls s))) as [r1|]; [|by exists []].
  destruct ((status r1 =? 401)%Z && truthy (of_item c)).
  2:{ exists []. by rewrite last_step_state. }
  destruct (refreshAccessToken_calls pf (add_call rq s)) as [_ Hmid].
  destruct (refreshAccessToken pf (add_call rq s)) as [[newToken|e] s2]; cbn [snd] in Hmid.
  2:{ cbn [snd]. destruct Hmid as [-> | [rt ->]]; cbn; rewrite <- ?app_assoc; eauto. }
  assert (exists mid, calls s2 = calls s ++ rq :: mid) as (mid & Hs2).
  { destruct Hmid as [-> | [rt ->]]; cbn; rewrite <- ?app_assoc; eauto. }
  destruct (truthy newToken); [|exists mid; by rewrite last_step_state].
  destruct (ToString newToken) as [bearer|]; [|by exists mid].
  exists (mid ++ [api_call pf path options (with_bearer bearer h)]).
  destruct (network pf (length (calls s2))) as [r2|]; rewrite ?last_step_state; cbn;
    rewrite Hs2, <- ?app_assoc; done.
Qed.

(** Without a usable token [request] makes one call, without a bearer. *)
Lemma anonymous_request_calls pf path options s :
  (window_defined pf = false \/
   localStorage s !! ACCESS_KEY = None \/ localStorage s !! ACCESS_KEY = Some "") ->
  calls (snd (request pf path options s)) =
    calls s ++ [api_call pf path options (base_headers options)].
Proof.
  intros Hanon.
  destruct (request_unfold pf path options s) as (c & Hget & Hrun). cbv zeta in Hrun.
  rewrite getToken_reads in Hget. injection Hget as <-.
  assert (exists c, (if window_defined pf then localStorage s !! ACCESS_KEY else None) = c /\
                    (c = None \/ c = Some "")) as (c & Hc & Hcases).
  { destruct (window_defined pf); [|eauto].
    destruct Hanon as [? | [-> | ->]]; [done | eauto..]. }
  rewrite Hc in Hrun. rewrite Hrun.
  destruct (network pf (length (calls s))) as [r1|]; [|by destruct Hcases as [-> | ->]].
  assert (truthy (of_item c) = false) as -> by (by destruct Hcases as [-> | ->]).
  rewrite andb_false_r, last_step_state. by destruct Hcases as [-> | ->].
Qed.

(** The two models of [login] agree: the one of the client, which keeps the
    user in the state of the browser, and the one of the provider. *)
Lemma login_agrees pf email password w :
  let run := Client.login pf email password (browser w) in
  login pf email password w =
    (fst run,
     {| browser := set_user (Client.user (browser w)) (snd run);
        user := match fst run, Client.user (snd run) with
                | Returned _, Some u => as_object u
                | _, _ => user w
                end;
        isLoading := isLoading w |}).
Proof.
  destruct (adminLogin_frame pf email password (browser w)) as (_ & _ & Hu & _).
  intros run. subst run. unfold login, Client.login.
  unfold then_, lift, bind, or_TypeError, setItem, ret, throw, setUser, router_replace.
  cbn [browser user isLoading].
  destruct (adminLogin pf email password (browser w)) as [[data|e] s1]; cbn [snd] in Hu;
    rewrite <- Hu; destruct s1 as [st rp cs us loc]; cbn [Client.user]; [|done].
  destruct (get data "access_token") as [a|]; [|done].
  destruct (window_defined pf); [|done].
  destruct (ToString a) as [ta|]; [|done]. cbn [browser user isLoading].
  destruct (get data "refresh_token") as [r|]; [|done].
  destruct (ToString r) as [tr|]; [|done]. cbn [browser user isLoading].
  destruct (get data "user") as [u|]; [|done].
  destruct (ToString (stringify pf u)) as [tu|]; [|done]. cbn [browser user isLoading].
  destruct (get u "id") as [id|]; [|done].
  destruct (get u "email") as [em|]; [|done].
  destruct (get u "name") as [name|]; [|done].
  destruct (get u "is_superuser") as [su|]; done.
Qed.

End AuthFacts.

(** * What the provider guarantees *)

Module AuthProps.

Import Client ClientFacts RequestFacts Auth AuthFacts Scenario Inputs.

(** Mounting without a token.  In a browser with no access token stored, or
    an empty one, [init] sends nothing and changes nothing but [isLoading];
    with no user set, the route protection then sends every page but the
    login page to the login page. *)
Theorem init_without_token pf w :
  window_defined pf = true ->
  localStorage (browser w) !! ACCESS_KEY = None \/
  localStorage (browser w) !! ACCESS_KEY = Some "" ->
  init pf w = (Returned tt, {| browser := browser w; user := user w; isLoading := false |}) /\
  (truthy (user w) = false ->
   forall pathname, pathname <> "/login" ->
     route_protection (snd (init pf w)) pathname = Some "/login").
Proof.
  intros Hwin Htok. rewrite init_cases by done.
  assert (negb (truthy (of_item (localStorage (browser w) !! ACCESS_KEY))) = true) as ->.
  { by destruct Htok as [-> | ->]. }
  split; [done|]. intros Hu pathname Hp. unfold route_protection. cbn.
  rewrite Hu. apply String.eqb_neq in Hp. by rewrite Hp.
Qed.

Lemma init_without_token_witness :
  let pf := scripted [] in
  let w := mounted (idle ∅) in
  init pf w = (Returned tt, {| browser := browser w; user := user w; isLoading := false |}) /\
  (truthy (user w) = false ->
   forall pathname, pathname <> "/login" ->
     route_protection (snd (init pf w)) pathname = Some "/login").
Proof.
  intros pf w. apply (init_without_token pf w); [reflexivity | left; reflexivity].
Defined.



(** Only a verified token survives mounting.  In a browser [init] never
    throws and ends with [isLoading] off.  If a non-empty access token is
    still stored afterwards, then [verifyAdmin] returned and the user is what
    it returned; and the user changes in no other case. *)
Theorem init_keeps_only_verified_token pf w :
  window_defined pf = true ->
  exists w',
    init pf w = (Returned tt, w') /\
    isLoading w' = false /\
    (forall t, localStorage (browser w') !! ACCESS_KEY = Some t -> t <> "" ->
       exists admin,
         Api.verifyAdmin pf (browser w) = (Returned admin, browser w') /\ user w' = admin) /\
    (user w' = user w \/
     exists admin,
       Api.verifyAdmin pf (browser w) = (Returned admin, browser w') /\ user w' = admin).
Proof.
  intros Hwin. rewrite init_cases by done.
  destruct (negb (truthy (of_item (localStorage (browser w) !! ACCESS_KEY)))) eqn:Htok.
  - eexists. split; [reflexivity|]. cbn. split; [done|]. split; [|by left].
    intros t Ht Hne. rewrite Ht in Htok. cbn in Htok.
    apply String.eqb_neq in Hne. by rewrite Hne in Htok.
  - destruct (Api.verifyAdmin pf (browser w)) as [[admin|e] s1].
    + eexists. split; [reflexivity|]. cbn. split; [done|]. split; [|right]; eauto.
    + eexists. split; [reflexivity|].
      cbn [browser user isLoading set_localStorage localStorage].
      split; [done|]. split; [|by left].
      intros t Ht _. by rewrite cleared_lookup in Ht.
Qed.

Lemma init_keeps_only_verified_token_witness :
  let pf := scripted [reply 200 "OK" (Some profile)] in
  let w := mounted (idle signed_in) in
  exists w',
    init pf w = (Returned tt, w') /\
    isLoading w' = false /\
    (forall t, localStorage (browser w') !! ACCESS_KEY = Some t -> t <> "" ->
       exists admin,
         Api.verifyAdmin pf (browser w) = (Returned admin, browser w') /\ user w' = admin) /\
    (user w' = user w \/
     exists admin,
       Api.verifyAdmin pf (browser w) = (Returned admin, browser w') /\ user w' = admin).
Proof.
  intros pf w. apply (init_keeps_only_verified_token pf w). reflexivity.
Defined.



(** A response without a user.  If the credential check and the verification
    succeed but the response has no [user], or a [null] one, [login] throws a
    TypeError when it reads the user's fields, after it has stored both tokens
    and a text for the user: the tokens stay in [localStorage] although the
    user is not set and the browser is not sent on. *)
Theorem login_without_user_keeps_tokens pf email password w data s1 u :
  window_defined pf = true ->
  adminLogin pf email password (browser w) = (Returned data, s1) ->
  get data "user" = Some u -> u = JUndefined \/ u = JNull ->
  forall r tr, get data "refresh_token" = Some r -> ToString r = Some tr ->
  exists w' a ta,
    login pf email password w = (Threw TypeError, w') /\
    get data "access_token" = Some a /\ ToString a = Some ta /\
    localStorage (browser w') !! ACCESS_KEY = Some ta /\
    localStorage (browser w') !! REFRESH_KEY = Some tr /\
    localStorage (browser w') !! USER_KEY =
      Some (match u with JUndefined => "undefined" | _ => JSON_stringify pf JNull end) /\
    user w' = user w /\ location (browser w') = location (browser w).
Proof.
  intros Hwin Hlogin Hu Hnone r tr Hr Htr.
  destruct (adminLogin_returned _ _ _ _ _ _ Hlogin) as (a & ta & Ha & Hta).
  destruct (adminLogin_frame pf email password (browser w)) as (_ & Hloc & _).
  rewrite Hlogin in Hloc. cbn [snd] in Hloc.
  rewrite (login_returned _ _ _ _ _ _ Hwin Hlogin). cbv zeta.
  rewrite Ha, Hta, Hr, Htr, Hu.
  destruct Hnone as [-> | ->]; cbn [stringify ToString get].
  all: eexists _, a, ta; split; [reflexivity|];
    cbn [browser user isLoading set_localStorage localStorage location];
    repeat (split; [done|]);
    (split; [rewrite lookup_insert_ne by done; rewrite lookup_insert_ne by done;
             apply lookup_insert_eq|]);
    (split; [rewrite lookup_insert_ne by done; apply lookup_insert_eq|]);
    (split; [apply lookup_insert_eq|]); done.
Qed.

Lemma login_without_user_keeps_tokens_witness :
  let pf := scripted [reply 200 "OK" (Some tokens_only); reply 200 "OK" (Some profile)] in
  let w := mounted (idle ∅) in
  exists w' a ta,
    login pf "a@b.com" "x" w = (Threw TypeError, w') /\
    get tokens_only "access_token" = Some a /\ ToString a = Some ta /\
    localStorage (browser w') !! ACCESS_KEY = Some ta /\
    localStorage (browser w') !! REFRESH_KEY = Some "new-refresh" /\
    localStorage (browser w') !! USER_KEY = Some "undefined" /\
    user w' = user w /\ location (browser w') = location (browser w).
Proof.
  intros pf w.
  apply (login_without_user_keeps_tokens pf "a@b.com" "x" w tokens_only
           (snd (adminLogin pf "a@b.com" "x" (browser w))) JUndefined
           eq_refl eq_refl eq_refl (or_introl eq_refl)
           (JStr "new-refresh") "new-refresh" eq_refl eq_refl).
Defined.

(** Signing out.  In a browser [logout] returns with the three keys gone from
    [localStorage] and every other key as it was, the user [null] and the
    browser sent to the login page; it sends nothing to the server, so the
    refresh token is not revoked there.  Doing it again changes nothing, and
    the next [request] carries no bearer. *)
Theorem logout_signs_out pf w :
  window_defined pf = true ->
  exists w',
    logout pf w = (Returned tt, w') /\
    (forall k, localStorage (browser w') !! k =
       if decide (k = ACCESS_KEY \/ k = REFRESH_KEY \/ k = USER_KEY) then None
       else localStorage (browser w) !! k) /\
    calls (browser w') = calls (browser w) /\
    refreshPromise (browser w') = refreshPromise (browser w) /\
    user w' = JNull /\ isAuthenticated w' = false /\
    location (browser w') = Some "/login" /\
    logout pf w' = (Returned tt, w') /\
    forall path options,
      calls (snd (request pf path options (browser w'))) =
        calls (browser w) ++ [api_call pf path options (base_headers options)].
Proof.
  intros Hwin. unfold logout, then_ at 1. rewrite clear_credentials_runs by done.
  unfold then_, setUser, lift, router_replace. cbn [browser user isLoading].
  eexists. split; [reflexivity|].
  cbn [browser user isLoading set_location set_localStorage localStorage calls
       refreshPromise location].
  split; [intros k; apply cleared_lookup|].
  repeat (split; [done|]).
  split.
  - rewrite clear_credentials_runs by done.
    cbn [browser user isLoading set_location set_localStorage localStorage calls
         refreshPromise location Client.user].
    do 2 f_equal. unfold set_location, set_localStorage.
    cbn [localStorage refreshPromise calls Client.user location]. f_equal.
    apply map_eq. intros k. rewrite !cleared_lookup. by case_decide.
  - intros path options.
    pose proof (anonymous_request_calls pf path options
                  (set_location "/login" (set_localStorage cleared (browser w)))) as Hanon.
    apply Hanon. right. left. cbn [set_location set_localStorage localStorage].
    by rewrite cleared_lookup.
Qed.

Lemma logout_signs_out_witness :
  let pf := scripted [] in
  let w := mounted (idle signed_in) in
  exists w',
    logout pf w = (Returned tt, w') /\
    (forall k, localStorage (browser w') !! k =
       if decide (k = ACCESS_KEY \/ k = REFRESH_KEY \/ k = USER_KEY) then None
       else localStorage (browser w) !! k) /\
    calls (browser w') = calls (browser w) /\
    refreshPromise (browser w') = refreshPromise (browser w) /\
    user w' = JNull /\ isAuthenticated w' = false /\
    location (browser w') = Some "/login" /\
    logout pf w' = (Returned tt, w') /\
    forall path options,
      calls (snd (request pf path options (browser w'))) =
        calls (browser w) ++ [api_call pf path options (base_headers options)].
Proof.
  intros pf w. apply (logout_signs_out pf w). reflexivity.
Defined.

(** The route protection settles.  It sends the browser nowhere while the
    provider is loading; when it does send it somewhere, that is the login
    page for a visitor without a user and the dashboard for one with a user,
    never the page the browser is on, and on the page it sends to it sends
    nowhere: there is no redirect loop. *)
Theorem route_protection_settles w pathname target :
  route_protection w pathname = Some target ->
  isLoading w = false /\
  target <> pathname /\
  (target = "/login" /\ isAuthenticated w = false \/
   target = "/" /\ isAuthenticated w = true /\ pathname = "/login") /\
  route_protection w target = None.
Proof.
  unfold route_protection, isAuthenticated.
  destruct (isLoading w); [done|].
  destruct (truthy (user w)); cbn [negb andb].
  - destruct (String.eqb_spec pathname "/login") as [-> | Hp]; [|done].
    intros [= <-]. cbn. auto 10.
  - destruct (String.eqb_spec pathname "/login") as [-> | Hp]; [done|].
    intros [= <-]. cbn. split; [done|]. split; [congruence|]. auto.
Qed.

Lemma route_protection_settles_witness :
  let w := {| browser := idle ∅; user := JNull; isLoading := false |} in
  isLoading w = false /\
  "/login" <> "/users" /\
  ("/login" = "/login" /\ isAuthenticated w = false \/
   "/login" = "/" /\ isAuthenticated w = true /\ "/users" = "/login") /\
  route_protection w "/login" = None.
Proof.
  intros w. apply (route_protection_settles w "/users" "/login"). reflexivity.
Defined.

(** The dashboard layout and the route protection agree.  On a page other
    than the login page, the layout shows nothing exactly when the route
    protection sends the browser to the login page, and shows the shell or
    the loading screen exactly when it sends the browser nowhere. *)
Theorem layout_matches_route_protection w pathname :
  pathname <> "/login" ->
  route_protection w pathname =
    match DashboardLayout w with
    | Nothing => Some "/login"
    | LoadingScreen | Shell => None
    end.
Proof.
  intros Hp. apply String.eqb_neq in Hp.
  unfold route_protection, DashboardLayout, isAuthenticated. rewrite Hp.
  destruct (isLoading w); [done|]. by destruct (truthy (user w)).
Qed.

Lemma layout_matches_route_protection_witness :
  let w := {| browser := idle ∅; user := JNull; isLoading := false |} in
  route_protection w "/users" =
    match DashboardLayout w with
    | Nothing => Some "/login"
    | LoadingScreen | Shell => None
    end.
Proof.
  intros w. apply (layout_matches_route_protection w "/users"). discriminate.
Defined.

End AuthProps.

(** * The login form *)

Module LoginPageProps.

Import Client ClientFacts Auth AuthFacts LoginPage.

(** What the form shows after a submit.  [handleSubmit] always ends with
    [submitting] off.  It leaves no error exactly when [login] returned, an
    error left by an earlier attempt being cleared; an [AdminApiError] is
    shown by its own message; and when an error is shown the user and the
    location are as before. *)
Theorem handleSubmit_reports pf engine_message email password p :
  let p' := handleSubmit pf engine_message email password p in
  submitting p' = false /\
  (error p' = None <-> exists w', login pf email password (app p) = (Returned tt, w')) /\
  (forall message code w',
     login pf email password (app p) = (Threw (AdminApiError message code), w') ->
     error p' = Some message) /\
  (error p' <> None ->
   user (app p') = user (app p) /\
   location (browser (app p')) = location (browser (app p))).
Proof.
  unfold handleSubmit. cbn [app error submitting].
  destruct (login pf email password (app p)) as [[[]|e] w'] eqn:Hrun;
    cbn [app error submitting].
  - split; [done|]. split; [split; eauto|]. split; done.
  - destruct (login_failed_frame _ _ _ _ _ _ Hrun) as (Hu & _ & Hloc).
    split; [done|]. split; [split; [done | by intros [? ?]]|].
    split; [|done]. by intros message code w'' [= -> ->].
Qed.

End LoginPageProps.

(** * The endpoint wrappers *)

Module ApiFacts.

Import Client ClientFacts RequestFacts AuthFacts Api.

(** [set] on a name that is not there appends. *)
Lemma qs_set_fresh name value qs :
  name ∉ qs.*1 -> qs_set name value qs = qs ++ [(name, value)].
Proof.
  induction qs as [|[n v] qs IH]; [done|]. cbn. intros Hn.
  apply not_elem_of_cons in Hn as [Hne Hn].
  destruct (String.eqb_spec n name) as [-> | _]; [done|]. by rewrite IH.
Qed.

Lemma set_text_fresh name x qs :
  name ∉ qs.*1 -> set_text name x qs = qs ++ sent_text name x.
Proof.
  intros Hn. unfold set_text, sent_text. destruct x as [v|]; [|by rewrite app_nil_r].
  cbn. destruct (String.eqb v ""); cbn; [by rewrite app_nil_r | by apply qs_set_fresh].
Qed.

Lemma set_flag_fresh name x qs :
  name ∉ qs.*1 -> set_flag name x qs = qs ++ sent_flag name x.
Proof.
  intros Hn. unfold set_flag, sent_flag. destruct x as [[]|]; [| |by rewrite app_nil_r];
    by apply qs_set_fresh.
Qed.

Lemma set_count_fresh name x qs :
  name ∉ qs.*1 -> set_count name x qs = qs ++ sent_count name x.
Proof.
  intros Hn. unfold set_count, sent_count. destruct x as [n|]; [|by rewrite app_nil_r].
  destruct (num_truthy n); [by apply qs_set_fresh | by rewrite app_nil_r].
Qed.

Lemma sent_text_names name x : forall n, n ∈ (sent_text name x).*1 -> n = name.
Proof.
  unfold sent_text. intros n. destruct x as [v|]; [destruct (String.eqb v "")|]; cbn;
    intros H; repeat (apply elem_of_cons in H as [H|H]); try done; by apply elem_of_nil in H.
Qed.

Lemma sent_flag_names name x : forall n, n ∈ (sent_flag name x).*1 -> n = name.
Proof.
  unfold sent_flag. intros n. destruct x as [[]|]; cbn;
    intros H; repeat (apply elem_of_cons in H as [H|H]); try done; by apply elem_of_nil in H.
Qed.

Lemma sent_count_names name x : forall n, n ∈ (sent_count name x).*1 -> n = name.
Proof.
  unfold sent_count. intros n. destruct x as [c|]; [destruct (num_truthy c)|]; cbn;
    intros H; repeat (apply elem_of_cons in H as [H|H]); try done; by apply elem_of_nil in H.
Qed.

(** The first call of [request], in full. *)
Lemma request_first_call pf path options s :
  exists rq rest,
    calls (snd (request pf path options s)) = calls s ++ rq :: rest /\
    url rq = API_BASE pf +:+ path /\
    method rq = init_method options /\
    body rq = init_body options /\
    (init_headers options !! "Content-Type" = None ->
     headers rq !! "Content-Type" = Some "application/json") /\
    (forall tok, window_defined pf = true -> localStorage s !! ACCESS_KEY = Some tok ->
       tok <> "" -> headers rq !! "Authorization" = Some ("Bearer " +:+ tok)).
Proof.
  destruct (request_calls_first pf path options s) as (rest & Hcalls). cbv zeta in Hcalls.
  eexists _, rest. split; [exact Hcalls|]. cbn [api_call url method body headers].
  repeat (split; [done|]). rewrite getToken_reads. cbn [fst]. split.
  - intros Hct.
    assert (base_headers options !! "Content-Type" = Some "application/json") as Hbase.
    { unfold base_headers, json_headers. rewrite lookup_union_r by done.
      apply lookup_singleton_eq. }
    repeat case_match; try done; unfold with_bearer; by rewrite lookup_insert_ne.
  - intros tok Hwin Htok Hne. rewrite Hwin, Htok.
    apply truthy_JStr in Hne. rewrite Hne. unfold with_bearer. apply lookup_insert_eq.
Qed.

End ApiFacts.

Module ApiProps.

Import Client ClientFacts RequestFacts Api ApiFacts Scenario Inputs.

(** Every wrapper calls the admin API as the signed-in admin.  The first call
    of each of the thirty-four wrappers goes to a URL under [/v1/admin/] of
    the configured base, says its content is JSON, carries the stored access
    token as its bearer when there is one, and has a body only with the
    methods POST, PUT and PATCH. *)
Theorem wrappers_call_admin_api pf qs_toString c s :
  exists tail rq rest,
    calls (snd (invoke pf qs_toString c s)) = calls s ++ rq :: rest /\
    url rq = API_BASE pf +:+ "/v1/admin/" +:+ tail /\
    headers rq !! "Content-Type" = Some "application/json" /\
    (forall tok, window_defined pf = true -> localStorage s !! ACCESS_KEY = Some tok ->
       tok <> "" -> headers rq !! "Authorization" = Some ("Bearer " +:+ tok)) /\
    (body rq <> None ->
     method rq = Some "POST" \/ method rq = Some "PUT" \/ method rq = Some "PATCH").
Proof.
  destruct c; cbn [invoke];
    match goal with
    | |- context [calls (snd (?f s))] =>
        let f' := eval cbv beta delta
          [verifyAdmin getPlatformStats getPlatformTimeseries listUsers getUserDetail
           updateUser revokeUserSessions deleteUser setAdminNotes sendEmailToUser
           listProjects getProjectDetail updateProject rotateProjectKey revokeProjectKey
           listPricingModels listPricingProviders updateModelPricing syncLitellmPricing
           syncOpenrouterPricing getPricingSyncHistory getSystemHealth getIngestionStats
           getTopModels getTopSpenders getProviderGrowth getCostPerUser getFailedEvents
           getFeedbackIncidents getAuditLog listFeedback getFeedbackDetail updateFeedback
           getAdminAuditLog] in f in
        change f with f'; cbv zeta
    end;
    match goal with
    | |- context [request pf ?path ?options s] =>
        destruct (request_first_call pf path options s)
          as (rq & rest & Hcalls & Hurl & Hmethod & Hbody & Hct & Hauth)
    end;
    eexists _, rq, rest; (split; [exact Hcalls|]);
    (split; [rewrite Hurl; reflexivity|]);
    (split; [apply Hct; reflexivity|]);
    (split; [exact Hauth|]);
    rewrite Hmethod, Hbody; cbn; intros Hb; first [done | by auto].
Qed.

(** The query of [listUsers].  The query string is made of the parameters
    that are present, each once, in the order of the source: an empty search,
    sort or order and a limit or offset of zero are left out, like a missing
    one, while a flag that is [false] is sent. *)
Theorem listUsers_query pf qs_toString params :
  listUsers pf qs_toString params =
    request pf
      ("/v1/admin/users?" +:+
       qs_toString
         (sent_text "search" (ul_search params) ++
          sent_flag "is_active" (ul_is_active params) ++
          sent_flag "is_superuser" (ul_is_superuser params) ++
          sent_count "limit" (ul_limit params) ++
          sent_count "offset" (ul_offset params) ++
          sent_text "sort" (ul_sort params) ++
          sent_text "order" (ul_order params)))
      no_options.
Proof.
  unfold listUsers. cbv zeta. do 3 f_equal.
  rewrite (set_text_fresh "search") by apply not_elem_of_nil.
  rewrite (set_flag_fresh "is_active").
  2:{ rewrite fmap_app, elem_of_app. intros [H | H]; [by apply elem_of_nil in H|].
      by apply sent_text_names in H. }
  rewrite (set_flag_fresh "is_superuser").
  2:{ rewrite !fmap_app, !elem_of_app. intros [[H | H] | H]; [by apply elem_of_nil in H| |].
      - by apply sent_text_names in H.
      - by apply sent_flag_names in H. }
  rewrite (set_count_fresh "limit").
  2:{ rewrite !fmap_app, !elem_of_app. intros [[[H | H] | H] | H]; [by apply elem_of_nil in H| | |].
      - by apply sent_text_names in H.
      - by apply sent_flag_names in H.
      - by apply sent_flag_names in H. }
  rewrite (set_count_fresh "offset").
  2:{ rewrite !fmap_app, !elem_of_app. intros [[[[H | H] | H] | H] | H]; [by apply elem_of_nil in H| | | |].
      - by apply sent_text_names in H.
      - by apply sent_flag_names in H.
      - by apply sent_flag_names in H.
      - by apply sent_count_names in H. }
  rewrite (set_text_fresh "sort").
  2:{ rewrite !fmap_app, !elem_of_app.
      intros [[[[[H | H] | H] | H] | H] | H]; [by apply elem_of_nil in H| | | | |].
      - by apply sent_text_names in H.
      - by apply sent_flag_names in H.
      - by apply sent_flag_names in H.
      - by apply sent_count_names in H.
      - by apply sent_count_names in H. }
  rewrite (set_text_fresh "order").
  2:{ rewrite !fmap_app, !elem_of_app.
      intros [[[[[[H | H] | H] | H] | H] | H] | H]; [by apply elem_of_nil in H| | | | | |].
      - by apply sent_text_names in H.
      - by apply sent_flag_names in H.
      - by apply sent_flag_names in H.
      - by apply sent_count_names in H.
      - by apply sent_count_names in H.
      - by apply sent_text_names in H. }
  cbn [app]. by rewrite <- !app_assoc.
Qed.

(** The two audit-log wrappers overlap.  [getAdminAuditLog] without its three
    filters, or with empty ones, is [getAuditLog] with the same limit and
    offset: the same call and the same result. *)
Theorem audit_logs_overlap pf qs_toString params :
  (aa_action_type params = None \/ aa_action_type params = Some "") ->
  (aa_target_type params = None \/ aa_target_type params = Some "") ->
  (aa_admin_id params = None \/ aa_admin_id params = Some "") ->
  getAdminAuditLog pf qs_toString params =
    getAuditLog pf qs_toString
      {| al_limit := aa_limit params; al_offset := aa_offset params |}.
Proof.
  unfold getAdminAuditLog, getAuditLog. cbv zeta. cbn [al_limit al_offset].
  by intros [-> | ->] [-> | ->] [-> | ->].
Qed.

Lemma audit_logs_overlap_witness :
  let params := {| aa_action_type := None; aa_target_type := Some ""; aa_admin_id := None;
                   aa_limit := Some fifty; aa_offset := None |} in
  getAdminAuditLog (scripted []) plain_query params =
    getAuditLog (scripted []) plain_query
      {| al_limit := aa_limit params; al_offset := aa_offset params |}.
Proof.
  intros params. apply (audit_logs_overlap (scripted []) plain_query params); auto.
Defined.

End ApiProps.

(** * The life of [refreshPromise] *)

Module LoopLifeFacts.

Import Client Loop LoopInv LoopFacts LoopLife.

Lemma held_same s s' :
  slot s' = slot s -> running s' = running s -> held_by_starter s -> held_by_starter s'.
Proof. unfold held_by_starter. intros -> ->. done. Qed.

Lemma held_set_call s i c c' :
  held_by_starter s -> running s !! i = Some c ->
  (forall p, at_point c <> AtOwnRefresh p) ->
  held_by_starter (set_call i c' s).
Proof.
  intros H Hi Hc p Hp. cbn [set_call slot running] in *.
  destruct (H p Hp) as (j & cj & Hj & Hat). exists j, cj. split; [|done].
  rewrite list_lookup_insert_ne; [done|]. intros ->. simplify_eq. by eapply Hc.
Qed.

Lemma held_start s pf i c c' p :
  running s !! i = Some c -> at_point c' = AtOwnRefresh p ->
  slot (start_refresh pf s) = Some p ->
  held_by_starter (set_call i c' (start_refresh pf s)).
Proof.
  intros Hi Hat Hslot q Hq. cbn [set_call slot running] in *.
  rewrite Hslot in Hq. simplify_eq. exists i, c'. split; [|done].
  assert (running (start_refresh pf s) = running s) as ->.
  { unfold start_refresh. by destruct (usable_refresh_token pf (storage s)). }
  apply list_lookup_insert_eq. by eapply lookup_lt_Some.
Qed.

Lemma slot_start_refresh pf s : slot (start_refresh pf s) = Some (length (refreshes s)).
Proof. unfold start_refresh. by destruct (usable_refresh_token pf (storage s)). Qed.

Lemma held_after_refresh pf s i c v :
  held_by_starter s -> running s !! i = Some c ->
  (forall p, at_point c <> AtOwnRefresh p) ->
  held_by_starter (after_refresh pf i c v s).
Proof.
  intros H Hi Hc. unfold after_refresh. cbv zeta. cbn [resp path options token hdrs].
  destruct (truthy v).
  - destruct (ToString v) as [bearer|].
    + eapply held_same; [| |eapply (held_set_call s i c); eauto]; reflexivity.
    + eapply held_set_call; eauto.
  - destruct (resp c); eapply held_set_call; eauto.
Qed.

Lemma step_held pf e s s' :
  held_by_starter s -> step pf e s = Some s' -> held_by_starter s'.
Proof.
  intros H Hstep. destruct e as [pth opts | i fr | i | p fr | p]; cbn [step] in Hstep.
  - simplify_eq. intros p Hp. cbn [slot running] in *.
    destruct (H p Hp) as (j & cj & Hj & Hat). exists j, cj. split; [|done].
    rewrite lookup_app_l; [done|]. by eapply lookup_lt_Some.
  - destruct (running s !! i) as [c|] eqn:Hi; [|done].
    destruct (at_point c) eqn:Hat; try done; destruct fr as [r|]; simplify_eq;
      try (eapply held_set_call; eauto; intros q; by rewrite Hat).
    unfold after_first. cbv zeta. cbn [token path options hdrs resp awaited newToken].
    destruct ((status r =? 401)%Z && truthy (of_item (token c))).
    + destruct (slot s) as [p0|] eqn:Hs.
      * eapply held_set_call; eauto. intros q. by rewrite Hat.
      * eapply held_start; eauto. apply slot_start_refresh.
    + eapply held_set_call; eauto. intros q. by rewrite Hat.
  - destruct (running s !! i) as [c|] eqn:Hi; [|done].
    destruct (at_point c) eqn:Hat; try done.
    + destruct (refreshes s !! p) as [[| |v]|]; try done. simplify_eq. by intros q Hq.
    + simplify_eq. eapply held_after_refresh; eauto. intros q. by rewrite Hat.
    + destruct (refreshes s !! p) as [[| |v]|]; try done. simplify_eq.
      eapply held_after_refresh; eauto. intros q. by rewrite Hat.
    + simplify_eq. eapply held_set_call; eauto. intros q. by rewrite Hat.
    + simplify_eq. eapply held_set_call; eauto. intros q. by rewrite Hat.
  - destruct (refreshes s !! p) as [[| |v]|]; try done.
    destruct fr as [r|]; simplify_eq; by eapply held_same.
  - destruct (refreshes s !! p) as [[|r|v]|]; try done.
    destruct (store_tokens pf r (storage s)) as [v st]. simplify_eq. by eapply held_same.
Qed.

Lemma run_held_by_starter pf evs s s' :
  held_by_starter s -> run pf evs s = Some s' -> held_by_starter s'.
Proof.
  revert s. induction evs as [|e evs IH]; intros s H Hrun; cbn [run] in Hrun.
  - by simplify_eq.
  - destruct (step pf e s) as [s1|] eqn:Hstep; [|done].
    eapply IH; [|done]. by eapply step_held.
Qed.

(** With [refreshPromise] empty, every refresh has settled. *)
Lemma free_in_flight s : inv s -> slot s = None -> in_flight s = 0.
Proof.
  intros Hinv Hs. unfold in_flight. pose proof (inv_free s Hinv Hs) as Hall.
  induction (refreshes s) as [|x l IH]; [done|]. cbn.
  rewrite (Hall 0 x) by done. apply IH. intros q r Hq. by apply (Hall (S q)).
Qed.

End LoopLifeFacts.

Module LoopProps.

Import Client Loop LoopInv LoopFacts LoopLife LoopLifeFacts Scenario.

(** [refreshPromise] is always released.  In every state the machine
    reaches, if [refreshPromise] holds the promise of a refresh, the call that
    started that refresh is still suspended on it; and however the fetch of
    the refresh settles, the refresh runs to its end and that call resumes,
    after which [refreshPromise] is empty and no refresh is in flight. *)
Theorem refreshPromise_released pf st evs s p :
  run pf evs (boot st) = Some s -> slot s = Some p ->
  exists i c r,
    running s !! i = Some c /\ at_point c = AtOwnRefresh p /\
    refreshes s !! p = Some r /\
    forall fr, exists s',
      run pf (release_events p i r fr) s = Some s' /\
      slot s' = None /\ in_flight s' = 0.
Proof.
  intros Hrun Hslot.
  assert (inv s) as Hinv by (eapply run_inv; [apply inv_boot | done]).
  assert (held_by_starter s) as Hheld.
  { eapply run_held_by_starter; [|done]. by intros q Hq. }
  destruct (Hheld p Hslot) as (i & c & Hi & Hat).
  destruct (inv_held s Hinv p Hslot) as [Hlt _].
  destruct (lookup_lt_is_Some_2 _ _ Hlt) as [r Hr].
  exists i, c, r. repeat (split; [done|]). intros fr.
  assert (forall s1 v, running s1 = running s -> refreshes s1 !! p = Some (Settled v) ->
            inv s1 ->
            exists s', run pf [Resume i] s1 = Some s' /\ slot s' = None /\ in_flight s' = 0)
    as Hlast.
  { intros s1 v Hrunning Hv Hinv1. cbn [run step]. rewrite Hrunning, Hi, Hat, Hv.
    eexists. split; [reflexivity|]. split; [done|].
    apply free_in_flight; [|done].
    eapply (step_inv pf (Resume i) s1); [done|]. cbn [step].
    by rewrite Hrunning, Hi, Hat, Hv. }
  assert (forall rr, refreshes s !! p = Some (Reading rr) ->
            exists s', run pf [RefreshResume p; Resume i] s = Some s' /\
                       slot s' = None /\ in_flight s' = 0) as Hread.
  { intros rr Hrr.
    assert (exists s1, step pf (RefreshResume p) s = Some s1 /\ running s1 = running s /\
                       exists v, refreshes s1 !! p = Some (Settled v)) as (s1 & H1 & Hk & v & Hv).
    { cbn [step]. rewrite Hrr. destruct (store_tokens pf rr (storage s)) as [v st1].
      eexists. split; [reflexivity|]. split; [done|]. exists v.
      cbn [set_refresh refreshes]. by apply list_lookup_insert_eq. }
    destruct (Hlast s1 v Hk Hv) as (s' & Hs' & Hnone & Hzero);
      [by eapply step_inv|].
    exists s'. split; [|done]. cbn [run]. rewrite H1. exact Hs'. }
  destruct r as [|rr|v]; cbn [release_events].
  - destruct fr as [rr|].
    + destruct (negb (ok rr)) eqn:Hok.
      * assert (step pf (RefreshSettle p (Responded rr)) s =
                  Some (set_refresh p (Settled JNull) (storage s) s)) as H1.
        { cbn [step]. by rewrite Hr, Hok. }
        destruct (Hlast (set_refresh p (Settled JNull) (storage s) s) JNull) as (s' & Hs' & ?);
          [done | by apply list_lookup_insert_eq | by eapply step_inv|].
        exists s'. split; [|done]. cbn [run]. rewrite H1. exact Hs'.
      * assert (step pf (RefreshSettle p (Responded rr)) s =
                  Some (set_refresh p (Reading rr) (storage s) s)) as H1.
        { cbn [step]. by rewrite Hr, Hok. }
        assert (inv (set_refresh p (Reading rr) (storage s) s)) as Hinv1
          by (by eapply step_inv).
        assert (held_by_starter (set_refresh p (Reading rr) (storage s) s)) as Hheld1
          by (by eapply step_held).
        cbn [run]. rewrite H1.
        assert (exists s1, step pf (RefreshResume p)
                             (set_refresh p (Reading rr) (storage s) s) = Some s1 /\
                           running s1 = running s /\
                           exists v, refreshes s1 !! p = Some (Settled v))
          as (s1 & H2 & Hk & v & Hv).
        { cbn [step set_refresh refreshes storage]. rewrite list_lookup_insert_eq by done.
          destruct (store_tokens pf rr (storage s)) as [v st1].
          eexists. split; [reflexivity|]. split; [done|]. exists v.
          cbn [set_refresh refreshes]. apply list_lookup_insert_eq.
          by rewrite length_insert. }
        destruct (Hlast s1 v Hk Hv) as (s' & Hs' & ?); [by eapply step_inv|].
        exists s'. split; [|done]. rewrite H2. exact Hs'.
    + assert (step pf (RefreshSettle p Unreachable) s =
                Some (set_refresh p (Settled JNull) (storage s) s)) as H1.
      { cbn [step]. by rewrite Hr. }
      destruct (Hlast (set_refresh p (Settled JNull) (storage s) s) JNull) as (s' & Hs' & ?);
        [done | by apply list_lookup_insert_eq | by eapply step_inv|].
      exists s'. split; [|done]. cbn [run]. rewrite H1. exact Hs'.
  - by apply (Hread rr).
  - by apply (Hlast s v).
Qed.

Lemma refreshPromise_released_witness :
  let pf := scripted [] in
  let s := default (boot signed_in)
             (run pf [Call "/v1/admin/users" no_options; Settle 0 expired]
                (boot signed_in)) in
  exists i c r,
    running s !! i = Some c /\ at_point c = AtOwnRefresh 0 /\
    refreshes s !! 0 = Some r /\
    forall fr, exists s',
      run pf (release_events 0 i r fr) s = Some s' /\
      slot s' = None /\ in_flight s' = 0.
Proof.
  intros pf s.
  apply (refreshPromise_released pf signed_in
           [Call "/v1/admin/users" no_options; Settle 0 expired] s 0);
    reflexivity.
Defined.

End LoopProps.

(** * What interleaved calls send *)

Module LoopSendsFacts.

Import Client Loop LoopInv LoopFacts LoopSends.

Lemma sent_from_send o o' rq s :
  sent_from o (send o' rq s) = sent_from o s + (if same_origin o' o then 1 else 0).
Proof.
  unfold sent_from, send. cbn [sent]. rewrite List.filter_app, length_app. cbn.
  by destruct (same_origin o' o).
Qed.

Lemma sent_from_set_call o i c s : sent_from o (set_call i c s) = sent_from o s.
Proof. done. Qed.

Lemma sent_from_set_refresh o p r st s : sent_from o (set_refresh p r st s) = sent_from o s.
Proof. done. Qed.

Lemma same_origin_refl o : same_origin o o = true.
Proof. destruct o; cbn; apply Nat.eqb_refl. Qed.

Lemma same_origin_request i j : same_origin (ByRequest i) (ByRequest j) = true <-> i = j.
Proof. cbn. apply Nat.eqb_eq. Qed.

(** A step that sends nothing and only moves call [i], keeping its path and
    options. *)
Lemma sends_ok_move pf s s' i c c' :
  sends_ok pf s -> running s !! i = Some c ->
  sent s' = sent s -> running s' = <[i := c']> (running s) ->
  length (refreshes s) <= length (refreshes s') ->
  path c' = path c -> options c' = options c ->
  (before_retry (at_point c') = true -> before_retry (at_point c) = true) ->
  sends_ok pf s'.
Proof.
  intros [Hrq Hrf Hwh] Hi Hsent Hrun Hlen Hpath Hopts Hbefore.
  assert (forall o, sent_from o s' = sent_from o s) as Hsame.
  { intros o. unfold sent_from. by rewrite Hsent. }
  split.
  - intros j. rewrite Hsame, Hrun. specialize (Hrq j).
    destruct (decide (j = i)) as [-> | Hne].
    + rewrite list_lookup_insert_eq by (by eapply lookup_lt_Some).
      rewrite Hi in Hrq. destruct Hrq as [Hb H1]. split; [done|]. auto.
    + by rewrite list_lookup_insert_ne.
  - intros p. rewrite Hsame. destruct (Hrf p) as [H1 H0]. split; [done|].
    intros Hp. apply H0. lia.
  - intros j rq Hin. rewrite Hsent in Hin. destruct (Hwh j rq Hin) as (cj & Hj & Hu).
    rewrite Hrun. destruct (decide (j = i)) as [-> | Hne].
    + exists c'. rewrite list_lookup_insert_eq by (by eapply lookup_lt_Some).
      split; [done|]. simplify_eq. by rewrite Hpath, Hopts.
    + exists cj. by rewrite list_lookup_insert_ne.
Qed.

(** [start_refresh] sends at most the one call of the refresh it starts. *)
Lemma sends_ok_start pf s :
  sends_ok pf s -> sends_ok pf (start_refresh pf s).
Proof.
  intros [Hrq Hrf Hwh]. unfold start_refresh.
  destruct (usable_refresh_token pf (storage s)) as [t|].
  - split; cbn [running refreshes sent].
    + intros j. specialize (Hrq j).
      assert (sent_from (ByRequest j)
                {| storage := storage s; slot := Some (length (refreshes s));
                   refreshes := refreshes s ++ [Fetching];
                   sent := sent s ++ [(ByRefresh (length (refreshes s)), refresh_call pf t)];
                   running := running s |} = sent_from (ByRequest j) s) as ->; [|done].
      unfold sent_from. cbn [sent]. rewrite List.filter_app, length_app. cbn. lia.
    + intros p.
      assert (sent_from (ByRefresh p)
                {| storage := storage s; slot := Some (length (refreshes s));
                   refreshes := refreshes s ++ [Fetching];
                   sent := sent s ++ [(ByRefresh (length (refreshes s)), refresh_call pf t)];
                   running := running s |} =
              sent_from (ByRefresh p) s +
                (if Nat.eqb (length (refreshes s)) p then 1 else 0)) as ->.
      { unfold sent_from. cbn [sent]. rewrite List.filter_app, length_app. cbn.
        by destruct (Nat.eqb (length (refreshes s)) p). }
      destruct (Hrf p) as [H1 H0]. rewrite length_app. cbn [length].
      destruct (Nat.eqb_spec (length (refreshes s)) p) as [<- | Hne].
      * rewrite H0 by lia. split; lia.
      * split; [lia|]. intros Hp. rewrite H0 by lia. lia.
    + intros j rq Hin. apply elem_of_app in Hin as [Hin | Hin]; [by apply Hwh|].
      apply list_elem_of_singleton in Hin. simplify_eq.
  - split; cbn [running refreshes sent]; [done| |done].
    intros p. destruct (Hrf p) as [H1 H0]. split; [done|].
    rewrite length_app. cbn [length]. intros Hp. apply H0. lia.
Qed.

Lemma running_start_refresh pf s : running (start_refresh pf s) = running s.
Proof. unfold start_refresh. by destruct (usable_refresh_token pf (storage s)). Qed.

(** The retry: lines 99-100. *)
Lemma sends_ok_retry pf s i c c' :
  sends_ok pf s -> running s !! i = Some c ->
  before_retry (at_point c) = true -> before_retry (at_point c') = false ->
  path c' = path c -> options c' = options c ->
  sends_ok pf (send (ByRequest i) (api_call pf (path c) (options c) (hdrs c'))
                 (set_call i c' s)).
Proof.
  intros [Hrq Hrf Hwh] Hi Hbefore Hafter Hpath Hopts. split.
  - intros j. rewrite sent_from_send, sent_from_set_call. cbn [send set_call running].
    specialize (Hrq j). destruct (decide (j = i)) as [-> | Hne].
    + rewrite list_lookup_insert_eq by (by eapply lookup_lt_Some).
      rewrite Hi in Hrq. destruct Hrq as [_ H1]. rewrite (H1 Hbefore).
      rewrite same_origin_refl. rewrite Hafter. split; [lia | done].
    + rewrite list_lookup_insert_ne by done.
      assert (same_origin (ByRequest i) (ByRequest j) = false) as ->.
      { apply not_true_is_false. rewrite same_origin_request. congruence. }
      by rewrite Nat.add_0_r.
  - intros p. rewrite sent_from_send, sent_from_set_call. cbn [same_origin].
    rewrite Nat.add_0_r. apply Hrf.
  - intros j rq Hin. cbn [send set_call sent running] in *.
    apply elem_of_app in Hin as [Hin | Hin].
    + destruct (Hwh j rq Hin) as (cj & Hj & Hu).
      destruct (decide (j = i)) as [-> | Hne].
      * exists c'. rewrite list_lookup_insert_eq by (by eapply lookup_lt_Some).
        split; [done|]. simplify_eq. by rewrite Hpath, Hopts.
      * exists cj. by rewrite list_lookup_insert_ne.
    + apply list_elem_of_singleton in Hin. simplify_eq.
      exists c'. rewrite list_lookup_insert_eq by (by eapply lookup_lt_Some).
      split; [done|]. by rewrite Hpath, Hopts.
Qed.

Lemma sends_ok_after_refresh pf s i c v :
  sends_ok pf s -> running s !! i = Some c -> before_retry (at_point c) = true ->
  sends_ok pf (after_refresh pf i c v s).
Proof.
  intros Hok Hi Hbefore. unfold after_refresh. cbv zeta.
  cbn [resp path options token hdrs].
  destruct (truthy v).
  - destruct (ToString v) as [bearer|].
    + match goal with
      | |- sends_ok pf (send _ (api_call pf _ _ ?h) (set_call i ?c' s)) =>
          apply (sends_ok_retry pf s i c c' Hok Hi Hbefore); reflexivity
      end.
    + eapply (sends_ok_move pf s _ i c); eauto; done.
  - destruct (resp c); eapply (sends_ok_move pf s _ i c); eauto; done.
Qed.

Lemma sends_ok_boot pf st : sends_ok pf (boot st).
Proof.
  split; cbn.
  - by intros i.
  - intros p. unfold sent_from. cbn. split; [lia | done].
  - intros i rq Hin. by apply elem_of_nil in Hin.
Qed.

(** The side conditions of [sends_ok_move]. *)
Ltac moved Hat :=
  try done; rewrite ?Hat; cbn [move at_point before_retry]; try done;
  unfold finish; by destruct (negb (ok _)).

Lemma step_sends_ok pf e s s' : sends_ok pf s -> step pf e s = Some s' -> sends_ok pf s'.
Proof.
  intros Hok Hstep. destruct e as [pth opts | i fr | i | p fr | p]; cbn [step] in Hstep.
  - (* Call *)
    simplify_eq. destruct Hok as [Hrq Hrf Hwh].
    set (c0 := {| path := pth; options := opts; token := _; hdrs := _; resp := None;
                  awaited := None; newToken := None; at_point := AtFetch |}).
    set (rq0 := api_call pf pth opts _).
    assert (forall o, sent_from o
              {| storage := storage s; slot := slot s; refreshes := refreshes s;
                 sent := sent s ++ [(ByRequest (length (running s)), rq0)];
                 running := running s ++ [c0] |} =
              sent_from o s + (if same_origin (ByRequest (length (running s))) o
                               then 1 else 0)) as Hcount.
    { intros o. unfold sent_from. cbn [sent]. rewrite List.filter_app, length_app. cbn.
      by repeat case_match. }
    split; cbn [running refreshes sent].
    + intros j. rewrite Hcount. specialize (Hrq j).
      destruct (decide (j = length (running s))) as [-> | Hne].
      * rewrite lookup_ge_None_2 in Hrq by done. rewrite Hrq.
        rewrite lookup_app_r, Nat.sub_diag by done. cbn [lookup list_lookup].
        rewrite same_origin_refl. split; [lia | done].
      * assert (same_origin (ByRequest (length (running s))) (ByRequest j) = false) as ->.
        { apply not_true_is_false. rewrite same_origin_request. congruence. }
        rewrite Nat.add_0_r.
        destruct (running s !! j) as [cj|] eqn:Hj.
        -- rewrite lookup_app_l by (by eapply lookup_lt_Some). by rewrite Hj.
        -- apply lookup_ge_None in Hj.
           rewrite lookup_ge_None_2; [done|]. rewrite length_app. cbn. lia.
    + intros p. rewrite Hcount. cbn [same_origin]. rewrite Nat.add_0_r. apply Hrf.
    + intros j rq Hin. apply elem_of_app in Hin as [Hin | Hin].
      * destruct (Hwh j rq Hin) as (cj & Hj & Hu). exists cj. split; [|done].
        rewrite lookup_app_l; [done|]. by eapply lookup_lt_Some.
      * apply list_elem_of_singleton in Hin. simplify_eq. exists c0.
        rewrite lookup_app_r, Nat.sub_diag by done. done.
  - (* Settle *)
    destruct (running s !! i) as [c|] eqn:Hi; [|done].
    destruct (at_point c) eqn:Hat; try done; destruct fr as [r|]; simplify_eq.
    + unfold after_first. cbv zeta. cbn [token path options hdrs resp awaited newToken].
      destruct ((status r =? 401)%Z && truthy (of_item (token c))).
      * destruct (slot s) as [p0|].
        -- eapply (sends_ok_move pf s _ i c); eauto; moved Hat.
        -- eapply (sends_ok_move pf (start_refresh pf s) _ i c);
             [by apply sends_ok_start | by rewrite running_start_refresh | done | done
             | done | done | done | by rewrite Hat].
      * eapply (sends_ok_move pf s _ i c); eauto; moved Hat.
    + eapply (sends_ok_move pf s _ i c); eauto; moved Hat.
    + eapply (sends_ok_move pf s _ i c); eauto; moved Hat.
    + eapply (sends_ok_move pf s _ i c); eauto; moved Hat.
  - (* Resume *)
    destruct (running s !! i) as [c|] eqn:Hi; [|done].
    destruct (at_point c) eqn:Hat; try done.
    + destruct (refreshes s !! p) as [[| |v]|]; try done. simplify_eq.
      eapply (sends_ok_move pf s _ i c); eauto; moved Hat.
    + simplify_eq. apply sends_ok_after_refresh; [done | done | by rewrite Hat].
    + destruct (refreshes s !! p) as [[| |v]|]; try done. simplify_eq.
      apply sends_ok_after_refresh; [done | done | by rewrite Hat].
    + simplify_eq. eapply (sends_ok_move pf s _ i c); eauto; moved Hat.
    + simplify_eq. eapply (sends_ok_move pf s _ i c); eauto; moved Hat.
  - (* RefreshSettle *)
    destruct (refreshes s !! p) as [[| |v]|] eqn:Hp; try done.
    assert (forall r, sends_ok pf (set_refresh p r (storage s) s)) as Hset.
    { intros r. destruct Hok as [Hrq Hrf Hwh]. split; try done.
      intros q. cbn [set_refresh refreshes]. rewrite length_insert. apply Hrf. }
    destruct fr as [r|]; simplify_eq; apply Hset.
  - (* RefreshResume *)
    destruct (refreshes s !! p) as [[|r|v]|] eqn:Hp; try done.
    destruct (store_tokens pf r (storage s)) as [v st]. simplify_eq.
    destruct Hok as [Hrq Hrf Hwh]. split; try done.
    intros q. cbn [set_refresh refreshes]. rewrite length_insert. apply Hrf.
Qed.

Lemma run_sends_ok pf evs s s' : sends_ok pf s -> run pf evs s = Some s' -> sends_ok pf s'.
Proof.
  revert s. induction evs as [|e evs IH]; intros s H Hrun; cbn [run] in Hrun.
  - by simplify_eq.
  - destruct (step pf e s) as [s1|] eqn:Hstep; [|done].
    eapply IH; [|done]. by eapply step_sends_ok.
Qed.

End LoopSendsFacts.

Module LoopSendsProps.

Import Client Loop LoopSends LoopSendsFacts Scenario.

(** At most one retry, however the calls interleave.  In every state the
    machine reaches, each call of [request] has called [fetch] once or twice
    and only once while it has not passed the refresh; every call it sent
    goes to its own path with its own method and body; and each refresh has
    called the refresh endpoint at most once. *)
Theorem at_most_one_retry pf st evs s :
  run pf evs (boot st) = Some s ->
  (forall i c, running s !! i = Some c ->
     1 <= sent_from (ByRequest i) s <= 2 /\
     (before_retry (at_point c) = true -> sent_from (ByRequest i) s = 1)) /\
  (forall i c rq, running s !! i = Some c -> (ByRequest i, rq) ∈ sent s ->
     url rq = API_BASE pf +:+ path c /\
     method rq = init_method (options c) /\
     body rq = init_body (options c)) /\
  (forall p, sent_from (ByRefresh p) s <= 1).
Proof.
  intros Hrun.
  destruct (run_sends_ok pf evs (boot st) s (sends_ok_boot pf st) Hrun) as [Hrq Hrf Hwh].
  split; [|split].
  - intros i c Hi. specialize (Hrq i). by rewrite Hi in Hrq.
  - intros i c rq Hi Hin. destruct (Hwh i rq Hin) as (c' & Hi' & Hu). by simplify_eq.
  - intros p. apply Hrf.
Qed.

Lemma at_most_one_retry_witness :
  let pf := scripted [] in
  let s := default (boot signed_in)
             (run pf [Call "/v1/admin/users" no_options; Settle 0 expired;
                      RefreshSettle 0 (reply 200 "OK" (Some refreshed)); RefreshResume 0;
                      Resume 0; Resume 0]
                (boot signed_in)) in
  (forall i c, running s !! i = Some c ->
     1 <= sent_from (ByRequest i) s <= 2 /\
     (before_retry (at_point c) = true -> sent_from (ByRequest i) s = 1)) /\
  (forall i c rq, running s !! i = Some c -> (ByRequest i, rq) ∈ sent s ->
     url rq = API_BASE pf +:+ path c /\
     method rq = init_method (options c) /\
     body rq = init_body (options c)) /\
  (forall p, sent_from (ByRefresh p) s <= 1).
Proof.
  intros pf s.
  apply (at_most_one_retry pf signed_in
           [Call "/v1/admin/users" no_options; Settle 0 expired;
            RefreshSettle 0 (reply 200 "OK" (Some refreshed)); RefreshResume 0;
            Resume 0; Resume 0] s).
  vm_compute. reflexivity.
Defined.

End LoopSendsProps.

(** * The pagination bar *)

Module SharedProps.

Import Shared.

Local Open Scope Z_scope.

Lemma ceil_div_le a b n : 0 < b -> ceil_div a b <= n <-> a <= n * b.
Proof.
  intros Hb. unfold ceil_div. split; intros H.
  - assert (- n <= - a / b) as H' by lia.
    pose proof (Z.mul_div_le (- a) b Hb). nia.
  - assert (- n <= - a / b); [|lia]. apply Z.div_le_lower_bound; lia.
Qed.

(** The bar keeps the list on whole pages.  For counts in the safe range
    ([total] and [offset + limit] at most [MAX_SAFE_INTEGER]), with a positive
    limit and an offset that is a whole number of pages and below the total,
    the bar is hidden exactly when everything fits on one page; otherwise the
    page it shows is the offset's page, between one and the number of pages,
    Previous is disabled exactly on the first page and Next exactly on the
    last, and a button that is enabled moves by one page to an offset that is
    again a whole number of pages, not negative and below the total. *)
Theorem Pagination_keeps_whole_pages total limit offset k :
  0 < limit -> 0 <= k -> offset = k * limit -> offset < total ->
  total <= MAX_SAFE_INTEGER -> offset + limit <= MAX_SAFE_INTEGER ->
  match Pagination total limit offset with
  | None => False
  | Some Hidden => total <= limit /\ offset = 0
  | Some (Bar bar) =>
      limit < total /\
      currentPage bar = k + 1 /\
      1 <= currentPage bar <= totalPages bar /\
      (previous_disabled bar = true <-> currentPage bar = 1) /\
      (next_disabled bar = true <-> currentPage bar = totalPages bar) /\
      (previous_disabled bar = false ->
       previous_offset bar = (k - 1) * limit /\ 0 <= previous_offset bar) /\
      (next_disabled bar = false ->
       next_offset bar = (k + 1) * limit /\ next_offset bar < total) /\
      showing_from bar <= showing_to bar <= total
  end.
Proof.
  intros Hl Hk -> Hlt Htotal Hnext. unfold Pagination.
  assert (safe_counts total limit (k * limit) = true) as ->.
  { unfold safe_counts. rewrite !andb_true_iff, Z.ltb_lt, !Z.leb_le. nia. }
  cbn [negb]. cbv zeta.
  rewrite Z.div_mul by lia.
  pose proof (ceil_div_le total limit 1 Hl) as H1.
  pose proof (ceil_div_le total limit k Hl) as Hkk.
  pose proof (ceil_div_le total limit (k + 1) Hl) as Hk1.
  assert (k + 1 <= ceil_div total limit) as Hpages.
  { destruct (Z.le_gt_cases (k + 1) (ceil_div total limit)) as [|Hc]; [done|].
    assert (ceil_div total limit <= k) as Hc' by lia. apply Hkk in Hc'. lia. }
  destruct (Z.leb_spec (ceil_div total limit) 1) as [Hle | Hgt].
  - apply H1 in Hle. assert (k = 0) as -> by nia. lia.
  - assert (limit < total) as Hmore.
    { destruct (Z.le_gt_cases total limit) as [Hc|]; [|lia].
      assert (ceil_div total limit <= 1) by (apply H1; lia). lia. }
    cbn [currentPage totalPages previous_disabled previous_offset next_disabled
         next_offset showing_from showing_to].
    split; [done|]. split; [done|]. split; [lia|].
    split. { rewrite Z.eqb_eq. nia. }
    split. { rewrite Z.leb_le. split; intros H.
             - assert (ceil_div total limit <= k + 1) by (apply Hk1; lia). lia.
             - assert (ceil_div total limit <= k + 1) as Hc by lia. apply Hk1 in Hc. lia. }
    split. { rewrite Z.eqb_neq. intros H0. assert (1 <= k) by nia.
             rewrite Z.max_r by nia. split; nia. }
    split. { intros Hn. apply Z.leb_gt in Hn. lia. }
    lia.
Qed.

Lemma Pagination_keeps_whole_pages_witness :
  match Pagination 120 50 50 with
  | None => False
  | Some Hidden => 120 <= 50 /\ 50 = 0
  | Some (Bar bar) =>
      50 < 120 /\
      currentPage bar = 1 + 1 /\
      1 <= currentPage bar <= totalPages bar /\
      (previous_disabled bar = true <-> currentPage bar = 1) /\
      (next_disabled bar = true <-> currentPage bar = totalPages bar) /\
      (previous_disabled bar = false ->
       previous_offset bar = (1 - 1) * 50 /\ 0 <= previous_offset bar) /\
      (next_disabled bar = false ->
       next_offset bar = (1 + 1) * 50 /\ next_offset bar < 120) /\
      showing_from bar <= showing_to bar <= 120
  end.
Proof.
  apply (Pagination_keeps_whole_pages 120 50 50 1);
    [lia | lia | reflexivity | lia | unfold MAX_SAFE_INTEGER; lia
    | unfold MAX_SAFE_INTEGER; lia].
Defined.

End SharedProps.
